(** * Markdown image downloader ([draft/main.py]): a shallow embedding

    The script scans Markdown documents for image references, downloads the
    referenced images and rewrites the documents to point at the local copies.
    This development embeds the script's functions in Rocq and states the
    properties of the specification over them.

    Texts are Python [str] values: sequences of Unicode code points, modelled
    as [list N].  The interpreter's library calls whose results depend on the
    outside world or on code outside the repository ([requests.get],
    [urlparse], [urljoin], [hashlib.md5], the file system's permissions, the
    directory listing of [glob]) are parameters of the model.  Files hold
    bytes: a document is read as UTF-8 text with Python's newline
    translation, the output is written as UTF-8, and the images are written
    as the bytes received. *)

From Stdlib Require Import Strings.String Strings.Ascii NArith Lia DecimalString.
From Stdlib Require DecimalNat.
From stdpp Require Import gmap.

Set Default Proof Using "Type".

(** ** Texts *)

Abbreviation text := (list N) (only parsing).

(** A string literal as a text (one code point per character). *)
Definition txt (s : string) : text := map N_of_ascii (list_ascii_of_string s).

Definition ch (a : ascii) : N := N_of_ascii a.

Module Py.

(** [s.startswith(l)], returning the rest after the prefix. *)
Fixpoint strip_prefix (l s : text) : option text :=
  match l, s with
  | [], _ => Some s
  | a :: l', b :: s' => if N.eqb a b then strip_prefix l' s' else None
  | _ :: _, [] => None
  end.

Definition startswith (s l : text) : bool :=
  match strip_prefix l s with Some _ => true | None => false end.

Definition endswith (s l : text) : bool := startswith (rev s) (rev l).

(** [needle in hay] *)
Fixpoint contains (needle hay : text) : bool :=
  startswith hay needle ||
  match hay with
  | [] => false
  | _ :: hay' => contains needle hay'
  end.

(** [s.replace(old, new)]: every non-overlapping occurrence of [old], found
    left to right, is replaced.  [skip] counts the characters of an
    occurrence already replaced that are still to be passed over.  With an
    empty [old], Python puts [new] before every character and at the
    end. *)
Fixpoint replace_from (old new s : text) (skip : nat) : text :=
  match s with
  | [] => []
  | c :: s' =>
      match skip with
      | S k => replace_from old new s' k
      | O => if startswith s old
             then new ++ replace_from old new s' (length old - 1)
             else c :: replace_from old new s' 0
      end
  end.

Definition replace (s old new : text) : text :=
  match old with
  | [] => flat_map (fun c => new ++ [c]) s ++ new
  | _ :: _ => replace_from old new s 0
  end.

(** Python's [str.isspace] on one code point (the characters [str.strip()]
    removes). *)
Definition isspace (c : N) : bool :=
  ((9 <=? c) && (c <=? 13) || (28 <=? c) && (c <=? 32) ||
   (c =? 133) || (c =? 160) || (c =? 5760) ||
   (8192 <=? c) && (c <=? 8202) || (c =? 8232) || (c =? 8233) ||
   (c =? 8239) || (c =? 8287) || (c =? 12288))%N.

Fixpoint lstrip (s : text) : text :=
  match s with
  | c :: s' => if isspace c then lstrip s' else s
  | [] => []
  end.

(** [s.strip()] *)
Definition strip (s : text) : text := rev (lstrip (rev (lstrip s))).

(** Truth value of a string: non-empty. *)
Definition truthy (s : text) : bool :=
  match s with [] => false | _ :: _ => true end.

(** [s.split(sep)[0]] for a one-character separator: the part before the
    first [sep]. *)
Fixpoint split_first (sep : N) (s : text) : text :=
  match s with
  | [] => []
  | c :: s' => if N.eqb c sep then [] else c :: split_first sep s'
  end.

(** [s.replace(a, b)] for one-character [a] and [b]. *)
Definition replace_char (a b : N) (s : text) : text :=
  map (fun c => if N.eqb c a then b else c) s.

(** [os.path.basename] (posixpath): what follows the last ['/']. *)
Fixpoint basename_from (s acc : text) : text :=
  match s with
  | [] => rev acc
  | c :: s' => if N.eqb c (ch "/") then basename_from s' []
               else basename_from s' (c :: acc)
  end.

Definition basename (p : text) : text := basename_from p [].

(** [os.path.join(a, b)] (posixpath, two arguments). *)
Definition path_join (a b : text) : text :=
  if startswith b (txt "/") then b
  else if negb (truthy a) || endswith a (txt "/") then a ++ b
  else a ++ txt "/" ++ b.

(** [s.rfind(c)], if [c] occurs: [i] is the index of the head of [s] and
    [found] the last index seen so far. *)
Fixpoint rfind (c : N) (s : text) (i : nat) (found : option nat)
  : option nat :=
  match s with
  | [] => found
  | x :: s' => rfind c s' (S i) (if N.eqb x c then Some i else found)
  end.

(** [os.path.splitext(p)[0]]: [p] without the extension of its last
    component; dots in front of the component do not start one. *)
Definition splitext_root (p : text) : text :=
  let start := match rfind (ch "/") p 0 None with
               | Some i => S i | None => 0 end in
  match rfind (ch ".") p 0 None with
  | Some dot =>
      if (start <=? dot) &&
         existsb (fun c => negb (N.eqb c (ch ".")))
                 (take (dot - start) (drop start p))
      then take dot p else p
  | None => p
  end.

End Py.

(** ** Regular expressions

    The patterns of the script are concatenations of literals, of
    quantified character classes and of capture groups.  [run] is the
    backtracking matcher of Python's [re] on such patterns: a greedy
    quantifier tries the longest repetition first, a lazy one the shortest,
    and the first way to match the whole pattern wins. *)

Module Re.

Inductive atom : Type :=
| Lit (l : text)              (* literal characters *)
| Lazy0 (p : N -> bool)       (* [cls*?] *)
| Greedy0 (p : N -> bool)     (* [cls*] *)
| Greedy1 (p : N -> bool)     (* [cls+] *)
| GOpen                       (* [(] *)
| GClose.                     (* [)] *)

Definition pattern := list atom.

(** Matcher state: the start positions of the groups still open, and the
    spans of the closed groups, last closed first. *)
Definition mstate : Type := list nat * list (nat * nat).

(** Result of a match: its end position and the groups' spans, in the order
    the groups close.  Positions count from the start of the match. *)
Definition mresult : Type := nat * list (nat * nat).

Definition cont : Type := nat -> text -> mstate -> option mresult.

Fixpoint lazy_star (p : N -> bool) (k : cont) (pos : nat) (s : text)
    (st : mstate) {struct s} : option mresult :=
  match k pos s st with
  | Some r => Some r
  | None =>
      match s with
      | c :: s' => if p c then lazy_star p k (S pos) s' st else None
      | [] => None
      end
  end.

Fixpoint greedy_star (p : N -> bool) (k : cont) (pos : nat) (s : text)
    (st : mstate) {struct s} : option mresult :=
  match s with
  | c :: s' =>
      if p c then
        match greedy_star p k (S pos) s' st with
        | Some r => Some r
        | None => k pos s st
        end
      else k pos s st
  | [] => k pos s st
  end.

Definition greedy_plus (p : N -> bool) (k : cont) : cont :=
  fun pos s st =>
    match s with
    | c :: s' => if p c then greedy_star p k (S pos) s' st else None
    | [] => None
    end.

Definition lit (l : text) (k : cont) : cont :=
  fun pos s st =>
    match Py.strip_prefix l s with
    | Some s' => k (pos + length l) s' st
    | None => None
    end.

Definition gopen (k : cont) : cont :=
  fun pos s st => k pos s (pos :: fst st, snd st).

Definition gclose (k : cont) : cont :=
  fun pos s st =>
    match fst st with
    | b :: o => k pos s (o, (b, pos) :: snd st)
    | [] => k pos s st
    end.

Definition accept : cont := fun pos _ st => Some (pos, rev (snd st)).

Fixpoint run (pat : pattern) : cont :=
  match pat with
  | [] => accept
  | Lit l :: r => lit l (run r)
  | Lazy0 p :: r => lazy_star p (run r)
  | Greedy0 p :: r => greedy_star p (run r)
  | Greedy1 p :: r => greedy_plus p (run r)
  | GOpen :: r => gopen (run r)
  | GClose :: r => gclose (run r)
  end.

(** [pattern.match(s)] at the start of [s]. *)
Definition match_at (pat : pattern) (s : text) : option mresult :=
  run pat 0 s ([], []).

(** [s[a:b]] *)
Definition slice (s : text) (sp : nat * nat) : text :=
  take (snd sp - fst sp) (drop (fst sp) s).

(** What a scan of a text yields: a character no match covers, or a match
    with [group(0)] and the texts of its groups. *)
Inductive piece : Type :=
| Plain (c : N)
| Hit (whole : text) (groups : list text).

(** The left-to-right scan of [re.finditer]: matches do not overlap, and
    after a match the search resumes at its end.  [skip] counts the
    characters of the last match still to be passed over.  The patterns of
    the script never match the empty text (lemma [patterns_consume]), so
    [finditer]'s treatment of empty matches is left out (an empty match
    counts as none). *)
Fixpoint scan (pat : pattern) (s : text) (skip : nat) : list piece :=
  match s with
  | [] => []
  | c :: s' =>
      match skip with
      | S k => scan pat s' k
      | O =>
          match match_at pat s with
          | Some (S n, spans) =>
              Hit (take (S n) s) (map (slice s) spans) :: scan pat s' n
          | _ => Plain c :: scan pat s' 0
          end
      end
  end.

Definition finditer (pat : pattern) (s : text) : list piece := scan pat s 0.

(** [group(i)], for [i >= 1]; a group that does not exist reads as empty. *)
Definition group (i : nat) (groups : list text) : text :=
  nth (i - 1) groups [].

(** [re.findall(pat, s)] for a pattern with one group: the group's text of
    every match. *)
Definition findall (pat : pattern) (s : text) : list text :=
  flat_map (fun pc => match pc with
                      | Hit _ gs => [group 1 gs]
                      | Plain _ => []
                      end) (finditer pat s).

Definition render (repl : text -> list text -> text) (pc : piece) : text :=
  match pc with
  | Plain c => [c]
  | Hit whole gs => repl whole gs
  end.

(** [re.sub(pat, repl, s)] with a function [repl] of the match. *)
Definition sub (pat : pattern) (repl : text -> list text -> text)
    (s : text) : text :=
  flat_map (render repl) (finditer pat s).

(** The text a piece stands for. *)
Definition piece_text (pc : piece) : text :=
  match pc with
  | Plain c => [c]
  | Hit whole _ => whole
  end.

End Re.

(** ** The script's patterns *)

(** The double quote character. *)
Definition dq : N := ch "034".

(** A literal in which every apostrophe stands for a double quote: the
    documents and tags of the examples are written with it. *)
Definition qtxt (s : string) : text :=
  map (fun c => if (c =? ch "'")%N then dq else c) (txt s).

(** The class [.]: any character but a newline. *)
Definition dot (c : N) : bool := negb (c =? ch "010")%N.
(** The class of the characters other than [>]. *)
Definition not_gt (c : N) : bool := negb (c =? ch ">")%N.
(** The class of the characters other than the double quote and [>]. *)
Definition not_quote_gt (c : N) : bool :=
  negb (c =? dq)%N && negb (c =? ch ">")%N.

Import Re.

(** [src=] followed by a double quote. *)
Definition src_eq_quote : text := txt "src=" ++ [dq].

(** The pattern [!\[.*?\]\((.*?)\)] of the extractor. *)
Definition markdown_pattern : pattern :=
  [Lit (txt "!["); Lazy0 dot; Lit (txt "]("); GOpen; Lazy0 dot; GClose;
   Lit (txt ")")].

(** The extractor's pattern for tags: [<img], one or more characters other
    than [>], [src=], a double quote, a group of one or more characters
    other than the double quote and [>], a double quote. *)
Definition html_pattern : pattern :=
  [Lit (txt "<img"); Greedy1 not_gt; Lit src_eq_quote; GOpen;
   Greedy1 not_quote_gt; GClose; Lit [dq]].

(** The extractor's pattern for self-closing tags: [html_pattern] followed by
    any number of characters other than [>] and by [/>]. *)
Definition self_closing_pattern : pattern :=
  [Lit (txt "<img"); Greedy1 not_gt; Lit src_eq_quote; GOpen;
   Greedy1 not_quote_gt; GClose; Lit [dq]; Greedy0 not_gt;
   Lit (txt "/>")].

(** The pattern [!\[(.*?)\]\((.*?)\)] of the rewriter. *)
Definition markdown_sub_pattern : pattern :=
  [Lit (txt "!["); GOpen; Lazy0 dot; GClose; Lit (txt "]("); GOpen;
   Lazy0 dot; GClose; Lit (txt ")")].

(** The rewriter's pattern for tags: [html_pattern] followed by any number of
    characters other than [>] and by [>]. *)
Definition html_sub_pattern : pattern :=
  [Lit (txt "<img"); Greedy1 not_gt; Lit src_eq_quote; GOpen;
   Greedy1 not_quote_gt; GClose; Lit [dq]; Greedy0 not_gt;
   Lit (txt ">")].

(** ** Text files

    The script reads its documents with [open(path, 'r', encoding='utf-8')]
    and writes its output with [open(path, 'w', encoding='utf-8')].  A file
    holds bytes.  Reading decodes them and translates the newlines; writing
    encodes the text and, on the POSIX systems this development is about
    (the paths are POSIX paths), writes [\n] as it is. *)

Module Codec.

(** A continuation byte. *)
Definition continuation (b : N) : bool := ((128 <=? b) && (b <=? 191))%N.

(** The second byte of a three-byte sequence that starts with [b0]. *)
Definition second_of_three (b0 b1 : N) : bool :=
  (if b0 =? 224 then (160 <=? b1) && (b1 <=? 191)
   else if b0 =? 237 then (128 <=? b1) && (b1 <=? 159)
   else continuation b1)%N.

(** The second byte of a four-byte sequence that starts with [b0]. *)
Definition second_of_four (b0 b1 : N) : bool :=
  (if b0 =? 240 then (144 <=? b1) && (b1 <=? 191)
   else if b0 =? 244 then (128 <=? b1) && (b1 <=? 143)
   else continuation b1)%N.

(** [bytes.decode('utf-8')], strict: [None] stands for
    [UnicodeDecodeError].  Overlong forms, surrogates, values above
    [0x10FFFF] and sequences cut short are errors. *)
Fixpoint decode (bs : list N) : option text :=
  match bs with
  | [] => Some []
  | b0 :: r0 =>
      if (b0 <? 128)%N then cons b0 <$> decode r0
      else
        match r0 with
        | [] => None
        | b1 :: r1 =>
            if ((194 <=? b0) && (b0 <=? 223))%N then
              if continuation b1
              then cons ((b0 - 192) * 64 + (b1 - 128))%N <$> decode r1
              else None
            else
              match r1 with
              | [] => None
              | b2 :: r2 =>
                  if ((224 <=? b0) && (b0 <=? 239))%N then
                    if second_of_three b0 b1 && continuation b2
                    then cons ((b0 - 224) * 4096 + (b1 - 128) * 64
                               + (b2 - 128))%N <$> decode r2
                    else None
                  else
                    match r2 with
                    | [] => None
                    | b3 :: r3 =>
                        if ((240 <=? b0) && (b0 <=? 244))%N
                           && second_of_four b0 b1
                           && continuation b2 && continuation b3
                        then cons ((b0 - 240) * 262144 + (b1 - 128) * 4096
                                   + (b2 - 128) * 64 + (b3 - 128))%N
                               <$> decode r3
                        else None
                    end
              end
        end
  end.

(** [str.encode('utf-8')], strict: [None] stands for
    [UnicodeEncodeError], raised for a lone surrogate.  (A [str] holds no
    code point above [0x10FFFF].) *)
Definition encode_char (c : N) : option (list N) :=
  if (c <? 128)%N then Some [c]
  else if (c <? 2048)%N then Some [192 + c / 64; 128 + c mod 64]%N
  else if (c <? 65536)%N then
    if ((55296 <=? c) && (c <=? 57343))%N then None
    else Some [224 + c / 4096; 128 + (c / 64) mod 64; 128 + c mod 64]%N
  else if (c <? 1114112)%N then
    Some [240 + c / 262144; 128 + (c / 4096) mod 64;
          128 + (c / 64) mod 64; 128 + c mod 64]%N
  else None.

Fixpoint encode (s : text) : option (list N) :=
  match s with
  | [] => Some []
  | c :: r =>
      match encode_char c, encode r with
      | Some a, Some b => Some (a ++ b)
      | _, _ => None
      end
  end.

(** The newline translation of a file opened for reading in text mode:
    [\r\n] and every other [\r] are read as [\n]. *)
Fixpoint universal_newlines (s : text) : text :=
  match s with
  | [] => []
  | c :: r =>
      if (c =? 13)%N then
        match r with
        | c' :: r' =>
            if (c' =? 10)%N then 10%N :: universal_newlines r'
            else 10%N :: universal_newlines r
        | [] => [10%N]
        end
      else c :: universal_newlines r
  end.

End Codec.

(** The code points a text file can hold: everything below [0x110000] but
    the surrogates. *)
Definition scalar (c : N) : bool :=
  ((c <? 55296) || ((57343 <? c) && (c <? 1114112)))%N.

(** ** The world outside the script *)

(** What [requests.get(url, stream=True, timeout=30)] hands back. *)
Record response : Type := Response {
  status_ok : bool;               (* [raise_for_status()] does not raise *)
  content_type : option text;     (* the [content-type] header, if any *)
  chunks : list text;             (* what [iter_content] yields *)
  stream_ok : bool                (* [iter_content] ends without raising *)
}.

(** The parameters of a run: library calls and the parts of the outside world
    the script only reads. *)
Record Env : Type := {
  (** [urlparse(url).path]; [None] when [urlparse] raises [ValueError]. *)
  urlparse_path : text -> option text;
  (** [urljoin(base, url)]; [None] when it raises [ValueError]. *)
  urljoin : text -> text -> option text;
  (** [hashlib.md5(url.encode()).hexdigest()]. *)
  md5_hexdigest : text -> text;
  (** The answer to the request made by the [n]-th call of [download_image]
      (counting from 0) for a URL; [None] when [requests.get] raises. *)
  http_get : nat -> text -> option response;
  (** Whether [open(path, 'w')] and [open(path, 'wb')] succeed. *)
  can_write : text -> bool;
  (** Whether [os.makedirs(path, exist_ok=True)] succeeds. *)
  can_makedirs : text -> bool;
  (** The paths [glob.glob('source_markdowns/*.md', recursive=True)]
      returns, in its order. *)
  glob_source_markdowns : list text;
  (** [os.path.isfile]. *)
  isfile : text -> bool;
  (** The current directory, for [os.path.abspath] (whose normalisation
      leaves the paths of the listing as they are). *)
  cwd : text
}.

(** The state a run changes: the files (path to bytes) and, as a record of
    what happened, the arguments of every call of [download_image], oldest
    first. *)
Record world : Type := World {
  files : gmap (list N) (list N);
  calls : list (list N * list N)
}.

Inductive exn : Type :=
| FileNotFoundError (path : text)
| PermissionError (path : text)
| ValueError (url : text)
| RequestException (url : text)
| HTTPError (url : text)
| ChunkedEncodingError (url : text)
| UnicodeDecodeError (path : text)
| UnicodeEncodeError (path : text).

Inductive outcome (A : Type) : Type :=
| Done (a : A)
| Raised (e : exn).
Arguments Done {A} a.
Arguments Raised {A} e.

(** A computation that may change the world and may raise. *)
Definition M (A : Type) : Type := world -> outcome A * world.

Definition ret {A} (a : A) : M A := fun w => (Done a, w).
Definition raise {A} (e : exn) : M A := fun w => (Raised e, w).
Definition bind {A B} (m : M A) (f : A -> M B) : M B :=
  fun w => match m w with
           | (Done a, w') => f a w'
           | (Raised e, w') => (Raised e, w')
           end.
(** [try: m  except Exception as e: h e]; what [m] did to the world before
    raising stays done. *)
Definition try_except {A} (m : M A) (h : exn -> M A) : M A :=
  fun w => match m w with
           | (Done a, w') => (Done a, w')
           | (Raised e, w') => h e w'
           end.

#[global] Instance M_ret : MRet M := @ret.
#[global] Instance M_bind : MBind M := fun A B f m => bind m f.

(** The text a file's bytes are read as. *)
Definition text_of_bytes (bs : list N) : option text :=
  Codec.universal_newlines <$> Codec.decode bs.

(** What reading the file at [path] as text gives, when the file exists and
    is UTF-8. *)
Definition read_text (w : world) (path : text) : option text :=
  files w !! path ≫= text_of_bytes.

(** [open(path, 'r', encoding='utf-8').read()] *)
Definition read_file (path : text) : M text :=
  fun w => match files w !! path with
           | Some bs =>
               match text_of_bytes bs with
               | Some content => (Done content, w)
               | None => (Raised (UnicodeDecodeError path), w)
               end
           | None => (Raised (FileNotFoundError path), w)
           end.

Definition put_file (path content : text) : M unit :=
  fun w => (Done tt, World (<[path := content]> (files w)) (calls w)).

Definition append_file (path content : text) : M unit :=
  fun w => (Done tt,
            World (<[path := default [] (files w !! path) ++ content]> (files w))
                  (calls w)).

(** [f.write(content)] on a file opened with [encoding='utf-8']. *)
Definition write_text (path content : text) : M unit :=
  match Codec.encode content with
  | Some bs => append_file path bs
  | None => raise (UnicodeEncodeError path)
  end.

Definition log_call (url filename : text) : M nat :=
  fun w => (Done (length (calls w)),
            World (files w) (calls w ++ [(url, filename)])).

(** [str(n)] for a natural number. *)
Definition str_of_nat (n : nat) : text :=
  txt (NilEmpty.string_of_uint (Nat.to_uint n)).

(** ** The class [MarkdownImageDownloader] *)

Record Downloader : Type := {
  markdown_file : text;
  output_dir : text;
  base_url : option text;
  downloaded_images : gmap (list N) (list N)
}.

Definition set_downloaded (self : Downloader) (d : gmap (list N) (list N))
  : Downloader :=
  {| markdown_file := markdown_file self; output_dir := output_dir self;
     base_url := base_url self; downloaded_images := d |}.

Section Script.

Context (env : Env).

(** [os.makedirs(path, exist_ok=True)]; directories are not part of
    [files]. *)
Definition makedirs (path : text) : M unit :=
  if can_makedirs env path then ret tt else raise (PermissionError path).

(** [open(path, 'w')] or [open(path, 'wb')]: the file is created or
    emptied. *)
Definition open_write (path : text) : M unit :=
  if can_write env path then put_file path []
  else raise (PermissionError path).

(** [__init__] *)
Definition init (markdown_file output_dir : text) (base_url : option text)
  : M Downloader :=
  makedirs output_dir ;;
  ret {| markdown_file := markdown_file; output_dir := output_dir;
         base_url := base_url; downloaded_images := ∅ |}.

(** The three searches of [extract_image_urls] on the file's content. *)
Definition image_urls_of (content : text) : list text :=
  findall markdown_pattern content ++
  findall html_pattern content ++
  findall self_closing_pattern content.

Definition extract_image_urls (self : Downloader) : M (list text) :=
  content ← read_file (markdown_file self);
  ret (image_urls_of content).

(** The target path after the extension is decided: [.svg] is added when
    the content type has [svg] in it or the URL ends in [.svg], unless the
    name ends in [.svg] already. *)
Definition svg_filename (resp : response) (url filename : text) : text :=
  let content_type := default [] (content_type resp) in
  if Py.contains (txt "svg") content_type || Py.endswith url (txt ".svg")
  then if negb (Py.endswith filename (txt ".svg"))
       then filename ++ txt ".svg" else filename
  else filename.

(** The URL requested: joined to [base_url] when there is one and the URL
    has no [http://] or [https://] in front.  [None] when [urljoin]
    raises. *)
Definition resolved_url (self : Downloader) (url : text) : option text :=
  match base_url self with
  | Some b =>
      if Py.truthy b &&
         negb (Py.startswith url (txt "http://") ||
               Py.startswith url (txt "https://"))
      then urljoin env b url else Some url
  | None => Some url
  end.

Fixpoint write_chunks (filename : text) (cs : list text) : M unit :=
  match cs with
  | [] => ret tt
  | c :: cs' => append_file filename c ;; write_chunks filename cs'
  end.

(** The body of [download_image]'s [try]. *)
Definition download_image_try (self : Downloader) (url filename : text)
  : M bool :=
  n ← log_call url filename;
  match resolved_url self url with
  | None => raise (ValueError url)
  | Some url =>
      match http_get env n url with
      | None => raise (RequestException url)
      | Some resp =>
          (if status_ok resp then ret tt else raise (HTTPError url)) ;;
          let filename := svg_filename resp url filename in
          open_write filename ;;
          write_chunks filename (chunks resp) ;;
          (if stream_ok resp then ret tt
           else raise (ChunkedEncodingError url)) ;;
          ret true
      end
  end.

Definition download_image (self : Downloader) (url filename : text)
  : M bool :=
  try_except (download_image_try self url filename) (fun _ => ret false).

Definition generate_local_filename (self : Downloader) (url : text)
    (index : nat) : M text :=
  match urlparse_path env url with
  | None => raise (ValueError url)
  | Some path =>
      let filename :=
        if Py.truthy path then
          let filename := Py.basename path in
          if negb (Py.contains (txt ".") filename) then
            let url_hash := md5_hexdigest env url in
            txt "image_" ++ take 8 url_hash ++ txt ".png"
          else filename
        else txt "image_" ++ str_of_nat index ++ txt ".png" in
      ret (Py.path_join (output_dir self) filename)
  end.

(** The loop of [download_all_images] from index [i] on; [d] is
    [self.downloaded_images]. *)
Fixpoint download_loop (self : Downloader) (i : nat) (urls : list text)
    (d : gmap (list N) (list N)) : M (gmap (list N) (list N)) :=
  match urls with
  | [] => ret d
  | url :: rest =>
      if negb (Py.truthy (Py.strip url)) then download_loop self (S i) rest d
      else
        local_path ← generate_local_filename self url i;
        match d !! url with
        | Some _ => download_loop self (S i) rest d
        | None =>
            ok ← download_image self url local_path;
            if (ok : bool) then download_loop self (S i) rest (<[url := local_path]> d)
            else download_loop self (S i) rest d
        end
  end.

(** [download_all_images]; the result is the object with its
    [downloaded_images] filled in. *)
Definition download_all_images (self : Downloader) : M Downloader :=
  image_urls ← extract_image_urls self;
  d ← download_loop self 0 image_urls (downloaded_images self);
  ret (set_downloaded self d).

Definition markdown_replacer (d : gmap (list N) (list N))
    (whole : text) (groups : list text) : text :=
  let alt_text := if Py.truthy (group 1 groups) then group 1 groups else [] in
  let url := group 2 groups in
  match d !! url with
  | Some local => txt "![" ++ alt_text ++ txt "](" ++ local ++ txt ")"
  | None => whole
  end.

Definition html_replacer (d : gmap (list N) (list N))
    (whole : text) (groups : list text) : text :=
  let url := group 1 groups in
  match d !! url with
  | Some local => Py.replace whole url local
  | None => whole
  end.

(** The two substitutions of [update_markdown_with_local_paths]. *)
Definition markdown_pass (d : gmap (list N) (list N)) (content : text)
  : text :=
  sub markdown_sub_pattern (markdown_replacer d) content.

Definition html_pass (d : gmap (list N) (list N)) (content : text) : text :=
  sub html_sub_pattern (html_replacer d) content.

Definition rewrite_content (d : gmap (list N) (list N)) (content : text)
  : text :=
  html_pass d (markdown_pass d content).

Definition update_markdown_with_local_paths (self : Downloader)
    (output_file : option text) : M text :=
  let output_file :=
    match output_file with
    | Some f => if Py.truthy f then f
                else Py.splitext_root (markdown_file self) ++ txt "_preprocessed.md"
    | None => Py.splitext_root (markdown_file self) ++ txt "_preprocessed.md"
    end in
  content ← read_file (markdown_file self);
  let content := rewrite_content (downloaded_images self) content in
  open_write output_file ;;
  write_text output_file content ;;
  ret output_file.

(** ** The batch driver *)

Definition find_markdown_files : list text :=
  map (Py.path_join (cwd env))
      (filter (fun p => isfile env p = true) (glob_source_markdowns env)).

Definition f_name_of (path : text) : text :=
  Py.replace_char (ch " ") (ch "_") (Py.basename path).

Definition source_of (path : text) : text :=
  txt "source_markdowns/" ++ f_name_of path.

Definition images_dir_of (path : text) : text :=
  txt "images/" ++ Py.split_first (ch ".") (f_name_of path).

Definition output_of (path : text) : text :=
  txt "output/" ++ Py.split_first (ch ".") (f_name_of path)
    ++ txt "_preprocessed.md".

(** The object [main] makes for a path, as [__init__] leaves it. *)
Definition downloader_of (path : text) : Downloader :=
  {| markdown_file := source_of path; output_dir := images_dir_of path;
     base_url := None; downloaded_images := ∅ |}.

(** The body of [main]'s loop for one path. *)
Definition process (path : text) : M unit :=
  downloader ← init (source_of path) (images_dir_of path) None;
  downloader ← download_all_images downloader;
  update_markdown_with_local_paths downloader (Some (output_of path)) ;;
  ret tt.

Fixpoint for_each (paths : list text) : M unit :=
  match paths with
  | [] => ret tt
  | path :: rest => process path ;; for_each rest
  end.

Definition main : M unit := for_each find_markdown_files.

End Script.

(** ** A small world for the examples *)

Module Sample.

Fixpoint cut_at (stop : N -> bool) (s : text) : text :=
  match s with
  | [] => []
  | c :: s' => if stop c then [] else c :: cut_at stop s'
  end.

Fixpoint from_slash (s : text) : text :=
  match s with
  | [] => []
  | c :: s' => if (c =? ch "/")%N then s else from_slash s'
  end.

(** What [urlparse(u).path] is on the plain URLs of the examples: the part
    from the first [/] after the host up to a [?] or [#]. *)
Definition url_path (u : text) : option text :=
  let rest :=
    match Py.strip_prefix (txt "http://") u with
    | Some r => from_slash r
    | None =>
        match Py.strip_prefix (txt "https://") u with
        | Some r => from_slash r
        | None => u
        end
    end in
  Some (cut_at (fun c => (c =? ch "?") || (c =? ch "#"))%N rest).

(** The MD5 digests of the URLs of the examples. *)
Definition md5 (u : text) : text :=
  if decide (u = txt "http://x/assets/photo")
  then txt "beb65741bb3b29ebee19a0101e409dfa"
  else if decide (u = txt "http://x/logo")
  then txt "1f2b05b80c133b768a02a07ff6c3740e"
  else txt "d41d8cd98f00b204e9800998ecf8427e".

Definition png : response :=
  Response true (Some (txt "image/png")) [txt "PNG"; txt "DATA"] true.
Definition svg : response :=
  Response true (Some (txt "image/svg+xml")) [txt "<svg/>"] true.

(** A server [x] that has [a.png], [b.jpg], [c.gif] and the SVG image
    [logo]; every other request fails. *)
Definition http (n : nat) (u : text) : option response :=
  if decide (u = txt "http://x/a.png") then Some png
  else if decide (u = txt "http://x/b.jpg") then Some png
  else if decide (u = txt "http://x/c.gif") then Some png
  else if decide (u = txt "http://x/logo") then Some svg
  else None.

Definition env (listing : list text) : Env :=
  {| urlparse_path := url_path;
     urljoin := fun b u => Some (b ++ u);
     md5_hexdigest := md5;
     http_get := http;
     can_write := fun _ => true;
     can_makedirs := fun _ => true;
     glob_source_markdowns := listing;
     isfile := fun _ => true;
     cwd := txt "/repo" |}.

Definition downloader : Downloader :=
  {| markdown_file := txt "source_markdowns/doc.md";
     output_dir := txt "images/doc";
     base_url := None;
     downloaded_images := ∅ |}.

(** A world whose only file is [source_markdowns/doc.md]. *)
Definition with_doc (content : text) : world :=
  World {[ txt "source_markdowns/doc.md" := content ]} [].

End Sample.

(** ** Whether a call of [download_image] succeeds

    [download_image] returns [True] exactly when the URL resolves, the
    request is answered, the status is a success, the target can be opened for writing and the
    body streams to its end.  None of this depends on the files. *)
Definition fetch_ok (env : Env) (self : Downloader) (n : nat)
    (url filename : text) : bool :=
  match resolved_url env self url with
  | Some resolved =>
      match http_get env n resolved with
      | Some resp =>
          status_ok resp &&
          can_write env (svg_filename resp resolved filename) &&
          stream_ok resp
      | None => false
      end
  | None => false
  end.

(** ** Self-closing tags *)

(** A self-closing image tag with [src] value [u]: [a] stands for what is
    between [<img] and [src=], [b] for what is between the closing quote of
    the value and [/>]. *)
Definition self_closing_tag (a u b : text) : text :=
  txt "<img" ++ a ++ src_eq_quote ++ u ++ [dq] ++ b ++ txt "/>".

(** The matcher of the part the extractor's two tag patterns share, from
    [<img] to the closing quote of the value; [k] is the matcher of what the
    pattern has after it. *)
Definition img_src (k : cont) : cont :=
  lit (txt "<img")
    (greedy_plus not_gt
       (lit src_eq_quote
          (gopen (greedy_plus not_quote_gt (gclose (lit [dq] k)))))).

(** What [self_closing_pattern] has after the closing quote. *)
Definition to_slash_gt : cont := greedy_star not_gt (lit (txt "/>") accept).

(** ** Documents as sequences of occurrences

    An occurrence of a reference is an inline link or a tag; a document is
    written here as a first stretch of text followed by occurrences, each
    with the text that follows it. *)











(** ** More worlds for the examples *)

Module Worlds.

(** The world of [Sample] with another network. *)
Definition with_http (http : nat -> text -> option response)
    (listing : list text) : Env :=
  {| urlparse_path := Sample.url_path;
     urljoin := fun b u => Some (b ++ u);
     md5_hexdigest := Sample.md5;
     http_get := http;
     can_write := fun _ => true;
     can_makedirs := fun _ => true;
     glob_source_markdowns := listing;
     isfile := fun _ => true;
     cwd := txt "/repo" |}.

(** An [urlparse] that, like the real one, raises on a host that opens a
    bracket and does not close it (as in [http://[]). *)
Definition strict_url_path (u : text) : option text :=
  if Py.contains (txt "://[") u && negb (Py.contains (txt "]") u)
  then None else Sample.url_path u.

(** The world of [Sample] with that [urlparse] and a network that answers
    nothing. *)
Definition offline (listing : list text) : Env :=
  {| urlparse_path := strict_url_path;
     urljoin := fun b u => Some (b ++ u);
     md5_hexdigest := Sample.md5;
     http_get := fun _ _ => None;
     can_write := fun _ => true;
     can_makedirs := fun _ => true;
     glob_source_markdowns := listing;
     isfile := fun _ => true;
     cwd := txt "/repo" |}.

(** A response whose body breaks off after one chunk. *)
Definition cut_off : response :=
  Response true (Some (txt "image/png")) [txt "PNG"] false.

(** A server whose [big.png] never arrives whole. *)
Definition flaky (n : nat) (u : text) : option response :=
  if decide (u = txt "http://x/big.png") then Some cut_off
  else Sample.http n u.

End Worlds.

(** * Properties *)

Ltac unfold_m :=
  unfold mbind, M_bind, mret, M_ret, bind, ret, raise, try_except in *.

(** ** Text files *)

Section TextFiles.

Import Codec.

Lemma encode_two (b0 b1 : N) :
  (194 <= b0 <= 223)%N -> (128 <= b1 <= 191)%N ->
  encode_char ((b0 - 192) * 64 + (b1 - 128)) = Some [b0; b1].
Proof.
  intros H0 H1. unfold encode_char.
  destruct (N.ltb_spec ((b0 - 192) * 64 + (b1 - 128)) 128); [lia|].
  destruct (N.ltb_spec ((b0 - 192) * 64 + (b1 - 128)) 2048); [|lia].
  f_equal. f_equal; [|f_equal].
  - rewrite <- (N.div_unique _ 64 (b0 - 192) (b1 - 128)); lia.
  - rewrite <- (N.mod_unique _ 64 (b0 - 192) (b1 - 128)); lia.
Qed.

Lemma encode_three (b0 b1 b2 : N) :
  (224 <= b0 <= 239)%N -> second_of_three b0 b1 = true ->
  (128 <= b2 <= 191)%N ->
  encode_char ((b0 - 224) * 4096 + (b1 - 128) * 64 + (b2 - 128))
  = Some [b0; b1; b2].
Proof.
  intros H0 H1 H2.
  assert ((128 <= b1 <= 191) /\ (b0 = 224 -> 160 <= b1) /\
          (b0 = 237 -> b1 <= 159))%N as (Hb1 & Hlow & Hsur).
  { unfold second_of_three, continuation in H1.
    destruct (N.eqb_spec b0 224);
      [apply andb_true_iff in H1; rewrite !N.leb_le in H1; lia|].
    destruct (N.eqb_spec b0 237);
      apply andb_true_iff in H1; rewrite !N.leb_le in H1; lia. }
  set (c := ((b0 - 224) * 4096 + (b1 - 128) * 64 + (b2 - 128))%N).
  assert (2048 <= c < 65536)%N as Hc
    by (unfold c; destruct (N.eq_dec b0 224%N); lia).
  assert (~ (55296 <= c <= 57343))%N as Hs
    by (unfold c; destruct (N.lt_trichotomy b0 237%N) as [?|[?|?]]; lia).
  unfold encode_char.
  destruct (N.ltb_spec c 128); [lia|].
  destruct (N.ltb_spec c 2048); [lia|].
  destruct (N.ltb_spec c 65536); [|lia].
  destruct (N.leb_spec 55296 c), (N.leb_spec c 57343); try lia; cbn [andb].
  all: assert (c / 64 = (b0 - 224) * 64 + (b1 - 128))%N as Hq
    by (symmetry; apply (N.div_unique _ 64 _ (b2 - 128)); unfold c; lia).
  all: f_equal; f_equal; [|f_equal; [|f_equal]].
  all: try (rewrite <- (N.div_unique c 4096 (b0 - 224)
                          ((b1 - 128) * 64 + (b2 - 128))); unfold c; lia).
  all: try (rewrite Hq;
            rewrite <- (N.mod_unique _ 64 (b0 - 224) (b1 - 128)); lia).
  all: rewrite <- (N.mod_unique c 64 ((b0 - 224) * 64 + (b1 - 128)) (b2 - 128));
    unfold c; lia.
Qed.

Lemma encode_four (b0 b1 b2 b3 : N) :
  (240 <= b0 <= 244)%N -> second_of_four b0 b1 = true ->
  (128 <= b2 <= 191)%N -> (128 <= b3 <= 191)%N ->
  encode_char ((b0 - 240) * 262144 + (b1 - 128) * 4096 + (b2 - 128) * 64
               + (b3 - 128))
  = Some [b0; b1; b2; b3].
Proof.
  intros H0 H1 H2 H3.
  assert ((128 <= b1 <= 191) /\ (b0 = 240 -> 144 <= b1) /\
          (b0 = 244 -> b1 <= 143))%N as (Hb1 & Hlow & Hhigh).
  { unfold second_of_four, continuation in H1.
    destruct (N.eqb_spec b0 240);
      [apply andb_true_iff in H1; rewrite !N.leb_le in H1; lia|].
    destruct (N.eqb_spec b0 244);
      apply andb_true_iff in H1; rewrite !N.leb_le in H1; lia. }
  set (c := ((b0 - 240) * 262144 + (b1 - 128) * 4096 + (b2 - 128) * 64
             + (b3 - 128))%N).
  assert (65536 <= c < 1114112)%N as Hc
    by (unfold c; destruct (N.eq_dec b0 240%N); destruct (N.eq_dec b0 244%N); lia).
  unfold encode_char.
  destruct (N.ltb_spec c 128); [lia|].
  destruct (N.ltb_spec c 2048); [lia|].
  destruct (N.ltb_spec c 65536); [lia|].
  destruct (N.ltb_spec c 1114112); [|lia].
  assert (c / 64 = (b0 - 240) * 4096 + (b1 - 128) * 64 + (b2 - 128))%N as Hq
    by (symmetry; apply (N.div_unique _ 64 _ (b3 - 128)); unfold c; lia).
  assert (c / 4096 = (b0 - 240) * 64 + (b1 - 128))%N as Hq2
    by (symmetry;
        apply (N.div_unique _ 4096 _ ((b2 - 128) * 64 + (b3 - 128)));
        unfold c; lia).
  f_equal; f_equal; [|f_equal; [|f_equal; [|f_equal]]].
  - rewrite <- (N.div_unique c 262144 (b0 - 240)
                  ((b1 - 128) * 4096 + (b2 - 128) * 64 + (b3 - 128)));
      unfold c; lia.
  - rewrite Hq2. rewrite <- (N.mod_unique _ 64 (b0 - 240) (b1 - 128)); lia.
  - rewrite Hq.
    rewrite <- (N.mod_unique _ 64 ((b0 - 240) * 64 + (b1 - 128)) (b2 - 128));
      lia.
  - rewrite <- (N.mod_unique c 64
                  ((b0 - 240) * 4096 + (b1 - 128) * 64 + (b2 - 128))
                  (b3 - 128)); unfold c; lia.
Qed.

Lemma continuation_range (b : N) :
  continuation b = true -> (128 <= b <= 191)%N.
Proof.
  unfold continuation. intros H%andb_true_iff. rewrite !N.leb_le in H. lia.
Qed.

(** Decoding is undone by encoding: a file that can be read as text is the
    encoding of that text. *)
Lemma decode_encode (bs : list N) :
  forall s, decode bs = Some s -> encode s = Some bs.
Proof.
  remember (length bs) as n eqn:Hn. revert bs Hn.
  induction n as [n IH] using lt_wf_ind. intros bs Hn s H.
  destruct bs as [|b0 r0]; [by injection H as <-|].
  cbn [decode] in H.
  destruct (N.ltb_spec b0 128) as [Hlt|Hge].
  { destruct (decode r0) as [s0|] eqn:E; [|done]. injection H as <-.
    cbn [encode]. unfold encode_char.
    destruct (N.ltb_spec b0 128); [|lia].
    rewrite (IH (length r0)) with (bs := r0) (s := s0); subst; cbn; (done || lia). }
  destruct r0 as [|b1 r1]; [done|].
  destruct ((194 <=? b0) && (b0 <=? 223))%N eqn:H2.
  { destruct (continuation b1) eqn:Hc1; [|done].
    destruct (decode r1) as [s1|] eqn:E; [|done]. injection H as <-.
    cbn [encode]. rewrite encode_two;
      [|apply andb_true_iff in H2; rewrite !N.leb_le in H2; lia
       |by apply continuation_range].
    rewrite (IH (length r1)) with (bs := r1) (s := s1); subst; cbn; (done || lia). }
  destruct r1 as [|b2 r2]; [done|].
  destruct ((224 <=? b0) && (b0 <=? 239))%N eqn:H3.
  { destruct (second_of_three b0 b1) eqn:Hs; [|done].
    destruct (continuation b2) eqn:Hc2; [|done]. cbn [andb] in H.
    destruct (decode r2) as [s2|] eqn:E; [|done]. injection H as <-.
    cbn [encode]. rewrite encode_three;
      [|apply andb_true_iff in H3; rewrite !N.leb_le in H3; lia|done
       |by apply continuation_range].
    rewrite (IH (length r2)) with (bs := r2) (s := s2); subst; cbn; (done || lia). }
  destruct r2 as [|b3 r3]; [done|].
  destruct ((240 <=? b0) && (b0 <=? 244))%N eqn:H4; [|done].
  destruct (second_of_four b0 b1) eqn:Hs; [|done].
  destruct (continuation b2) eqn:Hc2; [|done].
  destruct (continuation b3) eqn:Hc3; [|done]. cbn [andb] in H.
  destruct (decode r3) as [s3|] eqn:E; [|done]. injection H as <-.
  cbn [encode]. rewrite encode_four;
    [|apply andb_true_iff in H4; rewrite !N.leb_le in H4; lia|done
     |by apply continuation_range
     |by apply continuation_range].
  rewrite (IH (length r3)) with (bs := r3) (s := s3); subst; cbn; (done || lia).
Qed.

Lemma encode_char_scalar (c : N) :
  scalar c = true <-> is_Some (Codec.encode_char c).
Proof.
  unfold scalar, Codec.encode_char.
  destruct (N.ltb_spec c 128), (N.ltb_spec c 2048), (N.ltb_spec c 65536),
    (N.ltb_spec c 1114112), (N.ltb_spec c 55296), (N.ltb_spec 57343 c),
    (N.leb_spec 55296 c), (N.leb_spec c 57343);
    cbn; split; intros Hx; try done; try lia; try (by eexists);
    by destruct Hx.
Qed.

Lemma encode_Forall (s : text) :
  is_Some (encode s) <-> Forall (fun c => scalar c = true) s.
Proof.
  induction s as [|c s IH]; cbn [encode].
  - split; [by constructor|by eexists].
  - split.
    + intros [bs H]. destruct (encode_char c) eqn:Hc; [|done].
      destruct (encode s) eqn:Hs; [|done].
      constructor; [apply encode_char_scalar; by rewrite Hc|].
      apply IH. by eexists.
    + intros H. inversion H as [|? ? Hc Hs]; subst.
      apply encode_char_scalar in Hc as [a ->].
      apply IH in Hs as [b ->]. by eexists.
Qed.

Lemma decode_scalar (bs : list N) (s : text) :
  decode bs = Some s -> Forall (fun c => scalar c = true) s.
Proof. intros H%decode_encode. apply encode_Forall. by eexists. Qed.

Lemma universal_newlines_Forall (P : N -> Prop) (s : text) :
  P 10%N -> Forall P s -> Forall P (universal_newlines s).
Proof.
  intros H10. remember (length s) as n eqn:Hn. revert s Hn.
  induction n as [n IH] using lt_wf_ind. intros s Hn Hs.
  destruct s as [|c r]; [done|]. cbn [universal_newlines].
  inversion Hs as [|? ? Hc Hr]; subst.
  destruct (c =? 13)%N.
  - destruct r as [|c' r']; [by repeat constructor|].
    inversion Hr; subst.
    destruct (c' =? 10)%N; constructor; try done;
      eapply IH; try done; cbn; lia.
  - constructor; [done|]. eapply IH; try done. cbn; lia.
Qed.

Lemma universal_newlines_id (s : text) :
  13%N ∉ s -> universal_newlines s = s.
Proof.
  induction s as [|c r IH]; [done|].
  intros [Hc Hr]%not_elem_of_cons. cbn [universal_newlines].
  destruct (N.eqb_spec c 13); [done|]. by rewrite IH.
Qed.

(** An ASCII character of the text is a byte of the file. *)
Lemma encode_ascii_elem (s : text) (bs : list N) (c : N) :
  encode s = Some bs -> (c < 128)%N -> c ∈ s -> c ∈ bs.
Proof.
  revert bs; induction s as [|x s IH]; intros bs H Hc Hin;
    [by apply elem_of_nil in Hin|].
  cbn [encode] in H. destruct (encode_char x) as [a|] eqn:Hx; [|done].
  destruct (encode s) as [b|] eqn:Hs; [|done]. injection H as <-.
  apply elem_of_app. apply elem_of_cons in Hin as [->|Hin].
  - left. unfold encode_char in Hx.
    destruct (N.ltb_spec x 128); [|lia]. injection Hx as <-. by left.
  - right. by apply IH.
Qed.

Lemma read_text_file (w : world) (path content : text) :
  read_text w path = Some content ->
  read_file path w = (Done content, w).
Proof.
  unfold read_text, read_file.
  destruct (files w !! path) as [bs|]; [|done]. cbn.
  by intros ->.
Qed.

(** Reading depends on the file read only. *)
Lemma read_text_frame (w w' : world) (path : text) :
  files w' !! path = files w !! path -> read_text w' path = read_text w path.
Proof. unfold read_text. by intros ->. Qed.

(** What is read from a file is text that can be written again. *)
Lemma read_text_scalar (w : world) (path content : text) :
  read_text w path = Some content ->
  Forall (fun c => scalar c = true) content.
Proof.
  unfold read_text, text_of_bytes.
  destruct (files w !! path) as [bs|]; [|done]. cbn.
  destruct (decode bs) as [s|] eqn:E; [|done]. cbn. intros [= <-].
  apply universal_newlines_Forall; [done|by eapply decode_scalar].
Qed.

End TextFiles.

(** ** Python strings *)

Section PyFacts.

Lemma strip_prefix_app (l s : text) : Py.strip_prefix l (l ++ s) = Some s.
Proof.
  induction l as [|a l IH]; simpl; [done|].
  by rewrite N.eqb_refl.
Qed.

Lemma strip_prefix_Some (l s r : text) :
  Py.strip_prefix l s = Some r -> s = l ++ r.
Proof.
  revert s; induction l as [|a l IH]; intros s H; simpl in *.
  - by inversion H.
  - destruct s as [|b s]; [done|].
    destruct (N.eqb_spec a b) as [->|]; [|done].
    by rewrite (IH _ H).
Qed.

Lemma startswith_app (l s : text) : Py.startswith (l ++ s) l = true.
Proof. unfold Py.startswith. by rewrite strip_prefix_app. Qed.

Lemma endswith_app (s l : text) : Py.endswith (s ++ l) l = true.
Proof. unfold Py.endswith. rewrite rev_app_distr. apply startswith_app. Qed.

Lemma basename_truthy (p : text) : Py.basename p ≠ [] -> Py.truthy p = true.
Proof. by destruct p. Qed.

End PyFacts.

(** The library functions on the values Python gives. *)
Example replace_occurrences :
  Py.replace (txt "aaa") (txt "aa") (txt "b") = txt "ba" /\
  Py.replace (txt "abc") [] (txt "-") = txt "-a-b-c-".
Proof. split; reflexivity. Qed.

Example strip_blank :
  Py.strip (txt "  a b ") = txt "a b" /\ Py.strip (txt " ") = [].
Proof. split; reflexivity. Qed.

Example basename_of_paths :
  Py.basename (txt "/assets/photo") = txt "photo" /\
  Py.basename (txt "/a/b/") = [] /\
  Py.basename (txt "a.png") = txt "a.png".
Proof. repeat split; reflexivity. Qed.

Example path_join_of_paths :
  Py.path_join (txt "images/doc") (txt "a.png") = txt "images/doc/a.png" /\
  Py.path_join [] (txt "a") = txt "a" /\
  Py.path_join (txt "a/") (txt "b") = txt "a/b".
Proof. repeat split; reflexivity. Qed.

Example splitext_of_paths :
  Py.splitext_root (txt "source_markdowns/a.b.md")
  = txt "source_markdowns/a.b" /\
  Py.splitext_root (txt "a/.b.c/..d") = txt "a/.b.c/..d" /\
  Py.splitext_root (txt "x/...") = txt "x/...".
Proof. repeat split; reflexivity. Qed.

Example str_of_indices : str_of_nat 0 = txt "0" /\ str_of_nat 12 = txt "12".
Proof. split; reflexivity. Qed.

(** The extractor on a small document: the self-closing tag is found by
    two patterns. *)
Example extraction :
  image_urls_of (qtxt "![a](http://x/a.png) <img src='b.jpg'> <img alt='c' src='c.gif' />")
  = [txt "http://x/a.png"; txt "b.jpg"; txt "c.gif"; txt "c.gif"].
Proof. reflexivity. Qed.

(** Corner cases, as Python's [re] treats them: an inline link opened
    inside the alt text of another, a line break between the brackets and
    the parenthesis, a tag opened inside another, and a tag that is never
    closed, which the extractor finds and the rewriter does not. *)
Example extraction_corner_cases :
  image_urls_of (txt "![x ![a](R1)") = [txt "R1"] /\
  image_urls_of (txt "![a]" ++ [ch "010"] ++ txt "(b)") = [] /\
  image_urls_of (qtxt "<img src='a' <img src='b'>") = [txt "b"] /\
  image_urls_of (qtxt "<img src='u'") = [txt "u"] /\
  rewrite_content {[ txt "u" := txt "p" ]} (qtxt "<img src='u'")
  = qtxt "<img src='u'".
Proof. repeat split; reflexivity. Qed.


(** ** The fetcher *)

Section Fetcher.

Context (env : Env) (self : Downloader).

Lemma write_chunks_spec (path : text) (cs : list text) (c0 : text)
    (w : world) :
  files w !! path = Some c0 ->
  write_chunks path cs w =
  (Done tt, World (<[path := c0 ++ concat cs]> (files w)) (calls w)).
Proof.
  revert w c0; induction cs as [|c cs IH]; intros w c0 Hw; simpl.
  - rewrite app_nil_r, insert_id by done. by destruct w.
  - unfold_m. unfold append_file at 1.
    rewrite (IH _ (c0 ++ c)); simpl.
    + by rewrite insert_insert_eq, <- app_assoc.
    + by rewrite lookup_insert_eq, Hw.
Qed.

(** What [download_image] does, by cases: it always returns, with
    [fetch_ok] as its result, and records its call. *)
Lemma download_image_spec (url filename : text) (w : world) :
  exists fs,
    download_image env self url filename w =
    (Done (fetch_ok env self (length (calls w)) url filename),
     World fs (calls w ++ [(url, filename)])) /\
    (fetch_ok env self (length (calls w)) url filename = true ->
     exists resolved resp,
       resolved_url env self url = Some resolved /\
       http_get env (length (calls w)) resolved = Some resp /\
       fs = <[svg_filename resp resolved filename := concat (chunks resp)]>
              (files w)).
Proof.
  unfold download_image, download_image_try, fetch_ok. unfold_m.
  unfold log_call. simpl.
  destruct (resolved_url env self url) as [resolved|];
    [|eexists; split; [done|done]].
  destruct (http_get env (length (calls w)) resolved)
    as [resp|] eqn:Hget; [|eexists; split; [done|done]].
  destruct (status_ok resp); simpl; [|eexists; split; [done|done]].
  unfold open_write.
  destruct (can_write env _); simpl; [|eexists; split; [done|done]].
  unfold_m. unfold put_file. simpl.
  rewrite (write_chunks_spec _ _ []) by (simpl; apply lookup_insert_eq).
  simpl. rewrite insert_insert_eq.
  destruct (stream_ok resp); simpl; eexists; (split; [done|]); [|done].
  intros _. by exists resolved, resp.
Qed.

End Fetcher.

(** C9. SVG extension correction: when [download_image] succeeds and the
    response's content type contains [svg], or the resolved URL ends in
    [.svg], the file written has a path ending in [.svg]: the target name
    itself when it ends in [.svg] already, the target name with [.svg]
    appended otherwise.  The file holds the whole body. *)
Theorem svg_extension_correction (env : Env) (self : Downloader)
    (url filename resolved : text) (w w' : world) (resp : response) :
  download_image env self url filename w = (Done true, w') ->
  resolved_url env self url = Some resolved ->
  http_get env (length (calls w)) resolved = Some resp ->
  Py.contains (txt "svg") (default [] (content_type resp)) = true \/
  Py.endswith resolved (txt ".svg") = true ->
  exists path,
    Py.endswith path (txt ".svg") = true /\
    (path = filename \/ path = filename ++ txt ".svg") /\
    files w' = <[path := concat (chunks resp)]> (files w).
Proof.
  intros Hrun Hurl Hresp Hsvg.
  destruct (download_image_spec env self url filename w) as (fs & Heq & Hfs).
  rewrite Heq in Hrun. injection Hrun as Hok Hw'. subst w'.
  destruct (Hfs Hok) as (resolved' & resp' & Hurl' & Hresp' & ->).
  rewrite Hurl in Hurl'. injection Hurl' as <-.
  rewrite Hresp in Hresp'. injection Hresp' as <-.
  exists (svg_filename resp resolved filename).
  split; [|split; [|done]]; unfold svg_filename.
  - replace (_ || _) with true by (destruct Hsvg as [-> | ->]; by rewrite ?orb_true_r).
    destruct (Py.endswith filename (txt ".svg")) eqn:E; simpl; [done|].
    apply endswith_app.
  - destruct (_ || _); [|by left].
    destruct (negb _); [by right|by left].
Qed.

Lemma svg_extension_correction_witness :
  exists path,
    Py.endswith path (txt ".svg") = true /\
    (path = txt "images/doc/image_1f2b05b8.png" \/
     path = txt "images/doc/image_1f2b05b8.png" ++ txt ".svg") /\
    files (snd (download_image (Sample.env []) Sample.downloader
                  (txt "http://x/logo") (txt "images/doc/image_1f2b05b8.png")
                  (World ∅ []))) =
    <[path := concat (chunks Sample.svg)]> (files (World ∅ [])).
Proof.
  apply (svg_extension_correction (Sample.env []) Sample.downloader
           (txt "http://x/logo") (txt "images/doc/image_1f2b05b8.png")
           (txt "http://x/logo") (World ∅ []) _ Sample.svg).
  - vm_compute. reflexivity.
  - vm_compute. reflexivity.
  - vm_compute. reflexivity.
  - left. vm_compute. reflexivity.
Defined.

(** ** The filename deriver *)

(** C8. Filename derivation for references without an extension: when the
    path of the URL has a non-empty last segment with no dot in it,
    [generate_local_filename] returns the output directory joined with
    [image_<h>.png], [<h>] being the first 8 characters of the hexadecimal
    digest of the whole URL.  Neither the index nor the state of the world
    enters the result, so the same URL gets the same name in every run. *)
Theorem generate_local_filename_hashed (env : Env) (self : Downloader)
    (url path : text) (index : nat) (w : world) :
  urlparse_path env url = Some path ->
  Py.basename path <> [] ->
  Py.contains (txt ".") (Py.basename path) = false ->
  generate_local_filename env self url index w =
  (Done (Py.path_join (output_dir self)
           (txt "image_" ++ take 8 (md5_hexdigest env url) ++ txt ".png")),
   w).
Proof.
  intros Hpath Hne Hdot. unfold generate_local_filename.
  rewrite Hpath, (basename_truthy _ Hne), Hdot. reflexivity.
Qed.

Lemma generate_local_filename_hashed_witness :
  generate_local_filename (Sample.env []) Sample.downloader
    (txt "http://x/assets/photo") 3 (World ∅ []) =
  (Done (txt "images/doc/image_beb65741.png"), World ∅ []).
Proof.
  apply (generate_local_filename_hashed (Sample.env []) Sample.downloader
           (txt "http://x/assets/photo") (txt "/assets/photo") 3 (World ∅ [])).
  - vm_compute. reflexivity.
  - vm_compute. discriminate.
  - vm_compute. reflexivity.
Defined.

(** C4. The path recorded is not always the path written.  For the document
    [![logo](http://x/logo)] and a server that answers with an SVG image,
    [download_image] writes [images/doc/image_1f2b05b8.png.svg] and returns
    [True]; [download_all_images] records the requested
    [images/doc/image_1f2b05b8.png], a file that does not exist. *)
Theorem recorded_path_is_not_the_file_written :
  exists self' w',
    download_all_images (Sample.env []) Sample.downloader
      (Sample.with_doc (txt "![logo](http://x/logo)")) = (Done self', w') /\
    downloaded_images self' !! txt "http://x/logo" =
      Some (txt "images/doc/image_1f2b05b8.png") /\
    files w' !! txt "images/doc/image_1f2b05b8.png" = None /\
    files w' !! txt "images/doc/image_1f2b05b8.png.svg" = Some (txt "<svg/>").
Proof.
  eexists _, _. split; [vm_compute; reflexivity|].
  repeat split; vm_compute; reflexivity.
Qed.

(** ** Scanning and substituting *)

Section ScanFacts.

Context (pat : pattern).

(** The pieces of a scan, put back together, are the text scanned. *)
Lemma scan_text (s : text) (skip : nat) :
  concat (map piece_text (scan pat s skip)) = drop skip s.
Proof.
  revert skip; induction s as [|c s IH]; intros skip; simpl.
  - by destruct skip.
  - destruct skip as [|k]; simpl; [|apply IH].
    destruct (match_at pat (c :: s)) as [[[|n] spans]|]; simpl;
      rewrite IH; simpl; try done.
    by rewrite take_drop.
Qed.

(** A substitution that gives every match back as it is changes nothing. *)
Lemma sub_unchanged (repl : text -> list text -> text) (s : text) :
  (forall whole gs, Hit whole gs ∈ finditer pat s -> repl whole gs = whole) ->
  sub pat repl s = s.
Proof.
  intros H. unfold sub. rewrite flat_map_concat_map.
  rewrite <- (scan_text s 0) at 2. f_equal. fold (finditer pat s).
  apply map_ext_in. intros [c|whole gs] Hin; simpl; [done|].
  apply H. by apply list_elem_of_In.
Qed.

End ScanFacts.

(** ** The rewriter *)

(** Rewriting leaves a text as it is when no reference the two patterns find
    in it is recorded. *)
Lemma rewrite_unrecorded (d : gmap (list N) (list N)) (content : text) :
  (forall whole gs,
     Hit whole gs ∈ finditer markdown_sub_pattern content ->
     d !! group 2 gs = None) ->
  (forall whole gs,
     Hit whole gs ∈ finditer html_sub_pattern content ->
     d !! group 1 gs = None) ->
  rewrite_content d content = content.
Proof.
  intros Hmd Hhtml. unfold rewrite_content.
  assert (markdown_pass d content = content) as ->.
  { apply sub_unchanged. intros whole gs Hin. unfold markdown_replacer.
    by rewrite (Hmd _ _ Hin). }
  apply sub_unchanged. intros whole gs Hin. unfold html_replacer.
  by rewrite (Hhtml _ _ Hin).
Qed.

(** C6. Rewriting with no download recorded returns the text as it is. *)
Theorem rewrite_empty_identity (content : text) :
  rewrite_content ∅ content = content.
Proof.
  apply rewrite_unrecorded; intros; apply lookup_empty.
Qed.

(** C3. The tag rewriter changes more than the [src] value: with a download
    recorded for [http://x/b.jpg], the tag
    [<img src="http://x/b.jpg" alt="http://x/b.jpg">] gets the local path in
    its [alt] attribute too, since [html_replacer] replaces the URL wherever
    it occurs in the tag. *)
Theorem html_replacer_rewrites_other_attributes :
  rewrite_content {[ txt "http://x/b.jpg" := txt "images/doc/b.jpg" ]}
    (qtxt "<img src='http://x/b.jpg' alt='http://x/b.jpg'>") =
  qtxt "<img src='images/doc/b.jpg' alt='images/doc/b.jpg'>".
Proof. vm_compute. reflexivity. Qed.

(** The specification's own examples of the rewriter. *)
Example rewrite_inline_link :
  rewrite_content {[ txt "http://x/a.png" := txt "images/doc/a.png" ]}
    (txt "![cat](http://x/a.png)") = txt "![cat](images/doc/a.png)".
Proof. vm_compute. reflexivity. Qed.

Example rewrite_tag :
  rewrite_content {[ txt "http://x/b.jpg" := txt "images/doc/b.jpg" ]}
    (qtxt "<img src='http://x/b.jpg' alt='b'>") =
  qtxt "<img src='images/doc/b.jpg' alt='b'>".
Proof. vm_compute. reflexivity. Qed.


(** The same with plain paths, through [html_replacer]'s replacement of the
    URL everywhere in the tag, which here turns another attribute into a
    [src]. *)
Example tag_rewritten_twice_differs :
  let d : gmap (list N) (list N) :=
    {[ txt "x" := txt "s"; txt "k" := txt "w" ]} in
  let content := qtxt "<img src='x' xrc='k'>" in
  rewrite_content d content = qtxt "<img src='s' src='k'>" /\
  rewrite_content d (rewrite_content d content) = qtxt "<img src='s' src='w'>".
Proof. split; vm_compute; reflexivity. Qed.

(** Membership in a list that computes to a few elements, by cases. *)
Ltac list_cases H :=
  match type of H with
  | _ ∈ ?l =>
      let l' := eval vm_compute in l in
      replace l with l' in H by (vm_compute; reflexivity);
      repeat (apply elem_of_cons in H as [H|H];
              [try discriminate H; try (injection H as ? ?; subst)|]);
      try (by apply elem_of_nil in H)
  end.

(** ** The batch driver *)

Section Batch.

Context (env : Env).

Lemma for_each_app (before after : list text) (w : world) :
  for_each env (before ++ after) w =
  match for_each env before w with
  | (Done _, w1) => for_each env after w1
  | (Raised e, w1) => (Raised e, w1)
  end.
Proof.
  revert w; induction before as [|p before IH]; intros w; simpl; [done|].
  unfold_m. destruct (process env p w) as [[[]|e] w1]; [apply IH|done].
Qed.

(** A document whose source cannot be opened makes [process] raise, with
    nothing done. *)
Lemma process_unreadable (path : text) (w : world) :
  can_makedirs env (images_dir_of path) = true ->
  files w !! source_of path = None ->
  process env path w = (Raised (FileNotFoundError (source_of path)), w).
Proof.
  intros Hdir Hfile. unfold process, init, makedirs. rewrite Hdir.
  unfold download_all_images, extract_image_urls, read_file. unfold_m.
  simpl. by rewrite Hfile.
Qed.

End Batch.

(** C2, as stated, fails.  The listing has two documents.  The first has a
    space in its name, so [main] opens it under another name,
    [source_markdowns/a_b.md], and there is no such file; the second is
    readable.  [main] raises at the first and the second is never
    processed: the world is left as it was, without [output/c_preprocessed.md]. *)
Lemma unreadable_document_aborts_batch :
  let env := Sample.env [txt "source_markdowns/a b.md";
                         txt "source_markdowns/c.md"] in
  let w := World {[ txt "source_markdowns/a b.md" := txt "![a](http://x/a.png)";
                    txt "source_markdowns/c.md" := txt "![c](http://x/c.gif)" ]}
                 [] in
  find_markdown_files env =
    [txt "/repo/source_markdowns/a b.md"; txt "/repo/source_markdowns/c.md"] /\
  files w !! source_of (txt "/repo/source_markdowns/c.md") =
    Some (txt "![c](http://x/c.gif)") /\
  main env w = (Raised (FileNotFoundError (txt "source_markdowns/a_b.md")), w) /\
  files w !! output_of (txt "/repo/source_markdowns/c.md") = None.
Proof. repeat split; vm_compute; reflexivity. Qed.

(** C2, amended. A source document that cannot be opened stops the batch:
    [FileNotFoundError] leaves [main], the documents listed before it have
    been processed, and the world stays as they left it, so no document
    listed after it is processed. *)
Theorem main_stops_at_unreadable_document (env : Env) (w w1 : world)
    (before after : list text) (path : text) :
  find_markdown_files env = before ++ path :: after ->
  for_each env before w = (Done tt, w1) ->
  can_makedirs env (images_dir_of path) = true ->
  files w1 !! source_of path = None ->
  main env w = (Raised (FileNotFoundError (source_of path)), w1).
Proof.
  intros Hlist Hbefore Hdir Hfile. unfold main.
  rewrite Hlist, for_each_app, Hbefore. simpl. unfold_m.
  by rewrite process_unreadable.
Qed.

Lemma main_stops_at_unreadable_document_witness :
  let env := Sample.env [txt "source_markdowns/doc.md";
                         txt "source_markdowns/a b.md";
                         txt "source_markdowns/c.md"] in
  let w := World {[ txt "source_markdowns/doc.md" := txt "![cat](http://x/a.png)";
                    txt "source_markdowns/a b.md" := txt "![a](http://x/a.png)";
                    txt "source_markdowns/c.md" := txt "![c](http://x/c.gif)" ]}
                 [] in
  main env w =
  (Raised (FileNotFoundError (txt "source_markdowns/a_b.md")),
   snd (for_each env [txt "/repo/source_markdowns/doc.md"] w)).
Proof.
  intros env w.
  apply (main_stops_at_unreadable_document env w
           (snd (for_each env [txt "/repo/source_markdowns/doc.md"] w))
           [txt "/repo/source_markdowns/doc.md"]
           [txt "/repo/source_markdowns/c.md"]
           (txt "/repo/source_markdowns/a b.md")).
  - vm_compute. reflexivity.
  - vm_compute. reflexivity.
  - vm_compute. reflexivity.
  - vm_compute. reflexivity.
Defined.

(** ** The download loop *)

Section Loop.

Context (env : Env) (self : Downloader).

Lemma truthy_false (s : text) : Py.truthy s = false -> s = [].
Proof. by destruct s. Qed.

Lemma generate_local_filename_pure (url : text) (i : nat) (w : world) :
  snd (generate_local_filename env self url i w) = w.
Proof.
  unfold generate_local_filename.
  by destruct (urlparse_path env url).
Qed.

(** One turn of the loop for a reference that is not blank, has a local
    name and is not recorded yet: it is fetched, and recorded if the fetch
    succeeded. *)
Lemma download_loop_fetch (url local_path : text) (rest : list text)
    (i : nat) (d : gmap (list N) (list N)) (w : world) :
  Py.truthy (Py.strip url) = true ->
  generate_local_filename env self url i w = (Done local_path, w) ->
  d !! url = None ->
  exists fs,
    download_loop env self i (url :: rest) d w =
    download_loop env self (S i) rest
      (if fetch_ok env self (length (calls w)) url local_path
       then <[url := local_path]> d else d)
      (World fs (calls w ++ [(url, local_path)])).
Proof.
  intros Hblank Hname Hd. simpl. rewrite Hblank. simpl. unfold_m.
  rewrite Hname, Hd.
  destruct (download_image_spec env self url local_path w) as (fs & -> & _).
  exists fs. by destruct (fetch_ok _ _ _ _ _).
Qed.

(** The calls of [download_image] the loop makes. *)
Lemma download_loop_calls (urls : list text) :
  forall (i : nat) (d d' : gmap (list N) (list N)) (w w' : world),
    download_loop env self i urls d w = (Done d', w') ->
    exists new,
      calls w' = calls w ++ new /\
      (forall u, u ∈ urls -> Py.strip u <> [] -> d !! u = None ->
                 u ∈ map fst new) /\
      (forall u f, (u, f) ∈ new -> d !! u = None) /\
      (forall j k u f f',
         j < k -> new !! j = Some (u, f) -> new !! k = Some (u, f') ->
         fetch_ok env self (length (calls w) + j) u f = false).
Proof.
  induction urls as [|url rest IH]; intros i d d' w w' Hrun.
  - injection Hrun as <- <-. exists []. rewrite app_nil_r.
    split; [done|]. split; [|split].
    + intros u Hu. by apply elem_of_nil in Hu.
    + intros u f Hu. by apply elem_of_nil in Hu.
    + intros j k u f f' _ Hj. by rewrite lookup_nil in Hj.
  - destruct (Py.truthy (Py.strip url)) eqn:Hblank.
    2: { simpl in Hrun. rewrite Hblank in Hrun. simpl in Hrun.
         destruct (IH _ _ _ _ _ Hrun) as (new & Hc & HA & HB & HC).
         exists new. repeat split; try done.
         intros u Hu Hne Hd. apply elem_of_cons in Hu as [->|Hu]; [|by apply HA].
         by apply truthy_false in Hblank. }
    destruct (generate_local_filename env self url i w) as [[lp|e] w0] eqn:Hname.
    2: { simpl in Hrun. rewrite Hblank in Hrun. simpl in Hrun. unfold_m.
         by rewrite Hname in Hrun. }
    assert (w0 = w) as ->.
    { by rewrite <- (generate_local_filename_pure url i w), Hname. }
    destruct (d !! url) as [p|] eqn:Hd.
    { simpl in Hrun. rewrite Hblank in Hrun. simpl in Hrun. unfold_m.
      rewrite Hname, Hd in Hrun.
      destruct (IH _ _ _ _ _ Hrun) as (new & Hc & HA & HB & HC).
      exists new. repeat split; try done.
      intros u Hu Hne Hdu. apply elem_of_cons in Hu as [->|Hu]; [|by apply HA].
      by rewrite Hd in Hdu. }
    destruct (download_loop_fetch url lp rest i d w Hblank Hname Hd)
      as (fs & Hstep).
    rewrite Hstep in Hrun.
    destruct (IH _ _ _ _ _ Hrun) as (new & Hc & HA & HB & HC).
    simpl in Hc, HC. rewrite length_app in HC. simpl in HC.
    exists ((url, lp) :: new). rewrite Hc, <- app_assoc. split; [done|].
    assert (forall u, (if fetch_ok env self (length (calls w)) url lp
                       then <[url := lp]> d else d) !! u = None ->
                      d !! u = None) as Hback.
    { intros u. destruct (fetch_ok _ _ _ _ _); [|done].
      rewrite lookup_insert_None. tauto. }
    split; [|split].
    + intros u Hu Hne Hdu. simpl.
      destruct (decide (u = url)) as [->|Hneq]; [apply elem_of_cons; by left|].
      apply elem_of_cons in Hu as [->|Hu]; [done|].
      apply elem_of_cons. right. apply HA; [done|done|].
      destruct (fetch_ok _ _ _ _ _); [|done].
      by rewrite lookup_insert_ne.
    + intros u f Hu. apply elem_of_cons in Hu as [[= -> ->]|Hu]; [done|].
      apply Hback. by apply (HB u f).
    + intros j k u f f' Hjk Hj Hk.
      destruct k as [|k]; [lia|]. simpl in Hk.
      destruct j as [|j]; simpl in Hj.
      * injection Hj as <- <-. rewrite Nat.add_0_r.
        destruct (fetch_ok env self (length (calls w)) url lp) eqn:Hok; [|done].
        apply list_elem_of_lookup_2 in Hk. apply HB in Hk.
        by rewrite lookup_insert_eq in Hk.
      * replace (length (calls w) + S j) with (length (calls w) + 1 + j) by lia.
        apply (HC j k u f f'); [lia|done|done].
Qed.

(** A reference every fetch of which fails is fetched each time the loop
    meets it, and is never recorded. *)
Lemma download_loop_failing (u : text) (urls : list text) :
  Py.strip u <> [] ->
  (forall n f, fetch_ok env self n u f = false) ->
  forall (i : nat) (d d' : gmap (list N) (list N)) (w w' : world),
    d !! u = None ->
    download_loop env self i urls d w = (Done d', w') ->
    d' !! u = None /\
    exists new,
      calls w' = calls w ++ new /\
      length (filter (.= u) (map fst new)) = length (filter (.= u) urls).
Proof.
  intros Hne Hfail.
  induction urls as [|url rest IH]; intros i d d' w w' Hdu Hrun.
  - injection Hrun as <- <-. split; [done|]. exists []. by rewrite app_nil_r.
  - destruct (Py.truthy (Py.strip url)) eqn:Hblank.
    2: { simpl in Hrun. rewrite Hblank in Hrun. simpl in Hrun.
         destruct (IH _ _ _ _ _ Hdu Hrun) as (Hd' & new & Hc & Hn).
         split; [done|]. exists new. split; [done|].
         rewrite filter_cons_False; [done|].
         intros ->. by apply truthy_false in Hblank. }
    destruct (generate_local_filename env self url i w) as [[lp|e] w0] eqn:Hname.
    2: { simpl in Hrun. rewrite Hblank in Hrun. simpl in Hrun. unfold_m.
         by rewrite Hname in Hrun. }
    assert (w0 = w) as ->.
    { by rewrite <- (generate_local_filename_pure url i w), Hname. }
    destruct (d !! url) as [p|] eqn:Hd.
    { simpl in Hrun. rewrite Hblank in Hrun. simpl in Hrun. unfold_m.
      rewrite Hname, Hd in Hrun.
      destruct (IH _ _ _ _ _ Hdu Hrun) as (Hd' & new & Hc & Hn).
      split; [done|]. exists new. split; [done|].
      rewrite filter_cons_False; [done|].
      intros ->. by rewrite Hd in Hdu. }
    destruct (download_loop_fetch url lp rest i d w Hblank Hname Hd)
      as (fs & Hstep).
    rewrite Hstep in Hrun.
    destruct (decide (url = u)) as [->|Hneq].
    + rewrite Hfail in Hrun.
      destruct (IH _ _ _ _ _ Hdu Hrun) as (Hd' & new & Hc & Hn).
      split; [done|]. exists ((u, lp) :: new). simpl in Hc.
      rewrite Hc, <- app_assoc. split; [done|]. simpl.
      rewrite !filter_cons_True by done. simpl. by rewrite Hn.
    + assert ((if fetch_ok env self (length (calls w)) url lp
               then <[url := lp]> d else d) !! u = None) as Hdu'.
      { destruct (fetch_ok _ _ _ _ _); [|done]. by rewrite lookup_insert_ne. }
      destruct (IH _ _ _ _ _ Hdu' Hrun) as (Hd' & new & Hc & Hn).
      split; [done|]. exists ((url, lp) :: new). simpl in Hc.
      rewrite Hc, <- app_assoc. split; [done|]. simpl.
      by rewrite !filter_cons_False by done.
Qed.

(** A recorded reference is not fetched. *)
Lemma download_loop_recorded (u p : text) (urls : list text) (i : nat)
    (d d' : gmap (list N) (list N)) (w w' : world) (new : list (list N * list N)) :
  d !! u = Some p ->
  download_loop env self i urls d w = (Done d', w') ->
  calls w' = calls w ++ new ->
  filter (.= u) (map fst new) = [].
Proof.
  intros Hd Hrun Hnew.
  destruct (download_loop_calls _ _ _ _ _ _ Hrun) as (new' & Hc & _ & HB & _).
  rewrite Hnew in Hc. apply app_inv_head in Hc as <-.
  destruct (filter (.= u) (map fst new)) as [|x l] eqn:E; [done|].
  assert (x ∈ filter (.= u) (map fst new)) as Hx by (rewrite E; by left).
  apply list_elem_of_filter in Hx as [-> Hx].
  apply list_elem_of_fmap in Hx as ([u' f] & -> & Hin).
  apply HB in Hin. simpl in Hd. by rewrite Hd in Hin.
Qed.

(** A reference whose fetches succeed is fetched once, at its first
    occurrence. *)
Lemma download_loop_once (u : text) (urls : list text) :
  Py.strip u <> [] ->
  (forall n f, fetch_ok env self n u f = true) ->
  forall (i : nat) (d d' : gmap (list N) (list N)) (w w' : world),
    u ∈ urls -> d !! u = None ->
    download_loop env self i urls d w = (Done d', w') ->
    exists new,
      calls w' = calls w ++ new /\
      length (filter (.= u) (map fst new)) = 1.
Proof.
  intros Hne Hok.
  induction urls as [|url rest IH]; intros i d d' w w' Hin Hdu Hrun.
  - by apply elem_of_nil in Hin.
  - destruct (Py.truthy (Py.strip url)) eqn:Hblank.
    2: { simpl in Hrun. rewrite Hblank in Hrun. simpl in Hrun.
         apply elem_of_cons in Hin as [->|Hin].
         - by apply truthy_false in Hblank.
         - by apply (IH _ _ _ _ _ Hin Hdu Hrun). }
    destruct (generate_local_filename env self url i w) as [[lp|e] w0] eqn:Hname.
    2: { simpl in Hrun. rewrite Hblank in Hrun. simpl in Hrun. unfold_m.
         by rewrite Hname in Hrun. }
    assert (w0 = w) as ->.
    { by rewrite <- (generate_local_filename_pure url i w), Hname. }
    destruct (d !! url) as [p|] eqn:Hd.
    { simpl in Hrun. rewrite Hblank in Hrun. simpl in Hrun. unfold_m.
      rewrite Hname, Hd in Hrun.
      apply elem_of_cons in Hin as [->|Hin]; [by rewrite Hd in Hdu|].
      by apply (IH _ _ _ _ _ Hin Hdu Hrun). }
    destruct (download_loop_fetch url lp rest i d w Hblank Hname Hd)
      as (fs & Hstep).
    rewrite Hstep in Hrun.
    destruct (decide (url = u)) as [->|Hneq].
    + rewrite Hok in Hrun.
      destruct (download_loop_calls _ _ _ _ _ _ Hrun) as (new & Hc & _).
      exists ((u, lp) :: new). simpl in Hc. rewrite Hc, <- app_assoc.
      split; [done|]. simpl. rewrite filter_cons_True by done.
      rewrite (download_loop_recorded u lp _ _ _ _ _ _ new
                 (lookup_insert_eq _ _ _) Hrun Hc). done.
    + apply elem_of_cons in Hin as [->|Hin]; [done|].
      assert ((if fetch_ok env self (length (calls w)) url lp
               then <[url := lp]> d else d) !! u = None) as Hdu'.
      { destruct (fetch_ok _ _ _ _ _); [|done]. by rewrite lookup_insert_ne. }
      destruct (IH _ _ _ _ _ Hin Hdu' Hrun) as (new & Hc & Hn).
      exists ((url, lp) :: new). simpl in Hc. rewrite Hc, <- app_assoc.
      split; [done|]. simpl. by rewrite filter_cons_False by done.
Qed.

End Loop.

(** C1, as stated, fails.  The document is one self-closing tag whose image
    cannot be fetched.  The extractor yields its URL twice, and since only
    successful downloads are recorded, [download_image] is called for it
    twice in the same run. *)
Lemma failed_reference_fetched_twice :
  let doc := qtxt "<img src='http://x/gone.png' />" in
  let run := download_all_images (Sample.env []) Sample.downloader
               (Sample.with_doc doc) in
  image_urls_of doc = [txt "http://x/gone.png"; txt "http://x/gone.png"] /\
  Py.strip (txt "http://x/gone.png") <> [] /\
  fst run = Done Sample.downloader /\
  map fst (calls (snd run)) = [txt "http://x/gone.png"; txt "http://x/gone.png"].
Proof. repeat split; vm_compute; (reflexivity || discriminate). Qed.

(** C1, amended. In a run of [download_all_images] that ends normally, every
    extracted reference that is not blank and not recorded beforehand is
    passed to [download_image] at least once; no reference is passed to it
    again after a call for it succeeded (of two calls for the same
    reference, the earlier one failed), so a reference whose fetches succeed
    is fetched exactly once, however often it occurs; and a reference all of
    whose fetches fail is fetched once for each of its occurrences in the
    extracted sequence, failures not being recorded. *)
Theorem download_once_after_success (env : Env) (self self' : Downloader)
    (content : text) (w w' : world) :
  read_text w (markdown_file self) = Some content ->
  download_all_images env self w = (Done self', w') ->
  exists new,
    calls w' = calls w ++ new /\
    (forall u, u ∈ image_urls_of content -> Py.strip u <> [] ->
               downloaded_images self !! u = None -> u ∈ map fst new) /\
    (forall j k u f f',
       j < k -> new !! j = Some (u, f) -> new !! k = Some (u, f') ->
       fetch_ok env self (length (calls w) + j) u f = false) /\
    (forall u, u ∈ image_urls_of content -> Py.strip u <> [] ->
               downloaded_images self !! u = None ->
               (forall n f, fetch_ok env self n u f = true) ->
               length (filter (.= u) (map fst new)) = 1) /\
    (forall u, Py.strip u <> [] -> downloaded_images self !! u = None ->
               (forall n f, fetch_ok env self n u f = false) ->
               length (filter (.= u) (map fst new)) =
               length (filter (.= u) (image_urls_of content))).
Proof.
  intros Hfile Hrun.
  unfold download_all_images, extract_image_urls in Hrun.
  unfold_m. rewrite (read_text_file _ _ _ Hfile) in Hrun.
  destruct (download_loop env self 0 (image_urls_of content)
              (downloaded_images self) w) as [[d'|e] w1] eqn:Hloop; [|done].
  injection Hrun as _ <-.
  destruct (download_loop_calls env self _ _ _ _ _ _ Hloop)
    as (new & Hc & HA & _ & HC).
  exists new. split; [done|]. split; [done|]. split; [done|]. split.
  - intros u Hu Hne Hd Hok.
    destruct (download_loop_once env self u _ Hne Hok _ _ _ _ _ Hu Hd Hloop)
      as (new' & Hc' & Hn).
    rewrite Hc in Hc'. by apply app_inv_head in Hc' as ->.
  - intros u Hne Hd Hfail.
    destruct (download_loop_failing env self u _ Hne Hfail _ _ _ _ _ Hd Hloop)
      as (_ & new' & Hc' & Hn).
    rewrite Hc in Hc'. by apply app_inv_head in Hc' as ->.
Qed.

Lemma download_once_after_success_witness :
  let doc := qtxt "![cat](http://x/a.png) <img src='http://x/gone.png' /> ![cat](http://x/a.png)" in
  let w := Sample.with_doc doc in
  let run := download_all_images (Sample.env []) Sample.downloader w in
  exists new,
    calls (snd run) = calls w ++ new /\
    (forall u, u ∈ image_urls_of doc -> Py.strip u <> [] ->
               downloaded_images Sample.downloader !! u = None ->
               u ∈ map fst new) /\
    (forall j k u f f',
       j < k -> new !! j = Some (u, f) -> new !! k = Some (u, f') ->
       fetch_ok (Sample.env []) Sample.downloader (length (calls w) + j) u f
       = false) /\
    (forall u, u ∈ image_urls_of doc -> Py.strip u <> [] ->
               downloaded_images Sample.downloader !! u = None ->
               (forall n f, fetch_ok (Sample.env []) Sample.downloader n u f
                            = true) ->
               length (filter (.= u) (map fst new)) = 1) /\
    (forall u, Py.strip u <> [] ->
               downloaded_images Sample.downloader !! u = None ->
               (forall n f, fetch_ok (Sample.env []) Sample.downloader n u f
                            = false) ->
               length (filter (.= u) (map fst new)) =
               length (filter (.= u) (image_urls_of doc))).
Proof.
  intros doc w run.
  apply (download_once_after_success (Sample.env []) Sample.downloader
           (match fst run with Done s => s | Raised _ => Sample.downloader end)
           doc w (snd run)).
  - vm_compute. reflexivity.
  - vm_compute. reflexivity.
Defined.

(** ** The matcher *)

Section MatcherFacts.

Implicit Types (p : N -> bool) (k : cont) (s x y : text) (st : mstate).

Lemma lit_app l k pos s st : lit l k pos (l ++ s) st = k (pos + length l) s st.
Proof. unfold lit. by rewrite strip_prefix_app. Qed.

Lemma lit_inv l k pos s st r :
  lit l k pos s st = Some r ->
  exists s', s = l ++ s' /\ k (pos + length l) s' st = Some r.
Proof.
  unfold lit. destruct (Py.strip_prefix l s) as [s'|] eqn:E; [|done].
  intros H. exists s'. split; [by apply strip_prefix_Some|done].
Qed.

(** What a quantifier has matched when the whole match succeeds: a run of
    characters of its class, with the rest of the pattern matching what
    follows. *)
Lemma lazy_star_inv p k pos s st r :
  lazy_star p k pos s st = Some r ->
  exists y s', s = y ++ s' /\ Forall (fun c => p c = true) y /\
               k (pos + length y) s' st = Some r.
Proof.
  revert pos; induction s as [|c s IH]; intros pos H; simpl in H.
  - destruct (k pos [] st) eqn:E; [|done].
    exists [], []. rewrite Nat.add_0_r. by injection H as <-.
  - destruct (k pos (c :: s) st) eqn:E.
    { exists [], (c :: s). rewrite Nat.add_0_r. by injection H as <-. }
    destruct (p c) eqn:Hc; [|done].
    destruct (IH _ H) as (y & s' & -> & Hy & Hk).
    exists (c :: y), s'. split; [done|]. split; [by constructor|].
    simpl. by rewrite <- Nat.add_succ_comm.
Qed.

Lemma greedy_star_inv p k pos s st r :
  greedy_star p k pos s st = Some r ->
  exists y s', s = y ++ s' /\ Forall (fun c => p c = true) y /\
               k (pos + length y) s' st = Some r.
Proof.
  revert pos; induction s as [|c s IH]; intros pos H; simpl in H.
  - exists [], []. by rewrite Nat.add_0_r.
  - destruct (p c) eqn:Hc.
    2: { exists [], (c :: s). by rewrite Nat.add_0_r. }
    destruct (greedy_star p k (S pos) s st) eqn:E.
    + injection H as <-. destruct (IH _ E) as (y & s' & -> & Hy & Hk).
      exists (c :: y), s'. split; [done|]. split; [by constructor|].
      simpl. by rewrite <- Nat.add_succ_comm.
    + exists [], (c :: s). by rewrite Nat.add_0_r.
Qed.

Lemma greedy_plus_inv p k pos s st r :
  greedy_plus p k pos s st = Some r ->
  exists y s', s = y ++ s' /\ y <> [] /\ Forall (fun c => p c = true) y /\
               k (pos + length y) s' st = Some r.
Proof.
  unfold greedy_plus. destruct s as [|c s]; [done|].
  destruct (p c) eqn:Hc; [|done]. intros H.
  destruct (greedy_star_inv _ _ _ _ _ _ H) as (y & s' & -> & Hy & Hk).
  exists (c :: y), s'. split; [done|]. split; [done|].
  split; [by constructor|]. simpl. by rewrite <- Nat.add_succ_comm.
Qed.

(** A greedy quantifier that can go further does: when the rest of the
    pattern matches after a longer run, the shorter runs are not tried. *)
Lemma greedy_star_prepend p k pos x s st r :
  Forall (fun c => p c = true) x ->
  greedy_star p k (pos + length x) s st = Some r ->
  greedy_star p k pos (x ++ s) st = Some r.
Proof.
  revert pos; induction x as [|c x IH]; intros pos Hx H; simpl.
  - by rewrite Nat.add_0_r in H.
  - inversion Hx as [|? ? Hc Hx']; subst. rewrite Hc.
    rewrite (IH (S pos)); [done|done|].
    by rewrite Nat.add_succ_comm.
Qed.

Lemma greedy_plus_prepend p k pos x s st r :
  x <> [] ->
  Forall (fun c => p c = true) x ->
  greedy_star p k (pos + length x) s st = Some r ->
  greedy_plus p k pos (x ++ s) st = Some r.
Proof.
  intros Hne Hx H. destruct x as [|c x]; [done|]. simpl.
  inversion Hx as [|? ? Hc Hx']; subst. rewrite Hc.
  apply greedy_star_prepend; [done|].
  by rewrite Nat.add_succ_comm.
Qed.

(** At the end of the run of its class a greedy quantifier hands over to
    the rest of the pattern. *)
Lemma greedy_star_stop p k pos c s st :
  p c = false -> greedy_star p k pos (c :: s) st = k pos (c :: s) st.
Proof. intros H. simpl. by rewrite H. Qed.

(** [s[a:b]] of a text cut in three. *)
Lemma slice_app x y s a b :
  a = length x -> b = a + length y -> slice (x ++ y ++ s) (a, b) = y.
Proof.
  intros -> ->. unfold slice. simpl.
  rewrite drop_app_length.
  replace (length x + length y - length x) with (length y) by lia.
  apply take_app_length.
Qed.

End MatcherFacts.

(** A match ends no earlier than it starts. *)
Lemma run_end (pat : pattern) :
  forall (pos : nat) (s : text) (st : mstate) (e : nat)
         (spans : list (nat * nat)),
    run pat pos s st = Some (e, spans) -> pos <= e.
Proof.
  induction pat as [|[l|p|p|p| |] pat IH]; intros pos s st e spans H;
    cbn [run] in H.
  - unfold accept in H. injection H as <- _. lia.
  - apply lit_inv in H as (s' & _ & H). apply IH in H. lia.
  - apply lazy_star_inv in H as (y & s' & _ & _ & H). apply IH in H. lia.
  - apply greedy_star_inv in H as (y & s' & _ & _ & H). apply IH in H. lia.
  - apply greedy_plus_inv in H as (y & s' & _ & _ & _ & H). apply IH in H. lia.
  - unfold gopen in H. by apply IH in H.
  - unfold gclose in H. destruct (fst st); by apply IH in H.
Qed.

Lemma match_at_lit (l : text) (r : pattern) (s : text) (e : nat)
    (spans : list (nat * nat)) :
  match_at (Lit l :: r) s = Some (e, spans) -> length l <= e.
Proof.
  unfold match_at. cbn [run]. intros H.
  apply lit_inv in H as (s' & _ & H). apply run_end in H. lia.
Qed.

(** The patterns of the script start with a literal, so none of them matches
    the empty text. *)
Lemma patterns_consume (pat : pattern) (s : text) (e : nat)
    (spans : list (nat * nat)) :
  pat ∈ [markdown_pattern; html_pattern; self_closing_pattern;
         markdown_sub_pattern; html_sub_pattern] ->
  match_at pat s = Some (e, spans) -> 0 < e.
Proof.
  intros Hpat H.
  repeat (apply elem_of_cons in Hpat as [->|Hpat]);
    [..|by apply elem_of_nil in Hpat];
    apply match_at_lit in H; vm_compute in H; lia.
Qed.

(** A match found by a scan is a match of the pattern at some place of the
    text. *)
Lemma scan_Hit (pat : pattern) (whole : text) (gs : list text) (s : text)
    (skip : nat) :
  Hit whole gs ∈ scan pat s skip ->
  exists s' n spans,
    match_at pat s' = Some (S n, spans) /\
    whole = take (S n) s' /\ gs = map (slice s') spans.
Proof.
  revert skip; induction s as [|c s IH]; intros skip H; simpl in H.
  - by apply elem_of_nil in H.
  - destruct skip as [|skip]; [|by apply (IH skip)].
    destruct (match_at pat (c :: s)) as [[[|n] spans]|] eqn:E.
    + apply elem_of_cons in H as [H|H]; [done|by apply (IH 0)].
    + apply elem_of_cons in H as [H|H]; [|by apply (IH n)].
      injection H as -> ->. by exists (c :: s), n, spans.
    + apply elem_of_cons in H as [H|H]; [done|by apply (IH 0)].
Qed.

(** ** What the rewriter's patterns match *)

#[local] Arguments txt : simpl never.
#[local] Arguments ch : simpl never.

(** Lengths of literals, computed. *)
Ltac lit_lengths :=
  rewrite ?length_app in *;
  repeat match goal with
         | |- context [length (txt ?l)] =>
             let n := eval vm_compute in (length (txt l)) in
             change (length (txt l)) with n
         | H : context [length (txt ?l)] |- _ =>
             let n := eval vm_compute in (length (txt l)) in
             change (length (txt l)) with n in H
         | |- context [length src_eq_quote] =>
             change (length src_eq_quote) with 5
         | H : context [length src_eq_quote] |- _ =>
             change (length src_eq_quote) with 5 in H
         end;
  cbn [length] in *.

Lemma take_app_length' (x r : text) (n : nat) :
  n = length x -> take n (x ++ r) = x.
Proof. intros ->. apply take_app_length. Qed.

(** A match of the rewriter's inline-link pattern is [![alt](url)], and its
    two groups are [alt] and [url]. *)
Lemma markdown_sub_match (s : text) (e : nat) (spans : list (nat * nat)) :
  match_at markdown_sub_pattern s = Some (e, spans) ->
  exists alt url,
    take e s = txt "![" ++ alt ++ txt "](" ++ url ++ txt ")" /\
    map (slice s) spans = [alt; url].
Proof.
  unfold match_at, markdown_sub_pattern. cbn [run]. intros H.
  apply lit_inv in H as (s1 & -> & H). unfold gopen in H. cbn [fst snd] in H.
  apply lazy_star_inv in H as (alt & s2 & -> & _ & H).
  unfold gclose in H. cbn [fst snd] in H.
  apply lit_inv in H as (s3 & -> & H). unfold gopen in H. cbn [fst snd] in H.
  apply lazy_star_inv in H as (url & s4 & -> & _ & H).
  unfold gclose in H. cbn [fst snd] in H.
  apply lit_inv in H as (s5 & -> & H).
  unfold accept in H. injection H as <- <-.
  exists alt, url. split.
  - replace (txt "![" ++ alt ++ txt "](" ++ url ++ txt ")" ++ s5)
      with ((txt "![" ++ alt ++ txt "](" ++ url ++ txt ")") ++ s5)
      by (by rewrite <- !app_assoc).
    apply take_app_length'. lit_lengths. lia.
  - cbn [rev app map]. f_equal; [|f_equal].
    + apply slice_app; lit_lengths; lia.
    + replace (txt "![" ++ alt ++ txt "](" ++ url ++ txt ")" ++ s5)
        with ((txt "![" ++ alt ++ txt "](") ++ url ++ txt ")" ++ s5)
        by (by rewrite <- !app_assoc).
      apply slice_app; lit_lengths; lia.
Qed.

(** A match of the rewriter's tag pattern is [<img], attributes, [src=], the
    quoted value, more attributes and [>]; its group is the value. *)
Lemma html_sub_match (s : text) (e : nat) (spans : list (nat * nat)) :
  match_at html_sub_pattern s = Some (e, spans) ->
  exists a url b,
    take e s = txt "<img" ++ a ++ src_eq_quote ++ url ++ [dq] ++ b ++ txt ">" /\
    map (slice s) spans = [url].
Proof.
  unfold match_at, html_sub_pattern. cbn [run]. intros H.
  apply lit_inv in H as (s1 & -> & H).
  apply greedy_plus_inv in H as (a & s2 & -> & _ & _ & H).
  apply lit_inv in H as (s3 & -> & H). unfold gopen in H. cbn [fst snd] in H.
  apply greedy_plus_inv in H as (url & s4 & -> & _ & _ & H).
  unfold gclose in H. cbn [fst snd] in H.
  apply lit_inv in H as (s5 & -> & H).
  apply greedy_star_inv in H as (b & s6 & -> & _ & H).
  apply lit_inv in H as (s7 & -> & H).
  unfold accept in H. injection H as <- <-.
  exists a, url, b. split.
  - replace (txt "<img" ++ a ++ src_eq_quote ++ url ++ [dq] ++ b ++ txt ">" ++ s7)
      with ((txt "<img" ++ a ++ src_eq_quote ++ url ++ [dq] ++ b ++ txt ">") ++ s7)
      by (by rewrite <- !app_assoc).
    apply take_app_length'. lit_lengths. lia.
  - cbn [rev app map]. f_equal.
    replace (txt "<img" ++ a ++ src_eq_quote ++ url ++ dq :: b ++ txt ">" ++ s7)
      with ((txt "<img" ++ a ++ src_eq_quote) ++ url ++ dq :: b ++ txt ">" ++ s7)
      by (by rewrite <- !app_assoc).
    apply slice_app; lit_lengths; lia.
Qed.

(** ** Failures of single fetches *)

Section Isolation.

Context (env : Env) (self : Downloader).

(** Whatever the fetches do, the loop runs to its end, provided
    [urlparse] accepts the references. *)
Lemma download_loop_total (urls : list text) :
  forall (i : nat) (d : gmap (list N) (list N)) (w : world),
    (forall u, u ∈ urls -> Py.strip u <> [] -> urlparse_path env u <> None) ->
    exists d' w', download_loop env self i urls d w = (Done d', w').
Proof.
  induction urls as [|url rest IH]; intros i d w Hparse.
  - by exists d, w.
  - assert (forall u, u ∈ rest -> Py.strip u <> [] ->
                      urlparse_path env u <> None) as Hrest.
    { intros u Hu. apply Hparse, elem_of_cons. by right. }
    destruct (Py.truthy (Py.strip url)) eqn:Hblank.
    2: { simpl. rewrite Hblank. simpl. by apply IH. }
    destruct (generate_local_filename env self url i w) as [[lp|e] w0] eqn:Hname.
    2: { exfalso. unfold generate_local_filename in Hname.
         destruct (urlparse_path env url) eqn:Hp; [done|].
         apply (Hparse url); [apply elem_of_cons; by left| |done].
         intros Hs. by rewrite Hs in Hblank. }
    assert (w0 = w) as ->.
    { by rewrite <- (generate_local_filename_pure env self url i w), Hname. }
    destruct (d !! url) as [p|] eqn:Hd.
    { simpl. rewrite Hblank. simpl. unfold_m. rewrite Hname, Hd. by apply IH. }
    destruct (download_loop_fetch env self url lp rest i d w Hblank Hname Hd)
      as (fs & ->).
    by apply IH.
Qed.

(** What is recorded stays recorded, and a reference whose fetches succeed
    is recorded under a name the filename deriver gave it. *)
Lemma download_loop_records (urls : list text) :
  forall (i : nat) (d d' : gmap (list N) (list N)) (w w' : world),
    download_loop env self i urls d w = (Done d', w') ->
    (forall u p, d !! u = Some p -> d' !! u = Some p) /\
    (forall u, u ∈ urls -> Py.strip u <> [] ->
               (forall n f, fetch_ok env self n u f = true) ->
               exists p, d' !! u = Some p /\
                         (d !! u = Some p \/
                          exists j w0, generate_local_filename env self u j w0
                                       = (Done p, w0))).
Proof.
  induction urls as [|url rest IH]; intros i d d' w w' Hrun.
  - injection Hrun as <- <-. split; [done|].
    intros u Hu. by apply elem_of_nil in Hu.
  - destruct (Py.truthy (Py.strip url)) eqn:Hblank.
    2: { simpl in Hrun. rewrite Hblank in Hrun. simpl in Hrun.
         destruct (IH _ _ _ _ _ Hrun) as (Hmono & Hrec). split; [done|].
         intros u Hu Hne Hok. apply elem_of_cons in Hu as [->|Hu]; [|by apply Hrec].
         by apply truthy_false in Hblank. }
    destruct (generate_local_filename env self url i w) as [[lp|e] w0] eqn:Hname.
    2: { simpl in Hrun. rewrite Hblank in Hrun. simpl in Hrun. unfold_m.
         by rewrite Hname in Hrun. }
    assert (w0 = w) as ->.
    { by rewrite <- (generate_local_filename_pure env self url i w), Hname. }
    destruct (d !! url) as [p|] eqn:Hd.
    { simpl in Hrun. rewrite Hblank in Hrun. simpl in Hrun. unfold_m.
      rewrite Hname, Hd in Hrun.
      destruct (IH _ _ _ _ _ Hrun) as (Hmono & Hrec). split; [done|].
      intros u Hu Hne Hok. apply elem_of_cons in Hu as [->|Hu]; [|by apply Hrec].
      exists p. split; [by apply Hmono|by left]. }
    destruct (download_loop_fetch env self url lp rest i d w Hblank Hname Hd)
      as (fs & Hstep).
    rewrite Hstep in Hrun.
    destruct (IH _ _ _ _ _ Hrun) as (Hmono & Hrec). split.
    + intros u p Hu. apply Hmono.
      destruct (fetch_ok _ _ _ _ _); [|done].
      rewrite lookup_insert_ne; [done|]. intros <-. by rewrite Hd in Hu.
    + intros u Hu Hne Hok. apply elem_of_cons in Hu as [->|Hu].
      * rewrite Hok in Hrun, Hmono. exists lp. split.
        -- apply Hmono, lookup_insert_eq.
        -- right. by exists i, w.
      * destruct (Hrec u Hu Hne Hok) as (p & Hp & [Hin|Hgen]).
        -- exists p. split; [done|].
           destruct (fetch_ok env self (length (calls w)) url lp); [|by left].
           apply lookup_insert_Some in Hin as [[<- <-]|[_ Hin]]; [|by left].
           right. by exists i, w.
        -- exists p. split; [done|by right].
Qed.

(** A reference that is blank, or whose fetches all fail, is never
    recorded. *)
Lemma download_loop_unrecorded (u : text) (urls : list text) :
  Py.strip u = [] \/ (forall n f, fetch_ok env self n u f = false) ->
  forall (i : nat) (d d' : gmap (list N) (list N)) (w w' : world),
    d !! u = None ->
    download_loop env self i urls d w = (Done d', w') ->
    d' !! u = None.
Proof.
  intros Hu.
  induction urls as [|url rest IH]; intros i d d' w w' Hd Hrun.
  - by injection Hrun as <- <-.
  - destruct (Py.truthy (Py.strip url)) eqn:Hblank.
    2: { simpl in Hrun. rewrite Hblank in Hrun. by apply (IH _ _ _ _ _ Hd Hrun). }
    destruct (generate_local_filename env self url i w) as [[lp|e] w0] eqn:Hname.
    2: { simpl in Hrun. rewrite Hblank in Hrun. simpl in Hrun. unfold_m.
         by rewrite Hname in Hrun. }
    assert (w0 = w) as ->.
    { by rewrite <- (generate_local_filename_pure env self url i w), Hname. }
    destruct (d !! url) as [p|] eqn:Hdu.
    { simpl in Hrun. rewrite Hblank in Hrun. simpl in Hrun. unfold_m.
      rewrite Hname, Hdu in Hrun. by apply (IH _ _ _ _ _ Hd Hrun). }
    destruct (download_loop_fetch env self url lp rest i d w Hblank Hname Hdu)
      as (fs & Hstep).
    rewrite Hstep in Hrun. refine (IH _ _ _ _ _ _ Hrun).
    destruct (fetch_ok env self (length (calls w)) url lp) eqn:Hok; [|done].
    rewrite lookup_insert_ne; [done|]. intros ->.
    destruct Hu as [Hs|Hfail]; [by rewrite Hs in Hblank|].
    by rewrite Hfail in Hok.
Qed.

End Isolation.

(** The specification's scenario, run through [main]: of three references
    the second cannot be fetched; the first and the third are rewritten, the
    second is left as it was, and [main] ends normally. *)
Example one_failed_fetch_among_three :
  let doc := qtxt "![one](http://x/a.png) <img src='http://x/gone.png' alt='two'> ![three](http://x/c.gif)" in
  let run := main (Sample.env [txt "source_markdowns/doc.md"])
               (Sample.with_doc doc) in
  fst run = Done tt /\
  files (snd run) !! txt "output/doc_preprocessed.md" =
  Some (qtxt "![one](images/doc/a.png) <img src='http://x/gone.png' alt='two'> ![three](images/doc/c.gif)").
Proof. split; vm_compute; reflexivity. Qed.

(** ** Self-closing tags *)

Section SelfClosing.

Lemma forallb_Forall (p : N -> bool) (l : text) :
  forallb p l = true -> Forall (fun c => p c = true) l.
Proof.
  induction l as [|c l IH]; simpl; [by constructor|].
  intros [Hc Hl]%andb_true_iff. constructor; [done|by apply IH].
Qed.

(** A literal found across the end of [x] would hold the character that
    follows [x]. *)
Lemma strip_prefix_within (l x : text) (c : N) (rest : text) :
  c ∉ l ->
  Py.strip_prefix l (x ++ c :: rest) <> None ->
  Py.startswith x l = true.
Proof.
  unfold Py.startswith.
  revert x; induction l as [|a l IH]; intros x Hc H; [done|].
  apply not_elem_of_cons in Hc as [Hac Hc].
  destruct x as [|b x]; simpl in *.
  - destruct (N.eqb_spec a c); [congruence|done].
  - destruct (N.eqb a b); [by apply IH|done].
Qed.

Lemma contains_cons (l x : text) (b : N) :
  Py.contains l (b :: x) = false ->
  Py.startswith (b :: x) l = false /\ Py.contains l x = false.
Proof. simpl. by intros [? ?]%orb_false_iff. Qed.

Lemma contains_snoc (l x : text) (c : N) :
  c ∉ l -> l <> [] ->
  Py.contains l x = false -> Py.contains l (x ++ [c]) = false.
Proof.
  intros Hc Hl. induction x as [|b x IH]; intros H.
  - destruct l as [|a l]; [done|].
    apply not_elem_of_cons in Hc as [Hac _].
    simpl. unfold Py.startswith. simpl.
    destruct (N.eqb_spec a c); [congruence|done].
  - apply contains_cons in H as [H1 H2].
    change ((b :: x) ++ [c]) with (b :: (x ++ [c])).
    cbn [Py.contains]. rewrite (IH H2), orb_false_r.
    destruct (Py.startswith (b :: x ++ [c]) l) eqn:E; [|done].
    rewrite <- H1. symmetry. apply (strip_prefix_within l (b :: x) c []); [done|].
    unfold Py.startswith in E. simpl in *.
    by destruct (Py.strip_prefix l (b :: x ++ [c])).
Qed.

(** A greedy quantifier followed by a literal fails when the literal occurs
    nowhere in the run of the quantifier's class. *)
Lemma greedy_star_no_literal (p : N -> bool) (l : text) (k : cont)
    (y : text) (c : N) (rest : text) (pos : nat) (st : mstate) :
  p c = false -> c ∉ l -> l <> [] ->
  Py.contains l y = false ->
  greedy_star p (lit l k) pos (y ++ c :: rest) st = None.
Proof.
  intros Hpc Hc Hl. revert pos; induction y as [|b y IH]; intros pos Hy.
  - simpl. rewrite Hpc. unfold lit.
    destruct (Py.strip_prefix l (c :: rest)) eqn:E; [|done].
    assert (Py.startswith [] l = true) as H.
    { apply (strip_prefix_within l [] c rest); [done|]. simpl. by rewrite E. }
    by destruct l.
  - apply contains_cons in Hy as [H1 H2].
    assert (lit l k pos ((b :: y) ++ c :: rest) st = None) as Hlit.
    { unfold lit.
      destruct (Py.strip_prefix l ((b :: y) ++ c :: rest)) eqn:E; [|done].
      rewrite (strip_prefix_within l (b :: y) c rest) in H1; [done|done|].
      by rewrite E. }
    simpl in *. rewrite (IH _ H2), Hlit. by destruct (p b).
Qed.

Lemma html_pattern_img_src (s : text) :
  match_at html_pattern s = img_src accept 0 s ([], []).
Proof. reflexivity. Qed.

Lemma self_closing_pattern_img_src (s : text) :
  match_at self_closing_pattern s = img_src to_slash_gt 0 s ([], []).
Proof. reflexivity. Qed.

Lemma greedy_star_cons (p : N -> bool) (k : cont) (pos : nat) (c : N)
    (s : text) (st : mstate) :
  p c = true ->
  greedy_star p k pos (c :: s) st =
  match greedy_star p k (S pos) s st with
  | Some r => Some r
  | None => k pos (c :: s) st
  end.
Proof. intros H. simpl. by rewrite H. Qed.

Lemma contains_skip (l x : text) (a c : N) :
  a <> c -> Py.contains (a :: l) (c :: x) = Py.contains (a :: l) x.
Proof.
  intros H. cbn [Py.contains]. unfold Py.startswith at 1. simpl.
  by destruct (N.eqb_spec a c).
Qed.

Lemma Forall_not_gt_quote (u : text) :
  Forall (fun c => not_quote_gt c = true) u ->
  Forall (fun c => not_gt c = true) u.
Proof.
  intros H. apply (Forall_impl _ _ _ H). intros c. unfold not_quote_gt.
  by intros [_ ?]%andb_true_iff.
Qed.

(** The shared part of the tag patterns on a tag: however much precedes
    [src=] inside the tag ([x] may hold an earlier [<img]), the value
    captured is that of the last [src=], and the rest of the pattern goes
    on behind its closing quote. *)
Lemma img_src_forward (k : cont) (x u y rest : text) (r : mresult) :
  x <> [] -> Forall (fun c => not_gt c = true) x ->
  u <> [] -> Forall (fun c => not_quote_gt c = true) u ->
  Forall (fun c => not_gt c = true) y ->
  Py.contains src_eq_quote (u ++ [dq] ++ y) = false ->
  k (4 + length x + 5 + length u + 1) (y ++ ch ">" :: rest)
    ([], [(4 + length x + 5, 4 + length x + 5 + length u)]) = Some r ->
  img_src k 0 (txt "<img" ++ x ++ src_eq_quote ++ u ++ [dq] ++ y
                 ++ ch ">" :: rest) ([], []) = Some r.
Proof.
  intros Hx Hxgt Hu Hunq Hy Hno Hk. unfold img_src.
  rewrite lit_app. apply greedy_plus_prepend; [done|done|].
  replace (src_eq_quote ++ u ++ [dq] ++ y ++ ch ">" :: rest)
    with (ch "s" :: ((txt "rc=" ++ [dq]) ++ u ++ [dq] ++ y) ++ ch ">" :: rest)
    by (by rewrite <- !app_assoc).
  rewrite greedy_star_cons by reflexivity.
  rewrite greedy_star_no_literal.
  - replace (ch "s" :: ((txt "rc=" ++ [dq]) ++ u ++ [dq] ++ y) ++ ch ">" :: rest)
      with (src_eq_quote ++ u ++ ([dq] ++ y ++ ch ">" :: rest))
      by (by rewrite <- !app_assoc).
    rewrite lit_app. unfold gopen. cbn [fst snd].
    apply greedy_plus_prepend; [done|done|].
    cbn [app]. rewrite greedy_star_stop by reflexivity.
    unfold gclose. cbn [fst snd].
    change (dq :: y ++ ch ">" :: rest) with ([dq] ++ y ++ ch ">" :: rest).
    rewrite lit_app. rewrite <- Hk. lit_lengths. f_equal.
  - reflexivity.
  - intros H. repeat (apply elem_of_cons in H as [H|H]; [by vm_compute in H|]).
    by apply elem_of_nil in H.
  - done.
  - change (txt "rc=" ++ [dq]) with [ch "r"; ch "c"; ch "="; dq].
    change src_eq_quote with (ch "s" :: (txt "rc=" ++ [dq])) in *.
    cbn [app]. by rewrite !contains_skip by (by vm_compute).
Qed.


(** What follows the closing quote in a self-closing tag matches the end
    of [self_closing_pattern]. *)
Lemma to_slash_gt_forward (b post : text) (pos : nat) (st : mstate) :
  Forall (fun c => not_gt c = true) b ->
  to_slash_gt pos ((b ++ txt "/") ++ ch ">" :: post) st =
  Some (pos + length b + 2, rev (snd st)).
Proof.
  intros Hb. unfold to_slash_gt.
  replace ((b ++ txt "/") ++ ch ">" :: post)
    with (b ++ ch "/" :: ch ">" :: post) by (by rewrite <- app_assoc).
  apply greedy_star_prepend; [done|].
  rewrite greedy_star_cons by reflexivity.
  rewrite greedy_star_stop by reflexivity.
  replace (lit (txt "/>") accept (S (pos + length b)) (ch ">" :: post) st)
    with (@None mresult) by reflexivity.
  change (ch "/" :: ch ">" :: post) with (txt "/>" ++ post).
  rewrite lit_app. unfold accept. by lit_lengths.
Qed.

(** The extractor's tag pattern on a tag. *)
Lemma html_pattern_forward (x u b post : text) :
  x <> [] -> Forall (fun c => not_gt c = true) x ->
  u <> [] -> Forall (fun c => not_quote_gt c = true) u ->
  Forall (fun c => not_gt c = true) b ->
  Py.contains src_eq_quote (u ++ [dq] ++ b) = false ->
  let s := txt "<img" ++ x ++ src_eq_quote ++ u ++ [dq] ++ b ++ txt "/>" ++ post in
  exists n spans,
    match_at html_pattern s = Some (S n, spans) /\
    map (slice s) spans = [u].
Proof.
  intros Hx Hxgt Hu Hunq Hb Hno s.
  exists (4 + length x + 5 + length u),
         [(4 + length x + 5, 4 + length x + 5 + length u)].
  assert (s = txt "<img" ++ x ++ src_eq_quote ++ u ++ [dq] ++ (b ++ txt "/")
                ++ ch ">" :: post) as Hs.
  { unfold s. by rewrite <- !app_assoc. }
  split.
  - rewrite html_pattern_img_src, Hs.
    rewrite (img_src_forward accept x u (b ++ txt "/") post
               (S (4 + length x + 5 + length u),
                [(4 + length x + 5, 4 + length x + 5 + length u)])); try done.
    + apply Forall_app. split; [done|]. by repeat constructor.
    + rewrite !app_assoc. apply contains_snoc; [| |by rewrite <- !app_assoc].
      * intros H. repeat (apply elem_of_cons in H as [H|H]; [by vm_compute in H|]).
        by apply elem_of_nil in H.
      * done.
    + unfold accept. cbn [snd rev app]. do 2 f_equal. lia.
  - cbn [map]. f_equal. unfold s.
    replace (txt "<img" ++ x ++ src_eq_quote ++ u ++ [dq] ++ b ++ txt "/>" ++ post)
      with ((txt "<img" ++ x ++ src_eq_quote) ++ u ++ [dq] ++ b ++ txt "/>" ++ post)
      by (by rewrite <- !app_assoc).
    apply slice_app; lit_lengths; lia.
Qed.

(** The extractor's pattern for self-closing tags on a tag. *)
Lemma self_closing_pattern_forward (x u b post : text) :
  x <> [] -> Forall (fun c => not_gt c = true) x ->
  u <> [] -> Forall (fun c => not_quote_gt c = true) u ->
  Forall (fun c => not_gt c = true) b ->
  Py.contains src_eq_quote (u ++ [dq] ++ b) = false ->
  let s := txt "<img" ++ x ++ src_eq_quote ++ u ++ [dq] ++ b ++ txt "/>" ++ post in
  exists n spans,
    match_at self_closing_pattern s = Some (S n, spans) /\
    map (slice s) spans = [u].
Proof.
  intros Hx Hxgt Hu Hunq Hb Hno s.
  exists (4 + length x + 5 + length u + length b + 2),
         [(4 + length x + 5, 4 + length x + 5 + length u)].
  assert (s = txt "<img" ++ x ++ src_eq_quote ++ u ++ [dq] ++ (b ++ txt "/")
                ++ ch ">" :: post) as Hs.
  { unfold s. by rewrite <- !app_assoc. }
  split.
  - rewrite self_closing_pattern_img_src, Hs.
    rewrite (img_src_forward to_slash_gt x u (b ++ txt "/") post
               (S (4 + length x + 5 + length u + length b + 2),
                [(4 + length x + 5, 4 + length x + 5 + length u)])); try done.
    + apply Forall_app. split; [done|]. by repeat constructor.
    + rewrite !app_assoc. apply contains_snoc; [| |by rewrite <- !app_assoc].
      * intros H. repeat (apply elem_of_cons in H as [H|H]; [by vm_compute in H|]).
        by apply elem_of_nil in H.
      * done.
    + rewrite to_slash_gt_forward by done. cbn [snd rev app]. do 2 f_equal. lia.
  - cbn [map]. f_equal. unfold s.
    replace (txt "<img" ++ x ++ src_eq_quote ++ u ++ [dq] ++ b ++ txt "/>" ++ post)
      with ((txt "<img" ++ x ++ src_eq_quote) ++ u ++ [dq] ++ b ++ txt "/>" ++ post)
      by (by rewrite <- !app_assoc).
    apply slice_app; lit_lengths; lia.
Qed.

(** What the tag patterns match has no [>] in it, the last character of
    a self-closing match apart. *)
Lemma img_src_inv (k : cont) (s : text) (r : mresult) :
  img_src k 0 s ([], []) = Some r ->
  exists m s' pos st,
    s = (txt "<img" ++ m) ++ s' /\ Forall (fun c => not_gt c = true) m /\
    pos = length (txt "<img" ++ m) /\ k pos s' st = Some r.
Proof.
  unfold img_src. intros H.
  apply lit_inv in H as (s1 & -> & H).
  apply greedy_plus_inv in H as (y & s2 & -> & _ & Hy & H).
  apply lit_inv in H as (s3 & -> & H). unfold gopen in H. cbn [fst snd] in H.
  apply greedy_plus_inv in H as (g & s4 & -> & _ & Hg & H).
  unfold gclose in H. cbn [fst snd] in H.
  apply lit_inv in H as (s5 & -> & H).
  exists (y ++ src_eq_quote ++ g ++ [dq]), s5. eexists _, _.
  split; [by rewrite <- !app_assoc|]. split; [|split; [|exact H]].
  - apply Forall_app. split; [done|]. apply Forall_app. split.
    + by repeat constructor.
    + apply Forall_app. split; [by apply Forall_not_gt_quote|].
      by repeat constructor.
  - lit_lengths. lia.
Qed.

Lemma html_pattern_inv (s : text) (e : nat) (spans : list (nat * nat)) :
  match_at html_pattern s = Some (e, spans) ->
  exists m s',
    s = (txt "<img" ++ m) ++ s' /\ Forall (fun c => not_gt c = true) m /\
    e = length (txt "<img" ++ m).
Proof.
  rewrite html_pattern_img_src. intros H.
  apply img_src_inv in H as (m & s' & pos & st & -> & Hm & -> & H).
  exists m, s'. unfold accept in H. by injection H as <- _.
Qed.

Lemma self_closing_pattern_inv (s : text) (e : nat)
    (spans : list (nat * nat)) :
  match_at self_closing_pattern s = Some (e, spans) ->
  exists m s',
    s = (txt "<img" ++ m) ++ ch ">" :: s' /\
    Forall (fun c => not_gt c = true) m /\
    e = length (txt "<img" ++ m) + 1.
Proof.
  rewrite self_closing_pattern_img_src. intros H.
  apply img_src_inv in H as (m & s' & pos & st & -> & Hm & -> & H).
  unfold to_slash_gt in H.
  apply greedy_star_inv in H as (z & s2 & -> & Hz & H).
  apply lit_inv in H as (s3 & -> & H).
  unfold accept in H. injection H as <- _.
  exists (m ++ z ++ [ch "/"]), s3. split; [|split].
  - rewrite <- !app_assoc. reflexivity.
  - apply Forall_app. split; [done|]. apply Forall_app. split; [done|].
    by repeat constructor.
  - lit_lengths. lia.
Qed.

(** A match that starts before a tag and ends inside it or behind it
    starts at an [<img] with no [>] between it and the tag. *)
Lemma pre_shape (pre w m s' : text) :
  pre ++ txt "<img" ++ w = (txt "<img" ++ m) ++ s' ->
  length pre <= length (txt "<img" ++ m) ->
  Forall (fun c => not_gt c = true) m ->
  pre = [] \/
  exists pre', pre = txt "<img" ++ pre' /\
               Forall (fun c => not_gt c = true) pre'.
Proof.
  intros Heq Hlen Hm.
  assert (pre = take (length pre) (txt "<img" ++ m)) as Hpre.
  { rewrite <- (take_app_le _ s') by done. rewrite <- Heq.
    by rewrite take_app_length. }
  change (txt "<img") with [ch "<"; ch "i"; ch "m"; ch "g"] in *.
  destruct pre as [|c1 [|c2 [|c3 [|c4 pre']]]]; [by left|..];
    cbn [app] in Heq; injection Heq as; subst; try (by vm_compute in *).
  right. exists pre'. split; [done|].
  cbn [length app take] in Hpre. injection Hpre as Hpre.
  rewrite Hpre. by apply Forall_take.
Qed.

Context (a u b : text).
Hypothesis a_nonempty : a <> [].
Hypothesis a_no_gt : Forall (fun c => not_gt c = true) a.
Hypothesis u_nonempty : u <> [].
Hypothesis u_value : Forall (fun c => not_quote_gt c = true) u.
Hypothesis b_no_gt : Forall (fun c => not_gt c = true) b.
Hypothesis one_src : Py.contains src_eq_quote (u ++ [dq] ++ b) = false.

(** A match of the extractor's tag pattern that reaches into the tag
    captures the tag's value. *)
Lemma html_pattern_reaches (pre post : text) (e : nat)
    (spans : list (nat * nat)) :
  match_at html_pattern (pre ++ self_closing_tag a u b ++ post)
  = Some (e, spans) ->
  length pre < e ->
  map (slice (pre ++ self_closing_tag a u b ++ post)) spans = [u].
Proof using All.
  intros Hm Hlen. unfold self_closing_tag in *.
  destruct (html_pattern_inv _ _ _ Hm) as (m & s' & Heq & Hmgt & ->).
  assert (pre = [] \/
          exists pre', pre = txt "<img" ++ pre' /\
                       Forall (fun c => not_gt c = true) pre')
    as [->|(pre' & -> & Hpre')].
  { apply (pre_shape pre (a ++ src_eq_quote ++ u ++ [dq] ++ b ++ txt "/>" ++ post)
             m s'); [|lia|done].
    rewrite <- Heq. by rewrite <- !app_assoc. }
  - rewrite app_nil_l, <- !app_assoc in *.
    destruct (html_pattern_forward a u b post) as (n & spans' & Hm' & Hs);
      try done.
    cbv zeta in Hm', Hs. rewrite Hm' in Hm. by injection Hm as _ <-.
  - replace ((txt "<img" ++ pre') ++
             (txt "<img" ++ a ++ src_eq_quote ++ u ++ [dq] ++ b ++ txt "/>")
             ++ post)
      with (txt "<img" ++ (pre' ++ txt "<img" ++ a) ++ src_eq_quote ++ u
              ++ [dq] ++ b ++ txt "/>" ++ post) in *
      by (by rewrite <- !app_assoc).
    destruct (html_pattern_forward (pre' ++ txt "<img" ++ a) u b post)
      as (n & spans' & Hm' & Hs); try done.
    + by destruct pre'.
    + apply Forall_app. split; [done|]. apply Forall_app. split; [|done].
      by repeat constructor.
    + cbv zeta in Hm', Hs. rewrite Hm' in Hm. by injection Hm as _ <-.
Qed.

Lemma self_closing_pattern_reaches (pre post : text) (e : nat)
    (spans : list (nat * nat)) :
  match_at self_closing_pattern (pre ++ self_closing_tag a u b ++ post)
  = Some (e, spans) ->
  length pre < e ->
  map (slice (pre ++ self_closing_tag a u b ++ post)) spans = [u].
Proof using All.
  intros Hm Hlen. unfold self_closing_tag in *.
  destruct (self_closing_pattern_inv _ _ _ Hm) as (m & s' & Heq & Hmgt & ->).
  assert (pre = [] \/
          exists pre', pre = txt "<img" ++ pre' /\
                       Forall (fun c => not_gt c = true) pre')
    as [->|(pre' & -> & Hpre')].
  { apply (pre_shape pre (a ++ src_eq_quote ++ u ++ [dq] ++ b ++ txt "/>" ++ post)
             m (ch ">" :: s')); [|lia|done].
    rewrite <- Heq. by rewrite <- !app_assoc. }
  - rewrite app_nil_l, <- !app_assoc in *.
    destruct (self_closing_pattern_forward a u b post)
      as (n & spans' & Hm' & Hs); try done.
    cbv zeta in Hm', Hs. rewrite Hm' in Hm. by injection Hm as _ <-.
  - replace ((txt "<img" ++ pre') ++
             (txt "<img" ++ a ++ src_eq_quote ++ u ++ [dq] ++ b ++ txt "/>")
             ++ post)
      with (txt "<img" ++ (pre' ++ txt "<img" ++ a) ++ src_eq_quote ++ u
              ++ [dq] ++ b ++ txt "/>" ++ post) in *
      by (by rewrite <- !app_assoc).
    destruct (self_closing_pattern_forward (pre' ++ txt "<img" ++ a) u b post)
      as (n & spans' & Hm' & Hs); try done.
    + by destruct pre'.
    + apply Forall_app. split; [done|]. apply Forall_app. split; [|done].
      by repeat constructor.
    + cbv zeta in Hm', Hs. rewrite Hm' in Hm. by injection Hm as _ <-.
Qed.

End SelfClosing.

(** A scan that has not gone past the start of [w] finds there, or reaching
    there, a match with the expected group. *)
Lemma scan_reaches (pat : pattern) (w u : text) :
  w <> [] ->
  (exists n spans, match_at pat w = Some (S n, spans)) ->
  (forall pre e spans,
     match_at pat (pre ++ w) = Some (e, spans) -> length pre < e ->
     map (slice (pre ++ w)) spans = [u]) ->
  forall pre skip,
    skip <= length pre -> exists whole, Hit whole [u] ∈ scan pat (pre ++ w) skip.
Proof.
  intros Hw (n0 & spans0 & Hm0) Hreach.
  induction pre as [|c pre IH]; intros skip Hskip.
  - destruct skip; [|simpl in Hskip; lia].
    pose proof (Hreach [] _ _ Hm0 ltac:(simpl; lia)) as Hs.
    destruct w as [|c w]; [done|]. cbn [app scan] in *. rewrite Hm0, Hs.
    eexists. apply elem_of_cons. by left.
  - cbn [app scan]. destruct skip as [|skip].
    2: { apply IH. simpl in Hskip. lia. }
    destruct (match_at pat (c :: pre ++ w)) as [[[|n] spans]|] eqn:Hm.
    + destruct (IH 0) as (whole & H); [lia|].
      exists whole. apply elem_of_cons. by right.
    + destruct (decide (n <= length pre)) as [Hn|Hn].
      * destruct (IH n Hn) as (whole & H).
        exists whole. apply elem_of_cons. by right.
      * pose proof (Hreach (c :: pre) _ _ Hm ltac:(simpl; lia)) as Hs.
        cbn [app] in Hs. rewrite Hs.
        eexists. apply elem_of_cons. by left.
    + destruct (IH 0) as (whole & H); [lia|].
      exists whole. apply elem_of_cons. by right.
Qed.

Lemma findall_Hit (pat : pattern) (s whole u : text) :
  Hit whole [u] ∈ finditer pat s -> u ∈ findall pat s.
Proof.
  intros H. unfold findall. apply list_elem_of_In, in_flat_map.
  exists (Hit whole [u]). split; [by apply list_elem_of_In|]. by left.
Qed.

Lemma count_elem_of (u : text) (l : list text) :
  u ∈ l -> 1 <= length (filter (.= u) l).
Proof.
  intros H. assert (u ∈ filter (.= u) l) as Hin by (by apply list_elem_of_filter).
  destruct (filter (.= u) l); [by apply elem_of_nil in Hin|simpl; lia].
Qed.

(** C10, as stated, fails.  The tag
    [<img src="u.gif" data-src="v.jpg" />] is self-closing and its [src]
    value is [u.gif]; the extractor yields [v.jpg] twice and [u.gif] not at
    all, since both tag patterns take the value after the last [src=]
    followed by a quote. *)
Lemma last_src_is_extracted :
  let doc := qtxt "<img src='u.gif' data-src='v.jpg' />" in
  doc = self_closing_tag (txt " ") (txt "u.gif") (qtxt " data-src='v.jpg' ") /\
  image_urls_of doc = [txt "v.jpg"; txt "v.jpg"] /\
  length (filter (.= txt "u.gif") (image_urls_of doc)) = 0.
Proof. repeat split; vm_compute; reflexivity. Qed.

(** C10, amended. A self-closing tag [<img a src="u" b/>] (with [a] not
    empty, no [>] in [a], [u] or [b], and [u] a non-empty value without a
    double quote) in which [src=] followed by a double quote does not occur
    again after the start of the value has its value [u] at least twice among
    the extracted references, whatever the text before and after the tag:
    once from the tag pattern and once from the pattern for self-closing
    tags. *)
Theorem self_closing_tag_extracted_twice (pre a u b post : text) :
  a <> [] -> forallb not_gt a = true ->
  u <> [] -> forallb not_quote_gt u = true ->
  forallb not_gt b = true ->
  Py.contains src_eq_quote (u ++ [dq] ++ b) = false ->
  2 <= length (filter (.= u)
                 (image_urls_of (pre ++ self_closing_tag a u b ++ post))).
Proof.
  intros Ha Hagt%forallb_Forall Hu Hunq%forallb_Forall Hb%forallb_Forall Hno.
  unfold image_urls_of. rewrite !filter_app, !length_app.
  assert (self_closing_tag a u b ++ post <> []) as Hne.
  { unfold self_closing_tag. by destruct post. }
  assert (u ∈ findall html_pattern (pre ++ self_closing_tag a u b ++ post)) as H1.
  { destruct (scan_reaches html_pattern (self_closing_tag a u b ++ post) u Hne)
      with (pre := pre) (skip := 0) as (whole & H); [| |lia|by eapply findall_Hit].
    - unfold self_closing_tag. rewrite <- !app_assoc.
      destruct (html_pattern_forward a u b post) as (n & spans & Hm & _);
        try done. by exists n, spans.
    - intros pre0 e spans. by apply html_pattern_reaches. }
  assert (u ∈ findall self_closing_pattern (pre ++ self_closing_tag a u b ++ post))
    as H2.
  { destruct (scan_reaches self_closing_pattern
                (self_closing_tag a u b ++ post) u Hne)
      with (pre := pre) (skip := 0) as (whole & H); [| |lia|by eapply findall_Hit].
    - unfold self_closing_tag. rewrite <- !app_assoc.
      destruct (self_closing_pattern_forward a u b post) as (n & spans & Hm & _);
        try done. by exists n, spans.
    - intros pre0 e spans. by apply self_closing_pattern_reaches. }
  apply count_elem_of in H1, H2. lia.
Qed.

Lemma self_closing_tag_extracted_twice_witness :
  2 <= length (filter (.= txt "http://x/a.png")
                 (image_urls_of
                    (txt "<img x> see "
                       ++ self_closing_tag (qtxt " alt='a' ") (txt "http://x/a.png")
                            (txt " ")
                       ++ txt " and more"))).
Proof.
  apply (self_closing_tag_extracted_twice (txt "<img x> see ")
           (qtxt " alt='a' ") (txt "http://x/a.png") (txt " ")
           (txt " and more")).
  - discriminate.
  - vm_compute. reflexivity.
  - discriminate.
  - vm_compute. reflexivity.
  - vm_compute. reflexivity.
  - vm_compute. reflexivity.
Defined.

(** * Further properties of the script *)

(** ** What a call of [download_image] does to the files *)

Section FetchEffects.

Context (env : Env) (self : Downloader).

(** A call either leaves the files as they are or, once the target has been
    opened, leaves in it what the response yielded. *)
Lemma download_image_cases (url filename : text) (w : world) :
  exists fs,
    download_image env self url filename w =
    (Done (fetch_ok env self (length (calls w)) url filename),
     World fs (calls w ++ [(url, filename)])) /\
    (fs = files w \/
     exists resolved resp,
       resolved_url env self url = Some resolved /\
       http_get env (length (calls w)) resolved = Some resp /\
       status_ok resp = true /\
       can_write env (svg_filename resp resolved filename) = true /\
       fs = <[svg_filename resp resolved filename := concat (chunks resp)]>
              (files w)).
Proof.
  unfold download_image, download_image_try, fetch_ok. unfold_m.
  unfold log_call. simpl.
  destruct (resolved_url env self url) as [resolved|];
    [|eexists; split; [done|by left]].
  destruct (http_get env (length (calls w)) resolved)
    as [resp|] eqn:Hget; [|eexists; split; [done|by left]].
  destruct (status_ok resp) eqn:Hst; simpl; [|eexists; split; [done|by left]].
  unfold open_write.
  destruct (can_write env _) eqn:Hcw; simpl; [|eexists; split; [done|by left]].
  unfold_m. unfold put_file. simpl.
  rewrite (write_chunks_spec _ _ []) by (simpl; apply lookup_insert_eq).
  simpl. rewrite insert_insert_eq.
  destruct (stream_ok resp); simpl; eexists; (split; [done|]); right;
    by exists resolved, resp.
Qed.

End FetchEffects.

(** X1. A fetch that fails leaves the files as they were, unless it failed
    while the body was streaming: then the target file exists and holds the
    chunks received before the stream broke. *)
Theorem failed_fetch_files (env : Env) (self : Downloader)
    (url filename : text) (w w' : world) :
  download_image env self url filename w = (Done false, w') ->
  files w' = files w \/
  exists resolved resp,
    resolved_url env self url = Some resolved /\
    http_get env (length (calls w)) resolved = Some resp /\
    stream_ok resp = false /\
    files w' = <[svg_filename resp resolved filename := concat (chunks resp)]>
                 (files w).
Proof.
  intros Hrun.
  destruct (download_image_cases env self url filename w)
    as (fs & Heq & [->|(resolved & resp & Hurl & Hget & Hst & Hcw & ->)]);
    rewrite Heq in Hrun; injection Hrun as Hok <-; [by left|].
  right. exists resolved, resp. repeat split; try done.
  unfold fetch_ok in Hok. rewrite Hurl, Hget, Hst, Hcw in Hok.
  by destruct (stream_ok resp).
Qed.

Lemma failed_fetch_files_witness :
  let w := snd (download_image (Sample.env []) Sample.downloader
                  (txt "http://x/gone.png") (txt "images/doc/gone.png")
                  (World ∅ [])) in
  files w = files (World ∅ []) \/
  exists resolved resp,
    resolved_url (Sample.env []) Sample.downloader (txt "http://x/gone.png")
    = Some resolved /\
    http_get (Sample.env []) (length (calls (World ∅ []))) resolved = Some resp /\
    stream_ok resp = false /\
    files w = <[svg_filename resp resolved (txt "images/doc/gone.png")
                  := concat (chunks resp)]> (files (World ∅ [])).
Proof.
  apply (failed_fetch_files (Sample.env []) Sample.downloader
           (txt "http://x/gone.png") (txt "images/doc/gone.png") (World ∅ [])).
  vm_compute. reflexivity.
Defined.

(** X2. A stream that breaks leaves a partial file behind: when the request
    is answered with a success status and the target can be opened, but the
    body does not stream to its end, [download_image] returns [False] and
    the target holds the chunks that did arrive. *)
Theorem broken_stream_leaves_partial_file (env : Env) (self : Downloader)
    (url filename resolved : text) (resp : response) (w : world) :
  resolved_url env self url = Some resolved ->
  http_get env (length (calls w)) resolved = Some resp ->
  status_ok resp = true ->
  can_write env (svg_filename resp resolved filename) = true ->
  stream_ok resp = false ->
  download_image env self url filename w =
  (Done false,
   World (<[svg_filename resp resolved filename := concat (chunks resp)]>
            (files w))
         (calls w ++ [(url, filename)])).
Proof.
  intros Hurl Hget Hst Hcw Hstream.
  destruct (download_image_cases env self url filename w)
    as (fs & Heq & Hfs).
  rewrite Heq. unfold fetch_ok. rewrite Hurl, Hget, Hst, Hcw, Hstream.
  simpl. do 2 f_equal.
  unfold download_image, download_image_try in Heq. unfold_m.
  unfold log_call in Heq. simpl in Heq. rewrite Hurl, Hget, Hst in Heq.
  simpl in Heq. unfold open_write in Heq. rewrite Hcw in Heq.
  unfold_m. unfold put_file in Heq. simpl in Heq.
  rewrite (write_chunks_spec _ _ []) in Heq by (simpl; apply lookup_insert_eq).
  simpl in Heq. rewrite insert_insert_eq, Hstream in Heq. simpl in Heq.
  by injection Heq as _ <-.
Qed.

Lemma broken_stream_leaves_partial_file_witness :
  download_image (Worlds.with_http Worlds.flaky []) Sample.downloader
    (txt "http://x/big.png") (txt "images/doc/big.png") (World ∅ []) =
  (Done false,
   World {[ txt "images/doc/big.png" := txt "PNG" ]}
         [(txt "http://x/big.png", txt "images/doc/big.png")]).
Proof.
  apply (broken_stream_leaves_partial_file
           (Worlds.with_http Worlds.flaky []) Sample.downloader
           (txt "http://x/big.png") (txt "images/doc/big.png")
           (txt "http://x/big.png") Worlds.cut_off (World ∅ []));
    vm_compute; reflexivity.
Defined.

(** ** The calls and the records of a run *)

Section LoopTrace.

Context (env : Env) (self : Downloader).

Lemma generate_local_filename_any (url f : text) (i : nat) (w w0 : world) :
  generate_local_filename env self url i w = (Done f, w) ->
  generate_local_filename env self url i w0 = (Done f, w0).
Proof.
  unfold generate_local_filename. destruct (urlparse_path env url); [|done].
  unfold_m. by intros [= <-].
Qed.

(** Whether the loop ends normally or raises, it has called
    [download_image] for some of the references that are not blank, in
    their order, each not recorded when it was called and with the name
    derived for it at its index. *)
Lemma download_loop_trace (urls : list text) :
  forall (i : nat) (d : gmap (list N) (list N)) (w w' : world)
         (r : outcome (gmap (list N) (list N))),
    download_loop env self i urls d w = (r, w') ->
    exists new,
      calls w' = calls w ++ new /\
      map fst new `sublist_of` filter (fun u => Py.strip u <> []) urls /\
      (forall u f, (u, f) ∈ new ->
         d !! u = None /\
         exists j, urls !! j = Some u /\
                   forall w0, generate_local_filename env self u (i + j) w0
                              = (Done f, w0)).
Proof.
  induction urls as [|url rest IH]; intros i d w w' r Hrun.
  - injection Hrun as <- <-. exists []. rewrite app_nil_r.
    split; [done|]. split; [done|]. intros u f Hu. by apply elem_of_nil in Hu.
  - assert (forall (new : list (list N * list N))
                   (d1 : gmap (list N) (list N)),
              (forall u, d1 !! u = None -> d !! u = None) ->
              (forall u f, (u, f) ∈ new ->
                 d1 !! u = None /\
                 exists j, rest !! j = Some u /\
                           forall w0, generate_local_filename env self u
                                        (S i + j) w0 = (Done f, w0)) ->
              forall u f, (u, f) ∈ new ->
                 d !! u = None /\
                 exists j, (url :: rest) !! j = Some u /\
                           forall w0, generate_local_filename env self u
                                        (i + j) w0 = (Done f, w0)) as Hshift.
    { intros new d1 Hback H u f Hu. destruct (H u f Hu) as (Hd1 & j & Hj & Hg).
      split; [by apply Hback|].
      exists (S j). split; [done|]. intros w0.
      by rewrite <- Nat.add_succ_comm. }
    destruct (Py.truthy (Py.strip url)) eqn:Hblank.
    2: { simpl in Hrun. rewrite Hblank in Hrun. simpl in Hrun.
         destruct (IH _ _ _ _ _ Hrun) as (new & Hc & Hsub & Hgen).
         exists new. split; [done|]. split; [|by apply (Hshift new d)].
         rewrite filter_cons_False; [done|].
         intros H. apply H. by apply truthy_false. }
    assert (Py.strip url <> []) as Hne.
    { intros Hs. by rewrite Hs in Hblank. }
    destruct (generate_local_filename env self url i w) as [[lp|e] w0] eqn:Hname.
    2: { simpl in Hrun. rewrite Hblank in Hrun. simpl in Hrun. unfold_m.
         rewrite Hname in Hrun. injection Hrun as <- <-.
         assert (w0 = w) as ->.
         { by rewrite <- (generate_local_filename_pure env self url i w), Hname. }
         exists []. rewrite app_nil_r. split; [done|].
         split; [apply sublist_nil_l|].
         intros u f Hu. by apply elem_of_nil in Hu. }
    assert (w0 = w) as ->.
    { by rewrite <- (generate_local_filename_pure env self url i w), Hname. }
    rewrite filter_cons_True by done.
    destruct (d !! url) as [p|] eqn:Hd.
    { simpl in Hrun. rewrite Hblank in Hrun. simpl in Hrun. unfold_m.
      rewrite Hname, Hd in Hrun.
      destruct (IH _ _ _ _ _ Hrun) as (new & Hc & Hsub & Hgen).
      exists new. split; [done|]. split; [by apply sublist_cons|].
      by apply (Hshift new d). }
    destruct (download_loop_fetch env self url lp rest i d w Hblank Hname Hd)
      as (fs & Hstep).
    rewrite Hstep in Hrun.
    destruct (IH _ _ _ _ _ Hrun) as (new & Hc & Hsub & Hgen).
    exists ((url, lp) :: new). simpl in Hc. rewrite Hc, <- app_assoc.
    split; [done|]. split; [by apply sublist_skip|].
    intros u f Hu. apply elem_of_cons in Hu as [[= -> ->]|Hu].
    + split; [done|]. exists 0. split; [done|]. intros w0.
      rewrite Nat.add_0_r. by apply (generate_local_filename_any _ _ _ w).
    + refine (Hshift new _ _ Hgen u f Hu).
      intros u0. destruct (fetch_ok _ _ _ _ _); [|done].
      rewrite lookup_insert_None. tauto.
Qed.

(** After a run that ends normally the records are those there were before
    and, for every call that succeeded, the reference with the name the call
    was given. *)
Lemma download_loop_records_iff (urls : list text) :
  forall (i : nat) (d d' : gmap (list N) (list N)) (w w' : world)
         (new : list (list N * list N)),
    download_loop env self i urls d w = (Done d', w') ->
    calls w' = calls w ++ new ->
    forall u p,
      d' !! u = Some p <->
      d !! u = Some p \/
      exists j, new !! j = Some (u, p) /\
                fetch_ok env self (length (calls w) + j) u p = true.
Proof.
  induction urls as [|url rest IH]; intros i d d' w w' new Hrun Hnew u p.
  - injection Hrun as <- <-.
    rewrite <- (app_nil_r (calls w)) in Hnew at 1.
    apply app_inv_head in Hnew as <-. split; [by left|].
    intros [H|(j & Hj & _)]; [done|by rewrite lookup_nil in Hj].
  - destruct (Py.truthy (Py.strip url)) eqn:Hblank.
    2: { simpl in Hrun. rewrite Hblank in Hrun. by apply (IH _ _ _ _ _ _ Hrun). }
    destruct (generate_local_filename env self url i w) as [[lp|e] w0] eqn:Hname.
    2: { simpl in Hrun. rewrite Hblank in Hrun. simpl in Hrun. unfold_m.
         by rewrite Hname in Hrun. }
    assert (w0 = w) as ->.
    { by rewrite <- (generate_local_filename_pure env self url i w), Hname. }
    destruct (d !! url) as [q|] eqn:Hd.
    { simpl in Hrun. rewrite Hblank in Hrun. simpl in Hrun. unfold_m.
      rewrite Hname, Hd in Hrun. by apply (IH _ _ _ _ _ _ Hrun). }
    destruct (download_loop_fetch env self url lp rest i d w Hblank Hname Hd)
      as (fs & Hstep).
    rewrite Hstep in Hrun.
    destruct (download_loop_calls env self _ _ _ _ _ _ Hrun)
      as (new1 & Hc1 & _). simpl in Hc1.
    assert (new = (url, lp) :: new1) as ->.
    { rewrite Hc1, <- app_assoc in Hnew. by apply app_inv_head in Hnew. }
    rewrite (IH _ _ _ _ _ new1 Hrun Hc1 u p). simpl. rewrite length_app. simpl.
    split.
    + intros [H|(j & Hj & Hok)].
      * destruct (fetch_ok env self (length (calls w)) url lp) eqn:Hok;
          [|by left].
        apply lookup_insert_Some in H as [[<- <-]|[_ H]]; [|by left].
        right. exists 0. split; [done|]. by rewrite Nat.add_0_r.
      * right. exists (S j). split; [done|].
        by replace (length (calls w) + S j) with (length (calls w) + 1 + j) by lia.
    + intros [H|(j & Hj & Hok)].
      * left. destruct (fetch_ok _ _ _ _ _); [|done].
        rewrite lookup_insert_ne; [done|]. intros <-. by rewrite Hd in H.
      * destruct j as [|j]; simpl in Hj.
        -- injection Hj as <- <-. rewrite Nat.add_0_r in Hok. rewrite Hok.
           left. apply lookup_insert_eq.
        -- right. exists j. split; [done|].
           by replace (length (calls w) + 1 + j) with (length (calls w) + S j) by lia.
Qed.

Lemma svg_filename_cases (resp : response) (url filename : text) :
  svg_filename resp url filename = filename \/
  svg_filename resp url filename = filename ++ txt ".svg".
Proof.
  unfold svg_filename. destruct (_ || _); [|by left].
  destruct (negb _); [by right|by left].
Qed.

(** Every record names a file that is there, with [.svg] appended if the
    fetcher corrected the extension. *)
Lemma download_loop_files (urls : list text) :
  forall (i : nat) (d d' : gmap (list N) (list N)) (w w' : world),
    (forall u p, d !! u = Some p ->
       is_Some (files w !! p) \/ is_Some (files w !! (p ++ txt ".svg"))) ->
    download_loop env self i urls d w = (Done d', w') ->
    forall u p, d' !! u = Some p ->
      is_Some (files w' !! p) \/ is_Some (files w' !! (p ++ txt ".svg")).
Proof.
  induction urls as [|url rest IH]; intros i d d' w w' Hinv Hrun.
  - by injection Hrun as <- <-.
  - destruct (Py.truthy (Py.strip url)) eqn:Hblank.
    2: { simpl in Hrun. rewrite Hblank in Hrun. by apply (IH _ _ _ _ _ Hinv Hrun). }
    destruct (generate_local_filename env self url i w) as [[lp|e] w0] eqn:Hname.
    2: { simpl in Hrun. rewrite Hblank in Hrun. simpl in Hrun. unfold_m.
         by rewrite Hname in Hrun. }
    assert (w0 = w) as ->.
    { by rewrite <- (generate_local_filename_pure env self url i w), Hname. }
    destruct (d !! url) as [q|] eqn:Hd.
    { simpl in Hrun. rewrite Hblank in Hrun. simpl in Hrun. unfold_m.
      rewrite Hname, Hd in Hrun. by apply (IH _ _ _ _ _ Hinv Hrun). }
    simpl in Hrun. rewrite Hblank in Hrun. simpl in Hrun. unfold_m.
    rewrite Hname, Hd in Hrun.
    destruct (download_image_cases env self url lp w) as (fs & Heq & Hfs).
    destruct (download_image_spec env self url lp w) as (fs' & Heq' & Hok).
    rewrite Heq in Heq'. injection Heq' as <-.
    rewrite Heq in Hrun.
    assert (forall p, is_Some (files w !! p) -> is_Some (fs !! p)) as Hkeep.
    { intros p Hp.
      destruct Hfs as [->|(resolved & resp & _ & _ & _ & _ & ->)]; [done|].
      apply lookup_insert_is_Some.
      destruct (decide (svg_filename resp resolved lp = p)); [by left|by right]. }
    destruct (fetch_ok env self (length (calls w)) url lp) eqn:E.
    + refine (IH _ _ _ _ _ _ Hrun). intros u p Hu. simpl.
      apply lookup_insert_Some in Hu as [[<- <-]|[_ Hu]].
      * destruct (Hok eq_refl) as (resolved & resp & _ & _ & ->).
        destruct (svg_filename_cases resp resolved lp) as [->| ->];
          [left|right]; rewrite lookup_insert_eq; by eexists.
      * destruct (Hinv u p Hu) as [H|H]; [left|right]; by apply Hkeep.
    + refine (IH _ _ _ _ _ _ Hrun). intros u p Hu. simpl.
      destruct (Hinv u p Hu) as [H|H]; [left|right]; by apply Hkeep.
Qed.

(** A record made by the loop is for one of its references, and its path
    is the name derived for that reference. *)
Lemma download_loop_record_names (urls : list text) :
  forall (i : nat) (d d' : gmap (list N) (list N)) (w w' : world),
    download_loop env self i urls d w = (Done d', w') ->
    forall u p, d' !! u = Some p ->
      d !! u = Some p \/
      (u ∈ urls /\
       exists j, forall w0, generate_local_filename env self u j w0
                            = (Done p, w0)).
Proof.
  intros i d d' w w' Hloop u p Hd.
  destruct (download_loop_trace _ _ _ _ _ _ Hloop) as (new & Hcalls & _ & Hnew).
  apply (download_loop_records_iff _ _ _ _ _ _ new Hloop Hcalls u p) in Hd.
  destruct Hd as [Hd|(j & Hj & _)]; [by left|right].
  destruct (Hnew u p) as (_ & j' & Hu & Hname);
    [by eapply list_elem_of_lookup_2|].
  split; [by eapply list_elem_of_lookup_2|]. by exists (i + j').
Qed.

End LoopTrace.

(** X3. Fetches follow the extraction.  Whether [download_all_images] ends
    normally or raises, the references it has passed to [download_image]
    are, in their order, some of the extracted references that are not
    blank; none of them was recorded in the object beforehand, and each was
    passed with the local name derived for it at its index in the extracted
    sequence. *)
Theorem fetches_follow_extraction (env : Env) (self : Downloader)
    (content : text) (w w' : world) (r : outcome Downloader) :
  read_text w (markdown_file self) = Some content ->
  download_all_images env self w = (r, w') ->
  exists new,
    calls w' = calls w ++ new /\
    map fst new `sublist_of`
      filter (fun u => Py.strip u <> []) (image_urls_of content) /\
    (forall u f, (u, f) ∈ new ->
       downloaded_images self !! u = None /\
       exists j, image_urls_of content !! j = Some u /\
                 forall w0, generate_local_filename env self u j w0
                            = (Done f, w0)).
Proof.
  intros Hfile Hrun.
  unfold download_all_images, extract_image_urls in Hrun.
  unfold_m. rewrite (read_text_file _ _ _ Hfile) in Hrun.
  destruct (download_loop env self 0 (image_urls_of content)
              (downloaded_images self) w) as [r1 w1] eqn:Hloop.
  assert (w' = w1) as -> by (by destruct r1; injection Hrun as _ <-).
  by apply (download_loop_trace env self _ _ _ _ _ _ Hloop).
Qed.

Lemma fetches_follow_extraction_witness :
  let doc := qtxt "![a](http://x/a.png) ![ ]( ) <img src='http://x/gone.png' /> ![a](http://x/a.png)" in
  let w := Sample.with_doc doc in
  let run := download_all_images (Sample.env []) Sample.downloader w in
  exists new,
    calls (snd run) = calls w ++ new /\
    map fst new `sublist_of`
      filter (fun u => Py.strip u <> []) (image_urls_of doc) /\
    (forall u f, (u, f) ∈ new ->
       downloaded_images Sample.downloader !! u = None /\
       exists j, image_urls_of doc !! j = Some u /\
                 forall w0, generate_local_filename (Sample.env [])
                              Sample.downloader u j w0 = (Done f, w0)).
Proof.
  intros doc w run.
  apply (fetches_follow_extraction (Sample.env []) Sample.downloader doc w
           (snd run) (fst run)).
  - vm_compute. reflexivity.
  - vm_compute. reflexivity.
Defined.

(** X4. Records are the successful fetches.  After a run of
    [download_all_images] on a fresh object, a reference is recorded with a
    path exactly when a call of [download_image] for that reference with
    that path succeeded. *)
Theorem records_are_successful_fetches (env : Env) (self self' : Downloader)
    (content : text) (w w' : world) :
  read_text w (markdown_file self) = Some content ->
  downloaded_images self = ∅ ->
  download_all_images env self w = (Done self', w') ->
  exists new,
    calls w' = calls w ++ new /\
    forall u p,
      downloaded_images self' !! u = Some p <->
      exists j, new !! j = Some (u, p) /\
                fetch_ok env self (length (calls w) + j) u p = true.
Proof.
  intros Hfile Hfresh Hrun.
  unfold download_all_images, extract_image_urls in Hrun.
  unfold_m. rewrite (read_text_file _ _ _ Hfile), Hfresh in Hrun.
  destruct (download_loop env self 0 (image_urls_of content) ∅ w)
    as [[d'|e] w1] eqn:Hloop; [|done].
  injection Hrun as <- <-.
  destruct (download_loop_calls env self _ _ _ _ _ _ Hloop) as (new & Hc & _).
  exists new. split; [done|]. intros u p. cbn [downloaded_images set_downloaded].
  rewrite (download_loop_records_iff env self _ _ _ _ _ _ new Hloop Hc u p).
  rewrite lookup_empty. split; [by intros [?|?]|by right].
Qed.

Lemma records_are_successful_fetches_witness :
  let doc := qtxt "![a](http://x/a.png) <img src='http://x/gone.png' />" in
  let w := Sample.with_doc doc in
  let run := download_all_images (Sample.env []) Sample.downloader w in
  exists new,
    calls (snd run) = calls w ++ new /\
    forall u p,
      downloaded_images
        (match fst run with Done s => s | Raised _ => Sample.downloader end)
        !! u = Some p <->
      exists j, new !! j = Some (u, p) /\
                fetch_ok (Sample.env []) Sample.downloader
                  (length (calls w) + j) u p = true.
Proof.
  intros doc w run.
  apply (records_are_successful_fetches (Sample.env []) Sample.downloader
           (match fst run with Done s => s | Raised _ => Sample.downloader end)
           doc w (snd run)).
  - vm_compute. reflexivity.
  - reflexivity.
  - vm_compute. reflexivity.
Defined.

(** X5. Every record names a file that was written, up to the corrected
    extension: after a run of [download_all_images] on a fresh object, for
    every recorded path [p] the file [p] or the file [p.svg] exists. *)
Theorem recorded_file_exists (env : Env) (self self' : Downloader)
    (content : text) (w w' : world) (u p : text) :
  read_text w (markdown_file self) = Some content ->
  downloaded_images self = ∅ ->
  download_all_images env self w = (Done self', w') ->
  downloaded_images self' !! u = Some p ->
  is_Some (files w' !! p) \/ is_Some (files w' !! (p ++ txt ".svg")).
Proof.
  intros Hfile Hfresh Hrun.
  unfold download_all_images, extract_image_urls in Hrun.
  unfold_m. rewrite (read_text_file _ _ _ Hfile), Hfresh in Hrun.
  destruct (download_loop env self 0 (image_urls_of content) ∅ w)
    as [[d'|e] w1] eqn:Hloop; [|done].
  injection Hrun as <- <-. cbn [downloaded_images set_downloaded].
  refine (download_loop_files env self _ _ _ _ _ _ _ Hloop u p).
  intros u0 p0 H. by rewrite lookup_empty in H.
Qed.

Lemma recorded_file_exists_witness :
  let doc := txt "![logo](http://x/logo)" in
  let run := download_all_images (Sample.env []) Sample.downloader
               (Sample.with_doc doc) in
  is_Some (files (snd run) !! txt "images/doc/image_1f2b05b8.png") \/
  is_Some (files (snd run) !! (txt "images/doc/image_1f2b05b8.png" ++ txt ".svg")).
Proof.
  intros doc run.
  apply (recorded_file_exists (Sample.env []) Sample.downloader
           (match fst run with Done s => s | Raised _ => Sample.downloader end)
           doc (Sample.with_doc doc) (snd run) (txt "http://x/logo")).
  - vm_compute. reflexivity.
  - reflexivity.
  - vm_compute. reflexivity.
  - vm_compute. reflexivity.
Defined.

(** ** Where the files go *)

Section Prefixes.

Lemma startswith_iff (s l : text) :
  Py.startswith s l = true <-> exists r, s = l ++ r.
Proof.
  unfold Py.startswith. split.
  - destruct (Py.strip_prefix l s) as [r|] eqn:E; [|done].
    intros _. exists r. by apply strip_prefix_Some.
  - intros [r ->]. by rewrite strip_prefix_app.
Qed.

Lemma startswith_app_l (s a b : text) :
  Py.startswith s (a ++ b) = true -> Py.startswith s a = true.
Proof.
  rewrite !startswith_iff. intros [r ->]. exists (b ++ r).
  by rewrite <- app_assoc.
Qed.

Lemma startswith_app_r (s x l : text) :
  Py.startswith s l = true -> Py.startswith (s ++ x) l = true.
Proof.
  rewrite !startswith_iff. intros [r ->]. exists (r ++ x).
  by rewrite <- app_assoc.
Qed.

Lemma basename_from_no_slash (s acc : text) :
  ch "/" ∉ acc -> ch "/" ∉ Py.basename_from s acc.
Proof.
  revert acc; induction s as [|c s IH]; intros acc Hacc; simpl.
  - intros H. apply Hacc. apply list_elem_of_In, in_rev.
    by apply list_elem_of_In.
  - destruct (N.eqb_spec c (ch "/")) as [->|Hc].
    + apply IH. apply not_elem_of_nil.
    + apply IH. apply not_elem_of_cons. split; [by intros <-|done].
Qed.

(** The last segment of a path has no [/] in it. *)
Lemma basename_no_slash (p : text) : ch "/" ∉ Py.basename p.
Proof. apply basename_from_no_slash, not_elem_of_nil. Qed.

Lemma startswith_slash (b : text) :
  ch "/" ∉ b -> Py.startswith b (txt "/") = false.
Proof.
  intros H. destruct b as [|c b]; [done|].
  apply not_elem_of_cons in H as [Hc _].
  unfold Py.startswith. change (txt "/") with [ch "/"].
  cbn [Py.strip_prefix]. by destruct (N.eqb_spec (ch "/") c).
Qed.

(** Joining a directory and a name that is not absolute gives a path under
    the directory. *)
Lemma path_join_prefix (a b : text) :
  Py.startswith b (txt "/") = false ->
  Py.startswith (Py.path_join a b) a = true.
Proof.
  intros H. unfold Py.path_join. rewrite H.
  destruct (_ || _); apply startswith_app.
Qed.

Lemma generate_local_filename_prefix (env : Env) (self : Downloader)
    (url p : text) (index : nat) (w w' : world) :
  generate_local_filename env self url index w = (Done p, w') ->
  Py.startswith p (output_dir self) = true.
Proof.
  unfold generate_local_filename.
  destruct (urlparse_path env url) as [path|]; [|done].
  unfold_m. intros [= <- _]. apply path_join_prefix.
  destruct (Py.truthy path); [|reflexivity].
  destruct (negb _); [reflexivity|].
  apply startswith_slash, basename_no_slash.
Qed.

End Prefixes.

(** X6. Derived names stay under the output directory: whatever the URL,
    the path [generate_local_filename] returns starts with the output
    directory; no URL makes it an absolute path elsewhere. *)
Theorem local_filename_under_output_dir (env : Env) (self : Downloader)
    (url p : text) (index : nat) (w w' : world) :
  generate_local_filename env self url index w = (Done p, w') ->
  Py.startswith p (output_dir self) = true.
Proof. apply generate_local_filename_prefix. Qed.

Lemma local_filename_under_output_dir_witness :
  Py.startswith (txt "images/doc/c.gif") (output_dir Sample.downloader) = true.
Proof.
  apply (local_filename_under_output_dir (Sample.env []) Sample.downloader
           (txt "http://x//etc/c.gif") (txt "images/doc/c.gif") 0
           (World ∅ []) (World ∅ [])).
  vm_compute. reflexivity.
Defined.

Section Frames.

Context (env : Env).

Lemma svg_filename_prefix (resp : response) (url filename o : text) :
  Py.startswith filename o = true ->
  Py.startswith (svg_filename resp url filename) o = true.
Proof.
  intros H. destruct (svg_filename_cases resp url filename) as [->| ->];
    [done|by apply startswith_app_r].
Qed.

(** The loop writes under the output directory only. *)
Lemma download_loop_frame (self : Downloader) (urls : list text) :
  forall (i : nat) (d : gmap (list N) (list N)) (w w' : world)
         (r : outcome (gmap (list N) (list N))) (p : text),
    download_loop env self i urls d w = (r, w') ->
    Py.startswith p (output_dir self) = false ->
    files w' !! p = files w !! p.
Proof.
  induction urls as [|url rest IH]; intros i d w w' r p Hrun Hp.
  - by injection Hrun as <- <-.
  - simpl in Hrun. destruct (negb (Py.truthy (Py.strip url)));
      [by apply (IH _ _ _ _ _ _ Hrun)|].
    unfold_m.
    destruct (generate_local_filename env self url i w) as [[lp|e] w0] eqn:Hname.
    2: { injection Hrun as <- <-.
         by rewrite <- (generate_local_filename_pure env self url i w), Hname. }
    assert (w0 = w) as ->.
    { by rewrite <- (generate_local_filename_pure env self url i w), Hname. }
    destruct (d !! url); [by apply (IH _ _ _ _ _ _ Hrun)|].
    destruct (download_image_cases env self url lp w) as (fs & Heq & Hfs).
    rewrite Heq in Hrun.
    assert (fs !! p = files w !! p) as <-.
    { destruct Hfs as [->|(resolved & resp & _ & _ & _ & _ & ->)]; [done|].
      apply lookup_insert_ne. intros <-.
      rewrite svg_filename_prefix in Hp; [done|].
      by apply (generate_local_filename_prefix env self url lp i w w). }
    destruct (fetch_ok _ _ _ _ _);
      by rewrite (IH _ _ _ _ _ _ Hrun Hp).
Qed.

Lemma download_all_images_outside (self : Downloader)
    (w w' : world) (r : outcome Downloader) (p : text) :
  download_all_images env self w = (r, w') ->
  Py.startswith p (output_dir self) = false ->
  files w' !! p = files w !! p.
Proof.
  intros Hrun Hp.
  unfold download_all_images, extract_image_urls, read_file in Hrun.
  unfold_m.
  destruct (files w !! markdown_file self) as [bs|];
    [|by injection Hrun as _ <-].
  destruct (text_of_bytes bs) as [content|]; [|by injection Hrun as _ <-].
  destruct (download_loop env self 0 (image_urls_of content)
              (downloaded_images self) w) as [r1 w1] eqn:Hloop.
  assert (w' = w1) as -> by (by destruct r1; injection Hrun as _ <-).
  by apply (download_loop_frame self _ _ _ _ _ _ _ Hloop).
Qed.

End Frames.

(** X7. [download_all_images] writes under the output directory only:
    whether it ends normally or raises, every file whose path does not start
    with the output directory is as it was. *)
Theorem download_all_images_frame (env : Env) (self : Downloader)
    (w w' : world) (r : outcome Downloader) (p : text) :
  download_all_images env self w = (r, w') ->
  Py.startswith p (output_dir self) = false ->
  files w' !! p = files w !! p.
Proof. apply download_all_images_outside. Qed.

Lemma download_all_images_frame_witness :
  let doc := txt "![a](http://x/a.png)" in
  let run := download_all_images (Sample.env []) Sample.downloader
               (Sample.with_doc doc) in
  files (snd run) !! txt "source_markdowns/doc.md" =
  files (Sample.with_doc doc) !! txt "source_markdowns/doc.md".
Proof.
  intros doc run.
  apply (download_all_images_frame (Sample.env []) Sample.downloader
           (Sample.with_doc doc) (snd run) (fst run)).
  - vm_compute. reflexivity.
  - vm_compute. reflexivity.
Defined.

(** ** One document, and the batch *)

Section ProcessFacts.

Context (env : Env).

(** What [update_markdown_with_local_paths] does when it is given an output
    path. *)
Lemma update_spec (self : Downloader) (out : text) (w : world) :
  Py.truthy out = true ->
  update_markdown_with_local_paths env self (Some out) w =
  match files w !! markdown_file self with
  | None => (Raised (FileNotFoundError (markdown_file self)), w)
  | Some bs =>
      match text_of_bytes bs with
      | None => (Raised (UnicodeDecodeError (markdown_file self)), w)
      | Some content =>
          if can_write env out then
            match Codec.encode
                    (rewrite_content (downloaded_images self) content) with
            | Some obs =>
                (Done out, World (<[out := obs]> (files w)) (calls w))
            | None =>
                (Raised (UnicodeEncodeError out),
                 World (<[out := []]> (files w)) (calls w))
            end
          else (Raised (PermissionError out), w)
      end
  end.
Proof.
  intros Hout. unfold update_markdown_with_local_paths. rewrite Hout.
  unfold read_file, open_write, write_text. unfold_m.
  destruct (files w !! markdown_file self) as [bs|]; [|done].
  destruct (text_of_bytes bs) as [content|]; [|done].
  destruct (can_write env out); [|done].
  unfold put_file, append_file. cbn [files calls].
  destruct (Codec.encode _) as [obs|]; [|done]. cbn [files calls].
  by rewrite lookup_insert_eq, insert_insert_eq.
Qed.

(** It writes to the output path only. *)
Lemma update_frame (self : Downloader) (out p : text) (w w' : world)
    (r : outcome (list N)) :
  Py.truthy out = true ->
  update_markdown_with_local_paths env self (Some out) w = (r, w') ->
  p <> out ->
  files w' !! p = files w !! p.
Proof.
  intros Hout Hrun Hp. rewrite update_spec in Hrun by done.
  destruct (files w !! markdown_file self) as [bs|];
    [|by injection Hrun as _ <-].
  destruct (text_of_bytes bs) as [content|]; [|by injection Hrun as _ <-].
  destruct (can_write env out); [|by injection Hrun as _ <-].
  destruct (Codec.encode _); injection Hrun as _ <-;
    by apply lookup_insert_ne.
Qed.

(** The object [main] makes for a path. *)
Lemma process_spec (path : text) (w : world) :
  process env path w =
  if can_makedirs env (images_dir_of path) then
    match download_all_images env
            {| markdown_file := source_of path;
               output_dir := images_dir_of path;
               base_url := None; downloaded_images := ∅ |} w with
    | (Done downloader, w1) =>
        match update_markdown_with_local_paths env downloader
                (Some (output_of path)) w1 with
        | (Done _, w2) => (Done tt, w2)
        | (Raised e, w2) => (Raised e, w2)
        end
    | (Raised e, w1) => (Raised e, w1)
    end
  else (Raised (PermissionError (images_dir_of path)), w).
Proof.
  unfold process, init, makedirs. unfold_m.
  destruct (can_makedirs env (images_dir_of path)); [|done].
  destruct (download_all_images env _ w) as [[downloader|e] w1]; [|done].
  by destruct (update_markdown_with_local_paths env downloader _ w1)
    as [[o|e] w2].
Qed.

(** [download_all_images] once the document has been read. *)
Lemma download_all_images_read (self : Downloader) (content : text)
    (w : world) :
  read_text w (markdown_file self) = Some content ->
  download_all_images env self w =
  match download_loop env self 0 (image_urls_of content)
          (downloaded_images self) w with
  | (Done d, w1) => (Done (set_downloaded self d), w1)
  | (Raised e, w1) => (Raised e, w1)
  end.
Proof.
  intros Hsrc. unfold download_all_images, extract_image_urls. unfold_m.
  by rewrite (read_text_file _ _ _ Hsrc).
Qed.

(** The same once the document has been read. *)
Lemma process_read (path content : text) (w : world) :
  can_makedirs env (images_dir_of path) = true ->
  read_text w (source_of path) = Some content ->
  process env path w =
  match download_loop env (downloader_of path) 0 (image_urls_of content) ∅ w
  with
  | (Done d, w1) =>
      match update_markdown_with_local_paths env
              (set_downloaded (downloader_of path) d)
              (Some (output_of path)) w1 with
      | (Done _, w2) => (Done tt, w2)
      | (Raised e, w2) => (Raised e, w2)
      end
  | (Raised e, w1) => (Raised e, w1)
  end.
Proof.
  intros Hdir Hsrc. rewrite process_spec, Hdir. fold (downloader_of path).
  unfold download_all_images, extract_image_urls. unfold_m.
  change (markdown_file (downloader_of path)) with (source_of path).
  change (downloaded_images (downloader_of path)) with (∅ : gmap (list N) (list N)).
  rewrite (read_text_file _ _ _ Hsrc).
  by destruct (download_loop env (downloader_of path) 0
                 (image_urls_of content) ∅ w) as [[d|e] w1].
Qed.

Lemma download_all_images_file (self self' : Downloader) (w w' : world) :
  download_all_images env self w = (Done self', w') ->
  markdown_file self' = markdown_file self /\
  output_dir self' = output_dir self.
Proof.
  unfold download_all_images. unfold_m.
  destruct (extract_image_urls self w) as [[urls|e] w0]; [|done].
  destruct (download_loop env self 0 urls (downloaded_images self) w0)
    as [[d|e] w1]; [|done].
  by intros [= <- _].
Qed.

Lemma output_of_truthy (path : text) : Py.truthy (output_of path) = true.
Proof. reflexivity. Qed.

(** Processing a document changes files under its image directory and its
    output file only. *)
Lemma process_frame (path p : text) (w w' : world) (r : outcome unit) :
  process env path w = (r, w') ->
  Py.startswith p (images_dir_of path) = false ->
  p <> output_of path ->
  files w' !! p = files w !! p.
Proof.
  rewrite process_spec. intros Hrun Himg Hout.
  destruct (can_makedirs env (images_dir_of path));
    [|by injection Hrun as _ <-].
  destruct (download_all_images env _ w) as [[self1|e] w1] eqn:Hdl.
  2: { injection Hrun as _ <-.
       exact (download_all_images_outside env _ w w1 (Raised e) p Hdl Himg). }
  assert (files w1 !! p = files w !! p) as <-.
  { exact (download_all_images_outside env _ w w1 (Done self1) p Hdl Himg). }
  destruct (update_markdown_with_local_paths env self1 _ w1)
    as [[o|e] w2] eqn:Hup; injection Hrun as _ <-;
    exact (update_frame _ _ _ _ _ _ (output_of_truthy path) Hup
             (not_eq_sym (not_eq_sym Hout))).
Qed.

Lemma for_each_frame (paths : list text) :
  forall (w w' : world) (r : outcome unit) (p : text),
    for_each env paths w = (r, w') ->
    Py.startswith p (txt "images/") = false ->
    Py.startswith p (txt "output/") = false ->
    files w' !! p = files w !! p.
Proof.
  induction paths as [|path rest IH]; intros w w' r p Hrun Himg Hout.
  - by injection Hrun as _ <-.
  - simpl in Hrun. unfold_m.
    destruct (process env path w) as [[[]|e] w1] eqn:Hp.
    + rewrite (IH _ _ _ _ Hrun Himg Hout).
      apply (process_frame path p w w1 (Done tt) Hp).
      * destruct (Py.startswith p (images_dir_of path)) eqn:E; [|done].
        by rewrite (startswith_app_l _ _ _ E) in Himg.
      * intros ->. unfold output_of in Hout.
        by rewrite startswith_app in Hout.
    + injection Hrun as _ <-.
      apply (process_frame path p w w1 (Raised e) Hp).
      * destruct (Py.startswith p (images_dir_of path)) eqn:E; [|done].
        by rewrite (startswith_app_l _ _ _ E) in Himg.
      * intros ->. unfold output_of in Hout.
        by rewrite startswith_app in Hout.
Qed.

End ProcessFacts.

(** X8. [main] writes under [images/] and [output/] only.  Whether the
    batch ends normally or raises, every file whose path starts with neither
    is as it was; in particular no source document is ever modified. *)
Theorem main_frame (env : Env) (w w' : world) (r : outcome unit) (p : text) :
  main env w = (r, w') ->
  Py.startswith p (txt "images/") = false ->
  Py.startswith p (txt "output/") = false ->
  files w' !! p = files w !! p.
Proof. apply for_each_frame. Qed.

Lemma main_frame_witness :
  let env := Sample.env [txt "source_markdowns/doc.md"] in
  let w := Sample.with_doc (txt "![a](http://x/a.png)") in
  files (snd (main env w)) !! txt "source_markdowns/doc.md" =
  files w !! txt "source_markdowns/doc.md".
Proof.
  intros env w.
  apply (main_frame env w (snd (main env w)) (fst (main env w))).
  - vm_compute. reflexivity.
  - vm_compute. reflexivity.
  - vm_compute. reflexivity.
Defined.

Section Completion.

Context (env : Env).

(** No file is ever removed. *)
Lemma download_loop_keeps (self : Downloader) (urls : list text) :
  forall (i : nat) (d : gmap (list N) (list N)) (w w' : world)
         (r : outcome (gmap (list N) (list N))) (p : text),
    download_loop env self i urls d w = (r, w') ->
    is_Some (files w !! p) -> is_Some (files w' !! p).
Proof.
  induction urls as [|url rest IH]; intros i d w w' r p Hrun Hp.
  - by injection Hrun as <- <-.
  - simpl in Hrun. destruct (negb (Py.truthy (Py.strip url)));
      [by apply (IH _ _ _ _ _ _ Hrun)|].
    unfold_m.
    destruct (generate_local_filename env self url i w) as [[lp|e] w0] eqn:Hname.
    all: assert (w0 = w) as ->
      by (by rewrite <- (generate_local_filename_pure env self url i w), Hname).
    2: by injection Hrun as <- <-.
    destruct (d !! url); [by apply (IH _ _ _ _ _ _ Hrun)|].
    destruct (download_image_cases env self url lp w) as (fs & Heq & Hfs).
    rewrite Heq in Hrun.
    assert (is_Some (fs !! p)) as Hp'.
    { destruct Hfs as [->|(resolved & resp & _ & _ & _ & _ & ->)]; [done|].
      apply lookup_insert_is_Some.
      destruct (decide (svg_filename resp resolved lp = p)); [by left|by right]. }
    destruct (fetch_ok _ _ _ _ _); by apply (IH _ _ _ _ _ _ Hrun).
Qed.

(** What rewriting puts into a text comes from the text or from the
    recorded paths. *)
Lemma scan_Forall (P : N -> Prop) (pat : pattern) (s : text) :
  Forall P s ->
  forall skip pc, pc ∈ scan pat s skip ->
    match pc with
    | Plain c => P c
    | Hit whole gs => Forall P whole /\ Forall (Forall P) gs
    end.
Proof.
  induction s as [|c s IH]; intros Hs skip pc Hin;
    [by apply elem_of_nil in Hin|].
  inversion Hs as [|? ? Hc Hs']; subst. cbn [scan] in Hin.
  destruct skip as [|k]; [|by apply (IH Hs' k)].
  destruct (match_at pat (c :: s)) as [[[|n] spans]|].
  1,3: apply elem_of_cons in Hin as [->|Hin]; [done|by apply (IH Hs' 0)].
  apply elem_of_cons in Hin as [->|Hin]; [|by apply (IH Hs' n)].
  split; [by apply Forall_take|].
  apply Forall_forall. intros g [sp [-> _]]%list_elem_of_fmap.
  unfold slice. by apply Forall_take, Forall_drop.
Qed.

Lemma sub_Forall (P : N -> Prop) (pat : pattern)
    (repl : text -> list text -> text) (s : text) :
  Forall P s ->
  (forall whole gs, Forall P whole -> Forall (Forall P) gs ->
                    Forall P (repl whole gs)) ->
  Forall P (sub pat repl s).
Proof.
  intros Hs Hrepl. unfold sub, finditer.
  pose proof (scan_Forall P pat s Hs 0) as Hsc.
  induction (scan pat s 0) as [|pc pcs IH]; [done|].
  cbn [flat_map]. apply Forall_app. split.
  - specialize (Hsc pc ltac:(by left)).
    destruct pc as [c|whole gs]; cbn [render];
      [by repeat constructor|]. destruct Hsc. by apply Hrepl.
  - apply IH. intros pc' Hin. apply Hsc. by right.
Qed.

Lemma replace_from_Forall (P : N -> Prop) (old new s : text) :
  Forall P new -> Forall P s ->
  forall skip, Forall P (Py.replace_from old new s skip).
Proof.
  intros Hnew. induction 1 as [|c s Hc Hs IH]; intros skip; [done|].
  cbn [Py.replace_from]. destruct skip; [|done].
  destruct (Py.startswith (c :: s) old); [by apply Forall_app|].
  by constructor.
Qed.

Lemma replace_Forall (P : N -> Prop) (s old new : text) :
  Forall P new -> Forall P s -> Forall P (Py.replace s old new).
Proof.
  intros Hnew Hs. unfold Py.replace. destruct old.
  - apply Forall_app. split; [|done].
    induction Hs as [|c s Hc Hs IH]; [done|]. cbn [flat_map].
    rewrite !Forall_app. by repeat split; [|repeat constructor|].
  - by apply replace_from_Forall.
Qed.

Lemma group_Forall (P : N -> Prop) (i : nat) (gs : list text) :
  Forall (Forall P) gs -> Forall P (group i gs).
Proof.
  intros H. unfold group. revert gs H.
  induction (i - 1) as [|n IH]; intros [|g gs] H; cbn [nth]; try done.
  - by inversion H.
  - apply IH. by inversion H.
Qed.

Lemma rewrite_scalar (d : gmap (list N) (list N)) (content : text) :
  Forall (fun c => scalar c = true) content ->
  (forall u p, d !! u = Some p -> Forall (fun c => scalar c = true) p) ->
  Forall (fun c => scalar c = true) (rewrite_content d content).
Proof.
  intros Hc Hd. unfold rewrite_content, html_pass, markdown_pass.
  apply sub_Forall; [apply sub_Forall; [done|]|].
  - intros whole gs Hw Hgs. unfold markdown_replacer.
    destruct (d !! group 2 gs) as [p|] eqn:E; [|done].
    rewrite !Forall_app. repeat split; try (by repeat constructor).
    + destruct (Py.truthy (group 1 gs)); [by apply group_Forall|done].
    + by apply (Hd _ _ E).
  - intros whole gs Hw Hgs. unfold html_replacer.
    destruct (d !! group 1 gs) as [p|] eqn:E; [|done].
    apply replace_Forall; [by apply (Hd _ _ E)|done].
Qed.

(** A readable document whose directories can be made and whose output can
    be written is processed to the end, whatever the fetches do, when
    [urlparse] accepts its references and the names derived for them can be
    encoded. *)
Lemma process_completes (path content : text) (w : world) :
  can_makedirs env (images_dir_of path) = true ->
  can_write env (output_of path) = true ->
  read_text w (source_of path) = Some content ->
  (forall u, u ∈ image_urls_of content -> Py.strip u <> [] ->
     urlparse_path env u <> None) ->
  (forall u i p w0, u ∈ image_urls_of content ->
     generate_local_filename env (downloader_of path) u i w0 = (Done p, w0) ->
     Forall (fun c => scalar c = true) p) ->
  exists w',
    process env path w = (Done tt, w') /\
    is_Some (files w' !! output_of path) /\
    (forall p, is_Some (files w !! p) -> is_Some (files w' !! p)).
Proof.
  intros Hdir Hout Hsrc Hparse Hnames.
  rewrite (process_read env path content w Hdir Hsrc).
  destruct (download_loop_total env (downloader_of path)
              (image_urls_of content) 0 ∅ w Hparse) as (d' & w1 & Hloop).
  rewrite Hloop.
  assert (forall p, is_Some (files w !! p) -> is_Some (files w1 !! p)) as Hkeep.
  { intros p. by apply (download_loop_keeps _ _ _ _ _ _ _ _ Hloop). }
  rewrite update_spec by apply output_of_truthy.
  cbn [markdown_file set_downloaded downloaded_images downloader_of].
  rewrite (download_loop_frame env _ _ _ _ _ _ _ (source_of path) Hloop)
    by reflexivity.
  unfold read_text in Hsrc.
  destruct (files w !! source_of path) as [bs|] eqn:Hbs; [|done].
  cbn in Hsrc. rewrite Hsrc, Hout.
  assert (is_Some (Codec.encode (rewrite_content d' content))) as [obs ->].
  { apply encode_Forall, rewrite_scalar.
    - apply (read_text_scalar w (source_of path)).
      unfold read_text. by rewrite Hbs.
    - intros u p Hd.
      destruct (download_loop_record_names env _ _ _ _ _ _ _ Hloop u p Hd)
        as [Hd0|(Hu & j & Hname)]; [by rewrite lookup_empty in Hd0|].
      exact (Hnames u j p w Hu (Hname w)). }
  eexists. split; [done|]. cbn [files]. split.
  - rewrite lookup_insert_eq. by eexists.
  - intros p Hp. apply lookup_insert_is_Some.
    destruct (decide (output_of path = p)); [by left|right].
    split; [done|by apply Hkeep].
Qed.

Lemma for_each_completes (paths : list text) :
  forall w : world,
    (forall path, path ∈ paths ->
       can_makedirs env (images_dir_of path) = true /\
       can_write env (output_of path) = true /\
       exists content,
         read_text w (source_of path) = Some content /\
         (forall u, u ∈ image_urls_of content -> Py.strip u <> [] ->
            urlparse_path env u <> None) /\
         (forall u i p w0, u ∈ image_urls_of content ->
            generate_local_filename env (downloader_of path) u i w0
            = (Done p, w0) ->
            Forall (fun c => scalar c = true) p)) ->
    exists w',
      for_each env paths w = (Done tt, w') /\
      (forall path, path ∈ paths -> is_Some (files w' !! output_of path)) /\
      (forall p, is_Some (files w !! p) -> is_Some (files w' !! p)).
Proof.
  induction paths as [|path rest IH]; intros w Hall.
  - exists w. split; [done|]. split; [|done].
    intros path H. by apply elem_of_nil in H.
  - destruct (Hall path) as (Hdir & Hout & content & Hsrc & Hparse & Hnames);
      [by left|].
    destruct (process_completes path content w Hdir Hout Hsrc Hparse Hnames)
      as (w1 & Hp & Hfile & Hkeep).
    destruct (IH w1) as (w' & Hrest & Hfiles & Hkeep').
    { intros path' Hin.
      destruct (Hall path') as (? & ? & content' & Hsrc' & ? & ?);
        [by right|].
      split; [done|]. split; [done|]. exists content'. split; [|done].
      rewrite <- Hsrc'. apply read_text_frame.
      apply (process_frame env path _ w w1 (Done tt) Hp); [reflexivity|].
      intros Heq.
      assert (Py.startswith (source_of path') (txt "output/") = true) as Hpre
        by (rewrite Heq; apply startswith_app).
      done. }
    exists w'. simpl. unfold_m. rewrite Hp. split; [done|]. split.
    + intros path' [->|Hin]%elem_of_cons; [by apply Hkeep'|by apply Hfiles].
    + intros p Hp'. by apply Hkeep', Hkeep.
Qed.

End Completion.

(** X9. The batch ends normally whatever the network does.  If, for every
    listed document, the image directory can be made, the output file can be
    opened, the file [main] opens for it is UTF-8, [urlparse] accepts the
    references extracted from its text that are not blank, and the names
    derived for its references can be encoded (hold no lone surrogate),
    then [main] ends without raising and leaves an output file for every
    listed document; no failed request, error status or broken stream stops
    it. *)
Theorem main_completes (env : Env) (w : world) :
  (forall path, path ∈ find_markdown_files env ->
     can_makedirs env (images_dir_of path) = true /\
     can_write env (output_of path) = true /\
     exists content,
       read_text w (source_of path) = Some content /\
       (forall u, u ∈ image_urls_of content -> Py.strip u <> [] ->
          urlparse_path env u <> None) /\
       (forall u i p w0, u ∈ image_urls_of content ->
          generate_local_filename env (downloader_of path) u i w0
          = (Done p, w0) ->
          Forall (fun c => scalar c = true) p)) ->
  exists w',
    main env w = (Done tt, w') /\
    forall path, path ∈ find_markdown_files env ->
                 is_Some (files w' !! output_of path).
Proof.
  intros Hall.
  destruct (for_each_completes env (find_markdown_files env) w Hall)
    as (w' & Hrun & Hfiles & _).
  by exists w'.
Qed.

Lemma main_completes_witness :
  let env := Worlds.offline
               [txt "source_markdowns/doc.md"; txt "source_markdowns/c.md"] in
  let w := World {[ txt "source_markdowns/doc.md" := txt "![a](http://x/a.png)";
                    txt "source_markdowns/c.md" := qtxt "<img src='c.gif'>" ]}
                 [] in
  urlparse_path env (txt "http://[") = None /\
  exists w',
    main env w = (Done tt, w') /\
    forall path, path ∈ find_markdown_files env ->
                 is_Some (files w' !! output_of path).
Proof.
  intros env w. split; [reflexivity|]. apply (main_completes env w).
  intros path H. list_cases H; subst path.
  - split; [reflexivity|]. split; [reflexivity|].
    exists (txt "![a](http://x/a.png)"). split; [vm_compute; reflexivity|].
    split.
    + intros u Hu _. list_cases Hu. subst u. by vm_compute.
    + intros u i p w0 Hu Hname. list_cases Hu. subst u.
      injection Hname as <-. apply Forall_forall. intros c Hc.
      list_cases Hc; subst c; reflexivity.
  - split; [reflexivity|]. split; [reflexivity|].
    exists (qtxt "<img src='c.gif'>"). split; [vm_compute; reflexivity|].
    split.
    + intros u Hu _. list_cases Hu. subst u. by vm_compute.
    + intros u i p w0 Hu Hname. list_cases Hu. subst u.
      injection Hname as <-. apply Forall_forall. intros c Hc.
      list_cases Hc; subst c; reflexivity.
Defined.

(** ** The name under which a document is opened *)

Section SourceNames.

Lemma basename_from_slash (x s acc : text) :
  Py.basename_from (x ++ ch "/" :: s) acc = Py.basename_from s [].
Proof.
  revert acc; induction x as [|c x IH]; intros acc.
  - reflexivity.
  - cbn [app Py.basename_from]. by destruct (N.eqb c (ch "/")).
Qed.

Lemma basename_from_segment (s acc : text) :
  ch "/" ∉ s -> Py.basename_from s acc = rev acc ++ s.
Proof.
  revert acc; induction s as [|c s IH]; intros acc Hs.
  - cbn [Py.basename_from]. by rewrite app_nil_r.
  - apply not_elem_of_cons in Hs as [Hc Hs]. cbn [Py.basename_from].
    destruct (N.eqb_spec c (ch "/")) as [->|_]; [done|].
    rewrite (IH _ Hs). cbn [rev]. by rewrite <- app_assoc.
Qed.

(** The last segment of a path that ends in [/name]. *)
Lemma basename_segment (x name : text) :
  ch "/" ∉ name -> Py.basename (x ++ ch "/" :: name) = name.
Proof.
  intros H. unfold Py.basename.
  by rewrite basename_from_slash, basename_from_segment.
Qed.

Lemma replace_char_id (a b : N) (s : text) :
  a ∉ s -> Py.replace_char a b s = s.
Proof.
  induction s as [|c s IH]; [done|].
  intros [Hc Hs]%not_elem_of_cons. unfold Py.replace_char in *.
  cbn [map]. rewrite (IH Hs).
  by destruct (N.eqb_spec c a) as [->|_].
Qed.

Lemma replace_char_gone (a b : N) (s : text) :
  a <> b -> a ∉ Py.replace_char a b s.
Proof.
  intros Hab. induction s as [|c s IH]; [apply not_elem_of_nil|].
  unfold Py.replace_char in *. cbn [map]. apply not_elem_of_cons.
  split; [|done]. destruct (N.eqb_spec c a) as [->|Hc]; [done|by intros <-].
Qed.

End SourceNames.

(** X10. The document [main] opens is the document that was listed exactly
    when its file name has no space: for a listed path
    [source_markdowns/name], made absolute with the current directory, the
    path opened is [source_markdowns/name] again if and only if [name] has
    no space in it (a space is replaced by an underscore, and another file,
    or none, is opened). *)
Theorem source_path_round_trip (env : Env) (name : text) :
  ch "/" ∉ name ->
  source_of (Py.path_join (cwd env) (txt "source_markdowns/" ++ name))
  = txt "source_markdowns/" ++ name
  <-> ch " " ∉ name.
Proof.
  intros Hname.
  assert (Py.basename (Py.path_join (cwd env) (txt "source_markdowns/" ++ name))
          = name) as Hbase.
  { unfold Py.path_join.
    replace (Py.startswith (txt "source_markdowns/" ++ name) (txt "/"))
      with false by reflexivity.
    change (txt "source_markdowns/" ++ name)
      with (txt "source_markdowns" ++ ch "/" :: name).
    destruct (_ || _); rewrite ?app_assoc; by apply basename_segment. }
  unfold source_of, f_name_of. rewrite Hbase. split.
  - intros H%app_inv_head. rewrite <- H. by apply replace_char_gone.
  - intros H. by rewrite replace_char_id.
Qed.

Lemma source_path_round_trip_witness :
  source_of (Py.path_join (cwd (Sample.env [])) (txt "source_markdowns/" ++ txt "a b.md"))
  = txt "source_markdowns/" ++ txt "a b.md"
  <-> ch " " ∉ txt "a b.md".
Proof.
  apply (source_path_round_trip (Sample.env []) (txt "a b.md")).
  intros H. list_cases H.
Defined.

(** ** Documents without images *)

Section PlainText.

(** A pattern that starts with a literal finds nothing in a text in which
    the literal does not occur. *)
Lemma scan_no_literal (l : text) (rest : pattern) (s : text) :
  Py.contains l s = false ->
  scan (Lit l :: rest) s 0 = map Plain s.
Proof.
  induction s as [|c s IH]; [done|].
  intros [Hc Hs]%contains_cons. cbn [scan map].
  unfold match_at. cbn [run]. unfold lit.
  unfold Py.startswith in Hc.
  destruct (Py.strip_prefix l (c :: s)); [done|].
  by rewrite (IH Hs).
Qed.

Lemma findall_no_literal (l : text) (rest : pattern) (s : text) :
  Py.contains l s = false -> findall (Lit l :: rest) s = [].
Proof.
  intros H. unfold findall, finditer. rewrite scan_no_literal by done.
  clear H. induction s as [|c s IH]; [done|]. cbn [map flat_map app]. exact IH.
Qed.

Lemma sub_no_literal (l : text) (rest : pattern)
    (repl : text -> list text -> text) (s : text) :
  Py.contains l s = false -> sub (Lit l :: rest) repl s = s.
Proof.
  intros H. unfold sub, finditer. rewrite scan_no_literal by done.
  clear H. induction s as [|c s IH]; [done|]. cbn [map flat_map render app].
  by rewrite IH.
Qed.

End PlainText.

(** X11. A document without image syntax is copied.  If the text read from
    the document holds neither [![] nor [<img], processing the document
    fetches nothing, whatever the network would answer, and writes that
    text, encoded, to the output file.  The output file holds the very bytes
    of the source when the source has no carriage return in it; a [\r\n] or
    a [\r] of the source is written as [\n]. *)
Theorem plain_document_copied (env : Env) (path bs content : text)
    (w : world) :
  files w !! source_of path = Some bs ->
  text_of_bytes bs = Some content ->
  Py.contains (txt "![") content = false ->
  Py.contains (txt "<img") content = false ->
  can_makedirs env (images_dir_of path) = true ->
  can_write env (output_of path) = true ->
  exists out,
    Codec.encode content = Some out /\
    process env path w =
    (Done tt, World (<[output_of path := out]> (files w)) (calls w)) /\
    (ch "013" ∉ bs -> out = bs).
Proof.
  intros Hbs Htext Hmd Himg Hdir Hout.
  assert (read_text w (source_of path) = Some content) as Hsrc
    by (unfold read_text; by rewrite Hbs).
  destruct (proj2 (encode_Forall content) (read_text_scalar _ _ _ Hsrc))
    as [out Henc].
  exists out. split; [done|]. split.
  - rewrite (process_read env path content w Hdir Hsrc).
    assert (image_urls_of content = []) as ->.
    { unfold image_urls_of, markdown_pattern, html_pattern,
        self_closing_pattern.
      by rewrite !findall_no_literal. }
    cbn [download_loop]. unfold_m.
    rewrite update_spec by apply output_of_truthy.
    cbn [markdown_file downloaded_images set_downloaded downloader_of].
    rewrite Hbs, Htext, Hout.
    assert (rewrite_content ∅ content = content) as ->; [|by rewrite Henc].
    unfold rewrite_content, markdown_pass, html_pass.
    unfold markdown_sub_pattern, html_sub_pattern.
    rewrite (sub_no_literal (txt "![")) by done.
    by rewrite sub_no_literal.
  - intros Hcr. unfold text_of_bytes in Htext.
    destruct (Codec.decode bs) as [t|] eqn:Hdec; [|done].
    injection Htext as <-. apply decode_encode in Hdec.
    rewrite universal_newlines_id in Henc; [congruence|].
    intros Hin. apply Hcr. by apply (encode_ascii_elem t).
Qed.

Lemma plain_document_copied_witness :
  let env := Sample.env [txt "source_markdowns/doc.md"] in
  let bs := txt "# Title" ++ [ch "013"; ch "010"]
              ++ txt "and a [link](http://x/a.png)!" in
  let w := Sample.with_doc bs in
  exists out,
    Codec.encode (txt "# Title" ++ [ch "010"]
                    ++ txt "and a [link](http://x/a.png)!") = Some out /\
    process env (txt "/repo/source_markdowns/doc.md") w =
    (Done tt,
     World (<[output_of (txt "/repo/source_markdowns/doc.md") := out]>
              (files w)) (calls w)) /\
    (ch "013" ∉ bs -> out = bs).
Proof.
  intros env bs w.
  apply (plain_document_copied env (txt "/repo/source_markdowns/doc.md") bs
           (txt "# Title" ++ [ch "010"] ++ txt "and a [link](http://x/a.png)!")
           w);
    vm_compute; reflexivity.
Defined.

(** ** The extractor and the rewriter on inline links *)

Section InlineLinks.

(** Two continuations that agree up to a relation on their results keep
    agreeing under a lazy quantifier and under a literal. *)
Lemma lazy_star_rel (R : mresult -> mresult -> Prop) (p : N -> bool)
    (k1 k2 : cont) (st1 st2 : mstate) :
  (forall pos s, option_Forall2 R (k1 pos s st1) (k2 pos s st2)) ->
  forall pos s,
    option_Forall2 R (lazy_star p k1 pos s st1) (lazy_star p k2 pos s st2).
Proof.
  intros H pos s. revert pos; induction s as [|c s IH]; intros pos;
    cbn [lazy_star].
  - destruct (H pos []); by constructor.
  - destruct (H pos (c :: s)); [by constructor|].
    destruct (p c); [apply IH|constructor].
Qed.

Lemma lit_rel (R : mresult -> mresult -> Prop) (l : text)
    (k1 k2 : cont) (st1 st2 : mstate) :
  (forall pos s, option_Forall2 R (k1 pos s st1) (k2 pos s st2)) ->
  forall pos s, option_Forall2 R (lit l k1 pos s st1) (lit l k2 pos s st2).
Proof.
  intros H pos s. unfold lit. destruct (Py.strip_prefix l s); [apply H|].
  constructor.
Qed.

(** The part of the inline-link patterns from [](] on gives the same match
    whatever groups were closed before, and lists them first. *)
Lemma link_target_rel (c : list (nat * nat)) (pos : nat) (s : text) :
  option_Forall2 (fun r1 r2 => fst r2 = fst r1 /\ snd r2 = rev c ++ snd r1)
    (run [Lit (txt "]("); GOpen; Lazy0 dot; GClose; Lit (txt ")")] pos s
       ([], []))
    (run [Lit (txt "]("); GOpen; Lazy0 dot; GClose; Lit (txt ")")] pos s
       ([], c)).
Proof.
  cbn [run]. unfold lit at 1 3.
  destruct (Py.strip_prefix (txt "](") s) as [s1|]; [|constructor].
  unfold gopen. cbn [fst snd].
  apply lazy_star_rel. intros pos1 s2. unfold gclose. cbn [fst snd].
  unfold lit. destruct (Py.strip_prefix (txt ")") s2); [|constructor].
  constructor. unfold accept. cbn [fst snd rev]. split; [done|].
  by rewrite app_nil_l.
Qed.

(** The two inline-link patterns match at the same places, with the same
    end; the rewriter's has the alt text as one more group in front. *)
Lemma markdown_patterns_rel (s : text) :
  option_Forall2
    (fun r1 r2 => fst r2 = fst r1 /\ exists sp, snd r2 = sp :: snd r1)
    (match_at markdown_pattern s) (match_at markdown_sub_pattern s).
Proof.
  unfold match_at, markdown_pattern, markdown_sub_pattern.
  change (run (Lit (txt "![") :: ?r)) with (lit (txt "![") (run r)).
  unfold lit at 1 2.
  destruct (Py.strip_prefix (txt "![") s) as [s1|]; [|constructor].
  change (run (GOpen :: ?r)) with (gopen (run r)).
  change (run (Lazy0 dot :: ?r)) with (lazy_star dot (run r)).
  change (run (GClose :: ?r)) with (gclose (run r)).
  unfold gopen at 1. cbn [fst snd].
  apply lazy_star_rel. intros pos s2. unfold gclose at 1. cbn [fst snd].
  destruct (link_target_rel [(0 + length (txt "!["), pos)] pos s2)
    as [r1 r2 [He Hs]|]; constructor.
  split; [done|]. eexists. exact Hs.
Qed.

Lemma scan_markdown_rel (s : text) :
  forall skip,
    flat_map (fun pc => match pc with
                        | Hit _ gs => [group 1 gs]
                        | Plain _ => []
                        end) (scan markdown_pattern s skip) =
    flat_map (fun pc => match pc with
                        | Hit _ gs => [group 2 gs]
                        | Plain _ => []
                        end) (scan markdown_sub_pattern s skip).
Proof.
  induction s as [|c s IH]; intros skip; [done|]. cbn [scan].
  destruct skip as [|skip]; [|apply IH].
  destruct (markdown_patterns_rel (c :: s))
    as [[e1 sp1] [e2 sp2] [He [sp Hs]]|]; [|cbn [flat_map app]; apply IH].
  cbn [fst snd] in He, Hs. subst e2 sp2.
  destruct e1 as [|n]; cbn [flat_map app]; [apply IH|].
  by rewrite IH.
Qed.

End InlineLinks.

(** X12. The extractor and the rewriter agree on inline links: the targets
    the extractor's inline-link search yields are, one for one and in the
    same order, the targets of the inline links the rewriter visits. *)
Theorem inline_links_extracted_are_rewritten (content : text) :
  findall markdown_pattern content =
  flat_map (fun pc => match pc with
                      | Hit _ gs => [group 2 gs]
                      | Plain _ => []
                      end) (finditer markdown_sub_pattern content).
Proof. apply scan_markdown_rel. Qed.

(** ** An occurrence among plain text *)

Section Occurrences.

Lemma contains_char (a : N) (s : text) : Py.contains [a] s = false -> a ∉ s.
Proof.
  induction s as [|c s IH]; [intros _; apply not_elem_of_nil|].
  intros [Hc Hs]%contains_cons. apply not_elem_of_cons. split; [|by apply IH].
  intros ->. unfold Py.startswith in Hc. cbn [Py.strip_prefix] in Hc.
  by rewrite N.eqb_refl in Hc.
Qed.

(** The scan passes over characters that cannot start a match. *)
Lemma scan_plain_prefix (a : N) (l : text) (pat : pattern) (pre s : text) :
  head pat = Some (Lit l) -> head l = Some a -> a ∉ pre ->
  scan pat (pre ++ s) 0 = map Plain pre ++ scan pat s 0.
Proof.
  intros Hpat Hl. destruct pat as [|? rest]; [done|]. injection Hpat as ->.
  destruct l as [|a' l]; [done|]. injection Hl as ->.
  induction pre as [|c pre IH]; [done|].
  intros [Hc Hpre]%not_elem_of_cons. cbn [app scan map].
  unfold match_at. cbn [run]. unfold lit. cbn [Py.strip_prefix].
  destruct (N.eqb_spec a c) as [->|_]; [done|]. by rewrite (IH Hpre).
Qed.

(** After a match the scan resumes behind it. *)
Lemma scan_skip (pat : pattern) (x s : text) :
  scan pat (x ++ s) (length x) = scan pat s 0.
Proof. induction x as [|c x IH]; [by destruct s|exact IH]. Qed.

Lemma scan_hit_at (pat : pattern) (x s : text) (spans : list (nat * nat)) :
  x <> [] ->
  match_at pat (x ++ s) = Some (length x, spans) ->
  scan pat (x ++ s) 0 = Hit x (map (slice (x ++ s)) spans) :: scan pat s 0.
Proof.
  intros Hx Hm. destruct x as [|c x]; [done|].
  cbn [app scan]. cbn [app] in Hm. rewrite Hm. cbn [length].
  rewrite scan_skip. f_equal. f_equal.
  change (c :: x ++ s) with ((c :: x) ++ s).
  by rewrite take_app_length' by done.
Qed.

(** A lazy quantifier goes on over the characters of its class as long as
    what follows in the pattern cannot start. *)
Lemma lazy_star_forward (p : N -> bool) (k : cont) (a : N) (y s : text)
    (pos : nat) (st : mstate) :
  (forall pos c s, c <> a -> k pos (c :: s) st = None) ->
  Forall (fun c => p c = true) y -> a ∉ y ->
  lazy_star p k pos (y ++ s) st = lazy_star p k (pos + length y) s st.
Proof.
  intros Hk. revert pos; induction y as [|c y IH]; intros pos Hy Ha.
  - by rewrite Nat.add_0_r.
  - inversion Hy as [|? ? Hc Hy']; subst.
    apply not_elem_of_cons in Ha as [Hac Ha].
    cbn [app lazy_star]. rewrite Hk by done. rewrite Hc.
    rewrite (IH _ Hy' Ha). cbn [length]. by rewrite Nat.add_succ_comm.
Qed.

Lemma lazy_star_now (p : N -> bool) (k : cont) (s : text) (pos : nat)
    (st : mstate) (r : mresult) :
  k pos s st = Some r -> lazy_star p k pos s st = Some r.
Proof. intros H. destruct s; cbn [lazy_star]; by rewrite H. Qed.

(** The rewriter's inline-link pattern on a link whose alt text has no
    line break and no closing bracket, and whose target has no line break
    and no closing parenthesis. *)
Lemma markdown_sub_forward (alt url post : text) :
  Forall (fun c => dot c = true) alt -> ch "]" ∉ alt ->
  Forall (fun c => dot c = true) url -> ch ")" ∉ url ->
  let link := txt "![" ++ alt ++ txt "](" ++ url ++ txt ")" in
  exists spans,
    match_at markdown_sub_pattern (link ++ post) = Some (length link, spans) /\
    map (slice (link ++ post)) spans = [alt; url].
Proof.
  intros Halt Hbr Hurl Hpar link.
  exists [(2, 2 + length alt);
          (2 + length alt + 2, 2 + length alt + 2 + length url)].
  split.
  - unfold match_at, markdown_sub_pattern, link. cbn [run].
    rewrite <- !app_assoc, lit_app. unfold gopen at 1. cbn [fst snd].
    rewrite (lazy_star_forward dot _ (ch "]")); [|clear|done|done].
    2: { intros pos c s Hc. unfold gclose, lit. cbn [fst snd].
         change (txt "](") with [ch "]"; ch "("]. cbn [Py.strip_prefix].
         by destruct (N.eqb_spec (ch "]") c) as [<-|_]. }
    apply lazy_star_now. unfold gclose at 1. cbn [fst snd].
    rewrite lit_app. unfold gopen at 1. cbn [fst snd].
    rewrite (lazy_star_forward dot _ (ch ")")); [|clear|done|done].
    2: { intros pos c s Hc. unfold gclose, lit. cbn [fst snd].
         change (txt ")") with [ch ")"]. cbn [Py.strip_prefix].
         by destruct (N.eqb_spec (ch ")") c) as [<-|_]. }
    apply lazy_star_now. unfold gclose at 1. cbn [fst snd].
    rewrite lit_app. unfold accept. cbn [snd rev app].
    lit_lengths. do 2 f_equal. lia.
  - unfold link. cbn [map]. f_equal; [|f_equal].
    + rewrite <- !app_assoc. apply slice_app; lit_lengths; lia.
    + replace ((txt "![" ++ alt ++ txt "](" ++ url ++ txt ")") ++ post)
        with ((txt "![" ++ alt ++ txt "](") ++ url ++ txt ")" ++ post)
        by (by rewrite <- !app_assoc).
      apply slice_app; lit_lengths; lia.
Qed.

Lemma contains_first (a : N) (l s : text) :
  a ∉ s -> Py.contains (a :: l) s = false.
Proof.
  induction s as [|c s IH]; [done|].
  intros [Hc Hs]%not_elem_of_cons. cbn [Py.contains]. rewrite (IH Hs).
  unfold Py.startswith. cbn [Py.strip_prefix].
  by destruct (N.eqb_spec a c).
Qed.

Lemma flat_map_plain (repl : text -> list text -> text) (s : text) :
  flat_map (render repl) (map Plain s) = s.
Proof. induction s as [|c s IH]; [done|]. cbn [map flat_map render app]. by rewrite IH. Qed.

End Occurrences.

(** X13. An inline link among plain text is rewritten in place.  For a
    text [pre ![alt](url) post] in which [pre] and [post] have no [!], the
    alt text has no line break and no [[]]], the target has no line break and
    no [)] and is recorded with a local path, and the result holds no
    [<img], rewriting gives [pre ![alt](local) post]: the alt text and
    everything around the link are kept. *)
Theorem inline_link_rewritten (d : gmap (list N) (list N))
    (pre alt url local post : text) :
  Py.contains (txt "!") pre = false ->
  Py.contains (txt "!") post = false ->
  forallb dot alt = true -> Py.contains (txt "]") alt = false ->
  forallb dot url = true -> Py.contains (txt ")") url = false ->
  d !! url = Some local ->
  Py.contains (txt "<img")
    (pre ++ txt "![" ++ alt ++ txt "](" ++ local ++ txt ")" ++ post) = false ->
  rewrite_content d (pre ++ txt "![" ++ alt ++ txt "](" ++ url ++ txt ")" ++ post)
  = pre ++ txt "![" ++ alt ++ txt "](" ++ local ++ txt ")" ++ post.
Proof.
  intros Hpre%contains_char Hpost%contains_char Halt%forallb_Forall
    Hbr%contains_char Hurl%forallb_Forall Hpar%contains_char Hd Himg.
  unfold rewrite_content.
  assert (markdown_pass d
            (pre ++ txt "![" ++ alt ++ txt "](" ++ url ++ txt ")" ++ post)
          = pre ++ txt "![" ++ alt ++ txt "](" ++ local ++ txt ")" ++ post)
    as ->.
  { unfold markdown_pass, sub, finditer.
    rewrite (scan_plain_prefix (ch "!") (txt "![")) by done.
    destruct (markdown_sub_forward alt url post Halt Hbr Hurl Hpar)
      as (spans & Hm & Hs). cbv zeta in Hm, Hs.
    replace (txt "![" ++ alt ++ txt "](" ++ url ++ txt ")" ++ post)
      with ((txt "![" ++ alt ++ txt "](" ++ url ++ txt ")") ++ post)
      by (by rewrite <- !app_assoc).
    rewrite (scan_hit_at _ _ _ spans) by done. rewrite Hs.
    pose proof (scan_plain_prefix (ch "!") (txt "![") markdown_sub_pattern
                  post [] eq_refl eq_refl Hpost) as Hp.
    rewrite app_nil_r in Hp. rewrite Hp.
    cbn [scan]. rewrite app_nil_r, flat_map_app, flat_map_plain.
    cbn [flat_map render]. rewrite flat_map_plain.
    unfold markdown_replacer. cbn [group nth Nat.sub]. rewrite Hd.
    f_equal. rewrite <- !app_assoc. by destruct alt. }
  unfold html_pass, html_sub_pattern. by apply sub_no_literal.
Qed.

Lemma inline_link_rewritten_witness :
  rewrite_content {[ txt "http://x/a.png" := txt "images/doc/a.png" ]}
    (txt "A cat: " ++ txt "![" ++ txt "my cat" ++ txt "](" ++ txt "http://x/a.png"
       ++ txt ")" ++ txt " (seen today)")
  = txt "A cat: " ++ txt "![" ++ txt "my cat" ++ txt "](" ++ txt "images/doc/a.png"
      ++ txt ")" ++ txt " (seen today)".
Proof.
  apply (inline_link_rewritten
           {[ txt "http://x/a.png" := txt "images/doc/a.png" ]}
           (txt "A cat: ") (txt "my cat") (txt "http://x/a.png")
           (txt "images/doc/a.png") (txt " (seen today)"));
    vm_compute; reflexivity.
Defined.

(** ** A tag whose address occurs once *)

Section SingleOccurrence.

Lemma startswith_short (s t l : text) :
  length l <= length s ->
  Py.startswith (s ++ t) l = true -> Py.startswith s l = true.
Proof.
  intros Hlen [r Hr]%startswith_iff. apply startswith_iff.
  exists (drop (length l) s).
  assert (take (length l) s = l) as Hl.
  { rewrite <- (take_app_le s t) by done. rewrite Hr. apply take_app_length. }
  rewrite <- Hl at 1. by rewrite take_drop.
Qed.

Lemma replace_from_none (old new s : text) :
  Py.contains old s = false -> Py.replace_from old new s 0 = s.
Proof.
  induction s as [|c s IH]; [done|].
  intros [Hc Hs]%contains_cons. cbn [Py.replace_from].
  by rewrite Hc, (IH Hs).
Qed.

Lemma replace_from_skip (old new x s : text) :
  Py.replace_from old new (x ++ s) (length x) = Py.replace_from old new s 0.
Proof. induction x as [|c x IH]; [by destruct s|exact IH]. Qed.

Lemma replace_from_before (old new x s : text) :
  old <> [] ->
  Py.contains old (x ++ removelast old) = false ->
  Py.replace_from old new (x ++ old ++ s) 0 =
  x ++ Py.replace_from old new (old ++ s) 0.
Proof.
  intros Hold. induction x as [|c x IH]; [done|].
  cbn [app]. intros [Hc Hx]%contains_cons. cbn [Py.replace_from].
  rewrite (IH Hx). destruct (Py.startswith (c :: x ++ old ++ s) old) eqn:E; [|done].
  rewrite (app_removelast_last 0%N Hold) in E at 1.
  rewrite <- app_assoc in E.
  change (c :: x ++ removelast old ++ [List.last old 0%N] ++ s)
    with ((c :: x) ++ removelast old ++ [List.last old 0%N] ++ s) in E.
  rewrite app_assoc in E. apply startswith_short in E.
  - cbn [app] in E. by rewrite E in Hc.
  - rewrite length_app. cbn [length].
    rewrite (app_removelast_last 0%N Hold) at 1. rewrite length_app.
    cbn [length]. lia.
Qed.

(** [whole.replace(url, local)] when [url] occurs once in [whole]. *)
Lemma replace_single (x old new y : text) :
  old <> [] ->
  Py.contains old (x ++ removelast old) = false ->
  Py.contains old y = false ->
  Py.replace (x ++ old ++ y) old new = x ++ new ++ y.
Proof.
  intros Hold Hx Hy. unfold Py.replace.
  destruct old as [|a old'] eqn:E; [done|]. rewrite <- E in *.
  rewrite replace_from_before by (by subst). f_equal.
  rewrite E at 2. cbn [app Py.replace_from].
  change (a :: old' ++ y) with ((a :: old') ++ y). rewrite <- E.
  rewrite startswith_app. f_equal.
  replace (length old - 1) with (length old') by (rewrite E; cbn [length]; lia).
  rewrite replace_from_skip. by apply replace_from_none.
Qed.

(** The rewriter's tag pattern on a tag. *)
Lemma html_sub_forward (x u b post : text) :
  x <> [] -> Forall (fun c => not_gt c = true) x ->
  u <> [] -> Forall (fun c => not_quote_gt c = true) u ->
  Forall (fun c => not_gt c = true) b ->
  Py.contains src_eq_quote (u ++ [dq] ++ b) = false ->
  let tag := txt "<img" ++ x ++ src_eq_quote ++ u ++ [dq] ++ b ++ txt ">" in
  exists spans,
    match_at html_sub_pattern (tag ++ post) = Some (length tag, spans) /\
    map (slice (tag ++ post)) spans = [u].
Proof.
  intros Hx Hxgt Hu Hunq Hb Hno tag.
  exists [(4 + length x + 5, 4 + length x + 5 + length u)].
  assert (tag ++ post = txt "<img" ++ x ++ src_eq_quote ++ u ++ [dq] ++ b
                          ++ ch ">" :: post) as Hs.
  { unfold tag. by rewrite <- !app_assoc. }
  split.
  - change (match_at html_sub_pattern (tag ++ post))
      with (img_src (greedy_star not_gt (lit (txt ">") accept)) 0
              (tag ++ post) ([], [])).
    rewrite Hs. apply img_src_forward; try done.
    apply greedy_star_prepend; [done|].
    rewrite greedy_star_stop by reflexivity.
    change (ch ">" :: post) with (txt ">" ++ post).
    rewrite lit_app. unfold accept. cbn [snd rev app]. unfold tag.
    lit_lengths. do 2 f_equal. lia.
  - cbn [map]. f_equal. rewrite Hs.
    replace (txt "<img" ++ x ++ src_eq_quote ++ u ++ [dq] ++ b ++ ch ">" :: post)
      with ((txt "<img" ++ x ++ src_eq_quote) ++ u ++ [dq] ++ b ++ ch ">" :: post)
      by (by rewrite <- !app_assoc).
    apply slice_app; lit_lengths; lia.
Qed.

End SingleOccurrence.

(** X14. A tag whose address occurs once is rewritten in place.  For a text
    [pre <img x src=(quote)url(quote) b> post] without inline-link syntax,
    in which [pre] and [post] have no [<], [x] and [b] have no [>], [b] has
    no further [src=], and the address is recorded with a local path and
    occurs nowhere else in the tag, rewriting replaces the address by the
    local path and keeps everything else, the other attributes
    included. *)
Theorem tag_source_rewritten (d : gmap (list N) (list N))
    (pre x url b local post : text) :
  let tag := txt "<img" ++ x ++ src_eq_quote ++ url ++ [dq] ++ b ++ txt ">" in
  Py.contains (txt "![") (pre ++ tag ++ post) = false ->
  Py.contains (txt "<") pre = false -> Py.contains (txt "<") post = false ->
  x <> [] -> forallb not_gt x = true ->
  url <> [] -> forallb not_quote_gt url = true ->
  forallb not_gt b = true ->
  Py.contains src_eq_quote (url ++ [dq] ++ b) = false ->
  Py.contains url (txt "<img" ++ x ++ src_eq_quote ++ removelast url) = false ->
  Py.contains url ([dq] ++ b ++ txt ">") = false ->
  d !! url = Some local ->
  rewrite_content d (pre ++ tag ++ post)
  = pre ++ (txt "<img" ++ x ++ src_eq_quote ++ local ++ [dq] ++ b ++ txt ">")
      ++ post.
Proof.
  intros tag Hmd Hpre%contains_char Hpost%contains_char Hx Hxgt%forallb_Forall
    Hu Hunq%forallb_Forall Hb%forallb_Forall Hno Hbefore Hafter Hd.
  unfold rewrite_content.
  assert (markdown_pass d (pre ++ tag ++ post) = pre ++ tag ++ post) as ->.
  { unfold markdown_pass, markdown_sub_pattern. by apply sub_no_literal. }
  unfold html_pass, sub, finditer.
  rewrite (scan_plain_prefix (ch "<") (txt "<img")) by done.
  destruct (html_sub_forward x url b post Hx Hxgt Hu Hunq Hb Hno)
    as (spans & Hm & Hs). cbv zeta in Hm, Hs. fold tag in Hm, Hs.
  rewrite (scan_hit_at _ _ _ spans); [|by unfold tag|done]. rewrite Hs.
  pose proof (scan_plain_prefix (ch "<") (txt "<img") html_sub_pattern
                post [] eq_refl eq_refl Hpost) as Hp.
  rewrite app_nil_r in Hp. rewrite Hp.
  cbn [scan]. rewrite app_nil_r, flat_map_app, flat_map_plain.
  cbn [flat_map render]. rewrite flat_map_plain.
  unfold html_replacer. cbn [group nth Nat.sub]. rewrite Hd.
  do 2 f_equal. unfold tag.
  replace (txt "<img" ++ x ++ src_eq_quote ++ url ++ [dq] ++ b ++ txt ">")
    with ((txt "<img" ++ x ++ src_eq_quote) ++ url ++ ([dq] ++ b ++ txt ">"))
    by (by rewrite <- !app_assoc).
  rewrite replace_single; [by rewrite <- !app_assoc|done| |done].
  by rewrite <- !app_assoc.
Qed.

Lemma tag_source_rewritten_witness :
  rewrite_content {[ txt "http://x/a.png" := txt "images/doc/a.png" ]}
    (txt "See " ++
     (txt "<img" ++ txt " " ++ src_eq_quote ++ txt "http://x/a.png" ++ [dq]
        ++ qtxt " alt='a cat'" ++ txt ">") ++ txt " here.")
  = txt "See " ++
    (txt "<img" ++ txt " " ++ src_eq_quote ++ txt "images/doc/a.png" ++ [dq]
       ++ qtxt " alt='a cat'" ++ txt ">") ++ txt " here.".
Proof.
  apply (tag_source_rewritten
           {[ txt "http://x/a.png" := txt "images/doc/a.png" ]}
           (txt "See ") (txt " ") (txt "http://x/a.png") (qtxt " alt='a cat'")
           (txt "images/doc/a.png") (txt " here."));
    try (vm_compute; reflexivity); by vm_compute.
Defined.

(** ** What the output file holds *)

Section Outputs.

Context (env : Env).

Lemma source_outside_images (path q : text) :
  Py.startswith (source_of path) (images_dir_of q) = false.
Proof. reflexivity. Qed.

Lemma output_outside_images (path q : text) :
  Py.startswith (output_of path) (images_dir_of q) = false.
Proof. reflexivity. Qed.

(** The output of one document: the text read at the start, rewritten
    under the records the loop made, and encoded. *)
Lemma process_output (path content : text) (w w' : world) :
  read_text w (source_of path) = Some content ->
  process env path w = (Done tt, w') ->
  exists d w1 out,
    download_loop env (downloader_of path) 0 (image_urls_of content) ∅ w
    = (Done d, w1) /\
    Codec.encode (rewrite_content d content) = Some out /\
    files w' = <[output_of path := out]> (files w1) /\
    calls w' = calls w1.
Proof.
  intros Hsrc Hrun.
  destruct (can_makedirs env (images_dir_of path)) eqn:Hdir;
    [|by rewrite process_spec, Hdir in Hrun].
  rewrite (process_read env path content w Hdir Hsrc) in Hrun.
  destruct (download_loop env (downloader_of path) 0 (image_urls_of content)
              ∅ w) as [[d|e] w1] eqn:Hloop; [|done].
  rewrite update_spec in Hrun by apply output_of_truthy.
  cbn [markdown_file set_downloaded downloaded_images downloader_of] in Hrun.
  rewrite (download_loop_frame env _ _ _ _ _ _ _ (source_of path) Hloop)
    in Hrun by apply source_outside_images.
  unfold read_text in Hsrc.
  destruct (files w !! source_of path) as [bs|]; [|done].
  cbn in Hsrc. rewrite Hsrc in Hrun.
  destruct (can_write env (output_of path)); [|done].
  destruct (Codec.encode (rewrite_content d content)) as [out|] eqn:Henc;
    [|done].
  injection Hrun as <-. by exists d, w1, out.
Qed.

(** The records of one document: each is for a reference extracted from it
    and names an existing file under its image directory. *)
Lemma process_records (path content : text) (d : gmap (list N) (list N))
    (w w1 : world) :
  download_loop env (downloader_of path) 0 (image_urls_of content) ∅ w
  = (Done d, w1) ->
  forall u p, d !! u = Some p ->
    u ∈ image_urls_of content /\
    Py.startswith p (images_dir_of path) = true /\
    (is_Some (files w1 !! p) \/ is_Some (files w1 !! (p ++ txt ".svg"))).
Proof.
  intros Hloop u p Hd.
  destruct (download_loop_record_names env _ _ _ _ _ _ _ Hloop u p Hd)
    as [Hd0|(Hu & j & Hname)]; [by rewrite lookup_empty in Hd0|].
  split; [done|]. split.
  - exact (generate_local_filename_prefix env (downloader_of path) u p j w w
             (Hname w)).
  - refine (download_loop_files env (downloader_of path) _ _ _ _ _ _ _
              Hloop u p Hd).
    intros u0 p0 H. by rewrite lookup_empty in H.
Qed.

Lemma for_each_output_kept (after : list text) (out : text) :
  Py.startswith out (txt "output/") = true ->
  (forall q, q ∈ after -> output_of q <> out) ->
  forall (w w' : world) (r : outcome unit),
    for_each env after w = (r, w') ->
    files w' !! out = files w !! out.
Proof.
  intros Hout. induction after as [|q rest IH]; intros Hne w w' r Hrun.
  - by injection Hrun as _ <-.
  - assert (Py.startswith out (images_dir_of q) = false) as Himg.
    { apply startswith_iff in Hout as [x ->]. reflexivity. }
    simpl in Hrun. unfold_m.
    destruct (process env q w) as [[[]|e] w1] eqn:Hp.
    + rewrite (IH ltac:(intros ? ?; apply Hne; by right) _ _ _ Hrun).
      apply (process_frame env q out w w1 (Done tt) Hp Himg).
      intros ->. by apply (Hne q); [left|].
    + injection Hrun as _ <-.
      apply (process_frame env q out w w1 (Raised e) Hp Himg).
      intros ->. by apply (Hne q); [left|].
Qed.

Lemma for_each_output (before after : list text) (path content : text)
    (w w' : world) :
  (forall q, q ∈ after -> output_of q <> output_of path) ->
  read_text w (source_of path) = Some content ->
  for_each env (before ++ path :: after) w = (Done tt, w') ->
  exists w0 d w1 out,
    for_each env before w = (Done tt, w0) /\
    download_loop env (downloader_of path) 0 (image_urls_of content) ∅ w0
    = (Done d, w1) /\
    Codec.encode (rewrite_content d content) = Some out /\
    files w' !! output_of path = Some out.
Proof.
  intros Hne Hsrc. rewrite for_each_app.
  destruct (for_each env before w) as [[[]|e] w0] eqn:Hbefore; [|done].
  cbn [for_each]. unfold_m.
  destruct (process env path w0) as [[[]|e] w2] eqn:Hp; [|done].
  intros Hafter.
  assert (read_text w0 (source_of path) = Some content) as Hsrc0.
  { rewrite <- Hsrc. apply read_text_frame.
    exact (for_each_frame env before w w0 (Done tt) (source_of path)
             Hbefore eq_refl eq_refl). }
  destruct (process_output path content w0 w2 Hsrc0 Hp)
    as (d & w1 & out & Hloop & Henc & Hfiles & _).
  exists w0, d, w1, out. split; [done|]. split; [done|]. split; [done|].
  rewrite (for_each_output_kept after (output_of path) eq_refl Hne
             _ _ _ Hafter).
  rewrite Hfiles. apply lookup_insert_eq.
Qed.

End Outputs.

(** X15. The output of one document is that document rewritten under the
    records of its own run.  When the body of [main]'s loop ends normally
    for a path, the download phase has ended normally with some records; a
    reference is recorded with a path exactly when a call of
    [download_image] for it with that path succeeded during that run; the
    output file holds the text read from the document at the start,
    rewritten under these records and encoded; and every record is for a
    reference extracted from that text, names a path under the document's
    image directory, and that path exists as a file (possibly with [.svg]
    appended). *)
Theorem document_output_is_rewrite (env : Env) (path content : text)
    (w w' : world) :
  read_text w (source_of path) = Some content ->
  process env path w = (Done tt, w') ->
  exists self' w1 new out,
    download_all_images env (downloader_of path) w = (Done self', w1) /\
    calls w' = calls w ++ new /\
    (forall u p,
       downloaded_images self' !! u = Some p <->
       exists j, new !! j = Some (u, p) /\
                 fetch_ok env (downloader_of path) (length (calls w) + j) u p
                 = true) /\
    Codec.encode (rewrite_content (downloaded_images self') content)
    = Some out /\
    files w' !! output_of path = Some out /\
    forall u p, downloaded_images self' !! u = Some p ->
      u ∈ image_urls_of content /\
      Py.startswith p (images_dir_of path) = true /\
      (is_Some (files w' !! p) \/ is_Some (files w' !! (p ++ txt ".svg"))).
Proof.
  intros Hsrc Hrun.
  destruct (process_output env path content w w' Hsrc Hrun)
    as (d & w1 & out & Hloop & Henc & Hfiles & Hcalls).
  destruct (download_loop_calls env _ _ _ _ _ _ _ Hloop) as (new & Hc & _).
  exists (set_downloaded (downloader_of path) d), w1, new, out.
  cbn [downloaded_images set_downloaded].
  split; [|split; [by rewrite Hcalls|split; [|split; [done|split]]]].
  - rewrite (download_all_images_read env _ content) by done.
    cbn [downloaded_images downloader_of]. by rewrite Hloop.
  - intros u p.
    rewrite (download_loop_records_iff env _ _ _ _ _ _ _ new Hloop Hc u p).
    rewrite lookup_empty. split; [by intros [?|?]|by right].
  - rewrite Hfiles. apply lookup_insert_eq.
  - intros u p Hd.
    destruct (process_records env path content d w w1 Hloop u p Hd)
      as (Hu & Hpre & Hfile).
    split; [done|]. split; [done|]. rewrite Hfiles.
    destruct Hfile as [Hf|Hf]; [left|right];
      apply lookup_insert_is_Some;
      match goal with
      | |- ?a = ?b \/ _ => destruct (decide (a = b)); [by left|by right]
      end.
Qed.

Lemma document_output_is_rewrite_witness :
  let env := Sample.env [txt "source_markdowns/doc.md"] in
  let doc := qtxt "![a](http://x/a.png) <img src='http://x/gone.png'>" in
  let w := Sample.with_doc doc in
  let path := txt "/repo/source_markdowns/doc.md" in
  let w' := snd (process env path w) in
  exists self' w1 new out,
    download_all_images env (downloader_of path) w = (Done self', w1) /\
    calls w' = calls w ++ new /\
    (forall u p,
       downloaded_images self' !! u = Some p <->
       exists j, new !! j = Some (u, p) /\
                 fetch_ok env (downloader_of path) (length (calls w) + j) u p
                 = true) /\
    Codec.encode (rewrite_content (downloaded_images self') doc) = Some out /\
    files w' !! output_of path = Some out /\
    forall u p, downloaded_images self' !! u = Some p ->
      u ∈ image_urls_of doc /\
      Py.startswith p (images_dir_of path) = true /\
      (is_Some (files w' !! p) \/ is_Some (files w' !! (p ++ txt ".svg"))).
Proof.
  intros env doc w path w'.
  apply (document_output_is_rewrite env path doc w w').
  - vm_compute. reflexivity.
  - vm_compute. reflexivity.
Defined.

(** X16. What [main] leaves in an output file.  If the batch ends normally,
    then for every listed document whose output name no later document of
    the listing shares, the documents listed before it have been processed,
    the download phase of the document itself has ended normally, and the
    output file holds the text the document read as when [main] started,
    rewritten under the records of that download phase and encoded; each of
    these records is for a reference extracted from that text and names a
    path under the document's image directory.  (Two names that agree up to
    their first dot, or that differ in a space against an underscore, share
    an output name: the later document's output replaces the earlier
    one's.) *)
Theorem main_output_is_rewrite (env : Env) (before after : list text)
    (path content : text) (w w' : world) :
  find_markdown_files env = before ++ path :: after ->
  (forall q, q ∈ after -> output_of q <> output_of path) ->
  read_text w (source_of path) = Some content ->
  main env w = (Done tt, w') ->
  exists w0 self' w1 out,
    for_each env before w = (Done tt, w0) /\
    download_all_images env (downloader_of path) w0 = (Done self', w1) /\
    Codec.encode (rewrite_content (downloaded_images self') content)
    = Some out /\
    files w' !! output_of path = Some out /\
    forall u p, downloaded_images self' !! u = Some p ->
      u ∈ image_urls_of content /\
      Py.startswith p (images_dir_of path) = true.
Proof.
  intros Hlist Hne Hsrc. unfold main. rewrite Hlist. intros Hrun.
  destruct (for_each_output env before after path content w w' Hne Hsrc Hrun)
    as (w0 & d & w1 & out & Hbefore & Hloop & Henc & Hfile).
  exists w0, (set_downloaded (downloader_of path) d), w1, out.
  cbn [downloaded_images set_downloaded].
  split; [done|]. split; [|split; [done|split; [done|]]].
  - rewrite (download_all_images_read env _ content).
    + cbn [downloaded_images downloader_of]. by rewrite Hloop.
    + rewrite <- Hsrc. apply read_text_frame.
      exact (for_each_frame env before w w0 (Done tt) (source_of path)
               Hbefore eq_refl eq_refl).
  - intros u p Hd.
    destruct (process_records env path content d w0 w1 Hloop u p Hd)
      as (? & ? & _). by split.
Qed.

Lemma main_output_is_rewrite_witness :
  let env := Worlds.with_http Sample.http
               [txt "source_markdowns/doc.md"; txt "source_markdowns/c.md"] in
  let doc := txt "![a](http://x/a.png)" in
  let w := World {[ txt "source_markdowns/doc.md" := doc;
                    txt "source_markdowns/c.md" := qtxt "<img src='c.gif'>" ]}
                 [] in
  let path := txt "/repo/source_markdowns/doc.md" in
  exists w0 self' w1 out,
    for_each env [] w = (Done tt, w0) /\
    download_all_images env (downloader_of path) w0 = (Done self', w1) /\
    Codec.encode (rewrite_content (downloaded_images self') doc) = Some out /\
    files (snd (main env w)) !! output_of path = Some out /\
    forall u p, downloaded_images self' !! u = Some p ->
      u ∈ image_urls_of doc /\
      Py.startswith p (images_dir_of path) = true.
Proof.
  intros env doc w path.
  apply (main_output_is_rewrite env [] [txt "/repo/source_markdowns/c.md"]
           path doc w (snd (main env w))).
  - vm_compute. reflexivity.
  - intros q H. list_cases H. subst q. vm_compute. discriminate.
  - vm_compute. reflexivity.
  - vm_compute. reflexivity.
Defined.

(** ** The shape of an extracted reference *)

Section ExtractedShape.

(** A lazy quantifier stops at the first place where what follows in the
    pattern matches: when that is sure to match before the character [a],
    the run has no [a] in it. *)
Lemma lazy_star_inv_first (p : N -> bool) (k : cont) (a : N) (st : mstate) :
  (forall pos s, k pos (a :: s) st <> None) ->
  forall (s : text) (pos : nat) (r : mresult),
    lazy_star p k pos s st = Some r ->
    exists y s', s = y ++ s' /\ Forall (fun c => p c = true) y /\ (a ∉ y) /\
                 k (pos + length y) s' st = Some r.
Proof.
  intros Hk. induction s as [|c s IH]; intros pos r H; cbn [lazy_star] in H.
  - destruct (k pos [] st) eqn:E; [|done].
    exists [], []. rewrite Nat.add_0_r. injection H as <-.
    split; [done|]. split; [done|]. split; [apply not_elem_of_nil|done].
  - destruct (k pos (c :: s) st) eqn:E.
    { exists [], (c :: s). rewrite Nat.add_0_r. injection H as <-.
      split; [done|]. split; [done|]. split; [apply not_elem_of_nil|done]. }
    destruct (p c) eqn:Hc; [|done].
    destruct (IH _ _ H) as (y & s' & -> & Hy & Ha & Hr).
    exists (c :: y), s'. split; [done|]. split; [by constructor|]. split.
    + apply not_elem_of_cons. split; [|done].
      intros ->. by apply (Hk pos (y ++ s')).
    + cbn [length]. by rewrite <- Nat.add_succ_comm.
Qed.

(** The group of a match of the extractor's inline-link pattern. *)
Lemma markdown_match_shape (s : text) (e : nat) (spans : list (nat * nat)) :
  match_at markdown_pattern s = Some (e, spans) ->
  exists u, map (slice s) spans = [u] /\
            Forall (fun c => dot c = true) u /\ ch ")" ∉ u.
Proof.
  unfold match_at, markdown_pattern. cbn [run]. intros H.
  apply lit_inv in H as (s1 & -> & H).
  apply lazy_star_inv in H as (alt & s2 & -> & _ & H).
  apply lit_inv in H as (s3 & -> & H). unfold gopen in H. cbn [fst snd] in H.
  apply (lazy_star_inv_first dot _ (ch ")")) in H
    as (u & s4 & -> & Hdot & Hpar & H).
  2: { intros pos s. unfold gclose. cbn [fst snd].
       change (ch ")" :: s) with (txt ")" ++ s). by rewrite lit_app. }
  unfold gclose in H. cbn [fst snd] in H.
  apply lit_inv in H as (s5 & -> & H).
  unfold accept in H. injection H as <- <-.
  exists u. split; [|done]. cbn [rev app map]. f_equal.
  replace (txt "![" ++ alt ++ txt "](" ++ u ++ txt ")" ++ s5)
    with ((txt "![" ++ alt ++ txt "](") ++ u ++ txt ")" ++ s5)
    by (by rewrite <- !app_assoc).
  apply slice_app; lit_lengths; lia.
Qed.

(** The group of a match of a tag pattern, whatever the pattern has after
    the closing quote, as long as that opens and closes no group. *)
Lemma img_src_shape (k : cont) (s : text) (e : nat) (spans : list (nat * nat)) :
  (forall pos s st r, k pos s st = Some r -> snd r = rev (snd st)) ->
  img_src k 0 s ([], []) = Some (e, spans) ->
  exists u, map (slice s) spans = [u] /\ u <> [] /\
            Forall (fun c => not_quote_gt c = true) u.
Proof.
  intros Hk. unfold img_src. intros H.
  apply lit_inv in H as (s1 & -> & H).
  apply greedy_plus_inv in H as (y & s2 & -> & _ & Hy & H).
  apply lit_inv in H as (s3 & -> & H). unfold gopen in H. cbn [fst snd] in H.
  apply greedy_plus_inv in H as (u & s4 & -> & Hu & Hg & H).
  unfold gclose in H. cbn [fst snd] in H.
  apply lit_inv in H as (s5 & -> & H).
  apply Hk in H. cbn [fst snd rev app] in H. subst spans.
  exists u. split; [|done]. cbn [map]. f_equal.
  replace (txt "<img" ++ y ++ src_eq_quote ++ u ++ [dq] ++ s5)
    with ((txt "<img" ++ y ++ src_eq_quote) ++ u ++ [dq] ++ s5)
    by (by rewrite <- !app_assoc).
  apply slice_app; lit_lengths; lia.
Qed.

Lemma html_match_shape (s : text) (e : nat) (spans : list (nat * nat)) :
  match_at html_pattern s = Some (e, spans) ->
  exists u, map (slice s) spans = [u] /\ u <> [] /\
            Forall (fun c => not_quote_gt c = true) u.
Proof.
  rewrite html_pattern_img_src. apply img_src_shape.
  intros pos s' st r. unfold accept. by intros [= <-].
Qed.

Lemma self_closing_match_shape (s : text) (e : nat)
    (spans : list (nat * nat)) :
  match_at self_closing_pattern s = Some (e, spans) ->
  exists u, map (slice s) spans = [u] /\ u <> [] /\
            Forall (fun c => not_quote_gt c = true) u.
Proof.
  rewrite self_closing_pattern_img_src. apply img_src_shape.
  intros pos s' st r H. unfold to_slash_gt in H.
  apply greedy_star_inv in H as (z & s2 & -> & _ & H).
  apply lit_inv in H as (s3 & -> & H).
  unfold accept in H. by injection H as <-.
Qed.

(** What holds of the group of every match holds of everything [findall]
    yields. *)
Lemma findall_Forall (pat : pattern) (P : text -> Prop) (content : text) :
  (forall s e spans, match_at pat s = Some (e, spans) ->
     exists u, map (slice s) spans = [u] /\ P u) ->
  Forall P (findall pat content).
Proof.
  intros Hpat. apply Forall_forall. intros u Hu.
  unfold findall in Hu. apply list_elem_of_In, in_flat_map in Hu
    as ([c|whole gs] & Hpc & Hin); [done|].
  apply list_elem_of_In, scan_Hit in Hpc as (s' & n & spans & Hm & _ & ->).
  destruct (Hpat _ _ _ Hm) as (u' & Hs & HP). rewrite Hs in Hin.
  destruct Hin as [<-|[]]. exact HP.
Qed.

Lemma not_quote_gt_chars (u : text) :
  Forall (fun c => not_quote_gt c = true) u -> (dq ∉ u) /\ (ch ">" ∉ u).
Proof.
  induction 1 as [|c u Hc _ [IH1 IH2]];
    [split; apply not_elem_of_nil|].
  unfold not_quote_gt in Hc. apply andb_true_iff in Hc as [Hq Hg].
  split; apply not_elem_of_cons; (split; [|done]); intros <-.
  - by rewrite N.eqb_refl in Hq.
  - by rewrite N.eqb_refl in Hg.
Qed.

Lemma dot_chars (u : text) :
  Forall (fun c => dot c = true) u -> ch "010" ∉ u.
Proof.
  induction 1 as [|c u Hc _ IH]; [apply not_elem_of_nil|].
  apply not_elem_of_cons. split; [|done]. intros <-.
  unfold dot in Hc. by rewrite N.eqb_refl in Hc.
Qed.

End ExtractedShape.

(** X17. The shape of what [extract_image_urls] yields.  A reference taken
    from an inline link has no closing parenthesis and no line break in it
    (an address with a parenthesis is cut before it); a reference taken from
    a tag, by either tag search, is not empty and has no double quote and no
    [>] in it. *)
Theorem extracted_references_shape (content : text) :
  Forall (fun u => (ch ")" ∉ u) /\ (ch "010" ∉ u))
         (findall markdown_pattern content) /\
  Forall (fun u => u <> [] /\ (dq ∉ u) /\ (ch ">" ∉ u))
         (findall html_pattern content ++
          findall self_closing_pattern content).
Proof.
  split; [|apply Forall_app; split].
  - apply findall_Forall. intros s e spans H.
    destruct (markdown_match_shape s e spans H) as (u & Hs & Hdot & Hpar).
    exists u. split; [done|]. split; [done|by apply dot_chars].
  - apply findall_Forall. intros s e spans H.
    destruct (html_match_shape s e spans H) as (u & Hs & Hne & Hu).
    exists u. split; [done|]. split; [done|by apply not_quote_gt_chars].
  - apply findall_Forall. intros s e spans H.
    destruct (self_closing_match_shape s e spans H) as (u & Hs & Hne & Hu).
    exists u. split; [done|]. split; [done|by apply not_quote_gt_chars].
Qed.

(** ** Names made from the position *)

Section IndexNames.

Lemma txt_inj (a b : string) : txt a = txt b -> a = b.
Proof.
  unfold txt. intros H.
  rewrite <- (string_of_list_ascii_of_string a),
          <- (string_of_list_ascii_of_string b).
  f_equal. revert H.
  generalize (list_ascii_of_string a) (list_ascii_of_string b).
  induction l as [|x l IH]; intros [|y l'] H; try done.
  cbn [map] in H. injection H as Hxy Hl. f_equal; [|by apply IH].
  by rewrite <- (ascii_N_embedding x), <- (ascii_N_embedding y), Hxy.
Qed.

(** [str(i)] tells the numbers apart. *)
Lemma str_of_nat_inj (i j : nat) : str_of_nat i = str_of_nat j -> i = j.
Proof.
  unfold str_of_nat. intros H%txt_inj.
  apply DecimalNat.Unsigned.to_uint_inj.
  assert (Some (Nat.to_uint i) = Some (Nat.to_uint j)) as [= ->]; [|done].
  by rewrite <- !NilEmpty.usu, H.
Qed.

Lemma path_join_inj (a b b' : text) :
  Py.startswith b (txt "/") = false -> Py.startswith b' (txt "/") = false ->
  Py.path_join a b = Py.path_join a b' -> b = b'.
Proof.
  unfold Py.path_join. intros -> ->.
  destruct (negb (Py.truthy a) || Py.endswith a (txt "/")); intros H.
  - by apply app_inv_head in H.
  - by apply app_inv_head, app_inv_head in H.
Qed.

End IndexNames.

(** X18. Names made from the position do not collide.  For two references
    whose URL has an empty path, the derived names are [image_<i>.png] under
    the output directory; references at different positions get different
    names, whatever the URLs are. *)
Theorem index_names_distinct (env : Env) (self : Downloader) (u1 u2 : text)
    (i j : nat) (f1 f2 : text) (w1 w2 w1' w2' : world) :
  urlparse_path env u1 = Some [] ->
  urlparse_path env u2 = Some [] ->
  generate_local_filename env self u1 i w1 = (Done f1, w1') ->
  generate_local_filename env self u2 j w2 = (Done f2, w2') ->
  i <> j -> f1 <> f2.
Proof.
  unfold generate_local_filename. intros -> ->. unfold_m.
  change (Py.truthy []) with false. cbv iota.
  intros G1 G2 Hij Heq. apply Hij.
  assert (f1 = Py.path_join (output_dir self)
                 (txt "image_" ++ str_of_nat i ++ txt ".png")) as Hf1
    by congruence.
  assert (f2 = Py.path_join (output_dir self)
                 (txt "image_" ++ str_of_nat j ++ txt ".png")) as Hf2
    by congruence.
  rewrite Hf1, Hf2 in Heq.
  apply path_join_inj in Heq; [|reflexivity|reflexivity].
  apply (app_inv_head (txt "image_")) in Heq.
  apply (app_inv_tail (txt ".png")) in Heq. by apply str_of_nat_inj.
Qed.

Lemma index_names_distinct_witness :
  Py.path_join (txt "images/doc") (txt "image_0.png") <>
  Py.path_join (txt "images/doc") (txt "image_10.png").
Proof.
  apply (index_names_distinct
           (Worlds.with_http (fun _ _ => None) []) Sample.downloader
           (txt "http://x") (txt "http://y") 0 10
           (Py.path_join (txt "images/doc") (txt "image_0.png"))
           (Py.path_join (txt "images/doc") (txt "image_10.png"))
           (World ∅ []) (World ∅ []) (World ∅ []) (World ∅ []));
    try (vm_compute; reflexivity). lia.
Defined.

(** ** The default output name *)

Section DefaultOutput.

Lemma rfind_lookup (c : N) (s : text) :
  forall (i : nat) (found : option nat) (r : nat),
    Py.rfind c s i found = Some r ->
    found = Some r \/ (i <= r /\ s !! (r - i) = Some c).
Proof.
  induction s as [|x s IH]; intros i found r H; cbn [Py.rfind] in H.
  - by left.
  - apply IH in H as [H|[Hle Hr]].
    + destruct (N.eqb_spec x c) as [->|_]; [|by left].
      injection H as <-. right. split; [done|]. by rewrite Nat.sub_diag.
    + right. split; [lia|].
      by replace (r - i) with (S (r - S i)) by lia.
Qed.

(** The default output name is never the name of the document itself. *)
Lemma default_output_differs (p : text) :
  Py.splitext_root p ++ txt "_preprocessed.md" <> p.
Proof.
  assert (p ++ txt "_preprocessed.md" <> p) as Hsame.
  { intros H%(f_equal length). rewrite length_app in H.
    change (length (txt "_preprocessed.md")) with 16 in H. lia. }
  unfold Py.splitext_root.
  destruct (Py.rfind (ch ".") p 0 None) as [dot|] eqn:E; [|done].
  destruct (_ && _); [|done].
  apply rfind_lookup in E as [E|[_ E]]; [done|].
  rewrite Nat.sub_0_r in E. intros H.
  assert (dot < length p) as Hlen by (by eapply lookup_lt_Some).
  rewrite <- H in E. rewrite lookup_app_r in E
    by (rewrite length_take; lia).
  rewrite length_take in E.
  replace (dot - dot `min` length p) with 0 in E by lia.
  by vm_compute in E.
Qed.

End DefaultOutput.

(** X19. With the default output name the document itself is never
    overwritten: [update_markdown_with_local_paths], called without an output
    file, leaves the file it read as it was, whether it ends normally or
    raises, and whatever the document is called. *)
Theorem default_output_keeps_source (env : Env) (self : Downloader)
    (w w' : world) (r : outcome (list N)) :
  update_markdown_with_local_paths env self None w = (r, w') ->
  files w' !! markdown_file self = files w !! markdown_file self.
Proof.
  unfold update_markdown_with_local_paths, read_file, open_write, write_text.
  unfold_m.
  destruct (files w !! markdown_file self) as [bs|] eqn:Hsrc;
    [|by intros [= _ <-]].
  destruct (text_of_bytes bs) as [content|]; [|intros [= _ <-]; by rewrite Hsrc].
  destruct (can_write env _); [|intros [= _ <-]; by rewrite Hsrc].
  unfold put_file, append_file. cbn [files calls].
  destruct (Codec.encode _); cbn [files calls]; intros [= _ <-];
    cbn [files]; rewrite !lookup_insert_ne by apply default_output_differs;
    by rewrite Hsrc.
Qed.

Lemma default_output_keeps_source_witness :
  let w := Sample.with_doc (txt "![a](http://x/a.png)") in
  files (snd (update_markdown_with_local_paths (Sample.env [])
                Sample.downloader None w))
    !! markdown_file Sample.downloader
  = files w !! markdown_file Sample.downloader.
Proof.
  intros w.
  apply (default_output_keeps_source (Sample.env []) Sample.downloader w
           (snd (update_markdown_with_local_paths (Sample.env [])
                   Sample.downloader None w))
           (fst (update_markdown_with_local_paths (Sample.env [])
                   Sample.downloader None w))).
  vm_compute. reflexivity.
Defined.

(** ** Rewriting twice *)

Section Idempotence.












Context (d : gmap (list N) (list N)).









End Idempotence.


(** The conditions on the paths are needed, each of them: a path with a
    line break in it can bring a whole new inline link on its second line,
    and a path with a tag in it is itself rewritten by the tag pass, into
    what may be a recorded reference. *)
Example path_with_line_break_rewritten_twice :
  let d : gmap (list N) (list N) :=
    {[ txt "k" := txt "p" ++ [ch "010"] ++ txt "![](q"; txt "q" := txt "w" ]} in
  let content := txt "![a](k)" in
  rewrite_content d content = txt "![a](p" ++ [ch "010"] ++ txt "![](q)" /\
  rewrite_content d (rewrite_content d content)
  = txt "![a](p" ++ [ch "010"] ++ txt "![](w)".
Proof. split; vm_compute; reflexivity. Qed.

Example path_with_tag_rewritten_twice :
  let d : gmap (list N) (list N) :=
    {[ txt "k" := qtxt "<img src='u'>"; txt "u" := txt "v";
       qtxt "<img src='v'>" := txt "z" ]} in
  let content := txt "![a](k)" in
  rewrite_content d content = qtxt "![a](<img src='v'>)" /\
  rewrite_content d (rewrite_content d content) = txt "![a](z)".
Proof. split; vm_compute; reflexivity. Qed.


(** ** Rewriting a document of separate occurrences *)

Section Documents.

Context (d : gmap (list N) (list N)).
















End Documents.



